(** * whatsapp-api: session supervisor, rate limiter, JID normaliser

    A shallow embedding of the gateway's core modules:

    - [src/utils/jid.js]              -> [Module Jid]
    - [src/utils/errorMapping.js]     -> [Module ErrorMapping]
    - [src/utils/aiEndpoint.js]       -> [Module AiEndpoint]
    - [src/services/aiProxy.js]       -> [Module AiProxy], [Module AiRun]
    - [src/services/rateLimiter.js]   -> [Module RateLimiter]
    - [src/services/cleanupJob.js]    -> [Module Cleanup]
    - [src/services/whatsappClientManager.js] -> [Module Media],
      [Module Manager], [Module InboundRun]

    JavaScript strings are modelled by [string]; a character stands for one
    UTF-16 code unit in the range U+0000..U+00FF.  JavaScript [Map]s are
    [gmap]s, objects shared between closures live in an explicit store, and
    a thrown exception is the [Throw] constructor of [Outcome].  The numbers
    of the rate limiter are finite IEEE 754 doubles: rationals on which every
    arithmetic operation is rounded to the nearest double ([Module Double]). *)

From Stdlib Require Import ZArith QArith Qminmax Qround Qpower Lqa Lia Bool Ascii List.
From stdpp Require Import gmap strings list fin_maps.

Local Open Scope Z_scope.

(* ===================================================================== *)
(** * JavaScript values shared by all modules                             *)
(* ===================================================================== *)

Module Js.

(** An [Error] object: whether it is an instance of [RateLimitError],
    its [code] property (absent on a plain [new Error(msg)]) and its
    message. *)
Record JsError := mkError {
  err_rate_limit : bool;
  err_code : option string;
  err_message : string
}.

(** [new Error(msg)] *)
Definition Error (msg : string) : JsError := mkError false None msg.

(** [const e = new Error(msg); e.code = code] *)
Definition CodedError (msg code : string) : JsError :=
  mkError false (Some code) msg.

(** Result of a call that either returns or throws. *)
Inductive Outcome (A : Type) : Type :=
| Return (a : A)
| Throw (e : JsError).
Arguments Return {A} a.
Arguments Throw {A} e.

(** Sequencing of calls that may throw: [x ← m; k]. *)
#[global] Instance Outcome_ret : MRet Outcome := @Return.
#[global] Instance Outcome_bind : MBind Outcome :=
  fun A B f m =>
    match m with
    | Return a => f a
    | Throw e => Throw e
    end.

(** Truthiness of an optional string ([undefined] and [""] are falsy). *)
Definition truthy (v : option string) : bool :=
  match v with
  | Some s => negb (String.eqb s "")
  | None => false
  end.

(** White space removed by [String.prototype.trim], restricted to the
    modelled code units: TAB, LF, VT, FF, CR, SPACE and NBSP. *)
Definition is_white_space (c : ascii) : bool :=
  match c with
  | "009" | "010" | "011" | "012" | "013" | " " | "160" => true
  | _ => false
  end%char.

Definition is_digit (c : ascii) : bool :=
  match c with
  | "0" | "1" | "2" | "3" | "4" | "5" | "6" | "7" | "8" | "9" => true
  | _ => false
  end%char.

Fixpoint trimStart (s : string) : string :=
  match s with
  | EmptyString => EmptyString
  | String c r => if is_white_space c then trimStart r else s
  end.

Fixpoint trimEnd (s : string) : string :=
  match s with
  | EmptyString => EmptyString
  | String c r =>
      match trimEnd r with
      | EmptyString => if is_white_space c then EmptyString
                       else String c EmptyString
      | r' => String c r'
      end
  end.

(** [s.trim()] *)
Definition trim (s : string) : string := trimEnd (trimStart s).

(** [s.startsWith(p)] *)
Definition startsWith (p s : string) : bool := String.prefix p s.

(** [s.endsWith(p)] *)
Fixpoint endsWith (p s : string) : bool :=
  if String.eqb s p then true
  else match s with
       | EmptyString => false
       | String _ r => endsWith p r
       end.

(** [s.includes(c)] for a one-character needle. *)
Fixpoint includes (c : ascii) (s : string) : bool :=
  match s with
  | EmptyString => false
  | String d r => if Ascii.eqb d c then true else includes c r
  end.

(** [s.slice(1)] *)
Definition slice1 (s : string) : string :=
  match s with
  | EmptyString => EmptyString
  | String _ r => r
  end.

Fixpoint filter_chars (keep : ascii -> bool) (s : string) : string :=
  match s with
  | EmptyString => EmptyString
  | String c r =>
      if keep c then String c (filter_chars keep r) else filter_chars keep r
  end.

(** [s.includes(needle)] *)
Fixpoint includes_string (needle s : string) : bool :=
  if String.prefix needle s then true
  else match s with
       | EmptyString => false
       | String _ r => includes_string needle r
       end.

Definition lower_char (c : ascii) : ascii :=
  let n := nat_of_ascii c in
  if ((65 <=? n) && (n <=? 90)
      || (192 <=? n) && (n <=? 222) && negb (n =? 215))%nat
  then ascii_of_nat (n + 32) else c.

(** [s.toLowerCase()] *)
Fixpoint toLowerCase (s : string) : string :=
  match s with
  | EmptyString => EmptyString
  | String c r => String (lower_char c) (toLowerCase r)
  end.

(** [s.replace(/c+$/, '')] for a class [p] of characters: the longest
    suffix of characters in [p] is removed. *)
Fixpoint dropEndWhile (p : ascii -> bool) (s : string) : string :=
  match s with
  | EmptyString => EmptyString
  | String c r =>
      match dropEndWhile p r with
      | EmptyString => if p c then EmptyString else String c EmptyString
      | r' => String c r'
      end
  end.

Fixpoint drop_chars (n : nat) (s : string) : string :=
  match n, s with
  | O, _ => s
  | S n', String _ r => drop_chars n' r
  | S _, EmptyString => EmptyString
  end.

(** [s.replace(needle, '')] for a string needle: the first occurrence
    is removed. *)
Fixpoint remove_first (needle s : string) : string :=
  if String.prefix needle s then drop_chars (String.length needle) s
  else match s with
       | EmptyString => EmptyString
       | String c r => String c (remove_first needle r)
       end.

(** A string that is empty or starts with a character that is not
    white space. *)
Definition starts_clean (s : string) : Prop :=
  match s with
  | EmptyString => True
  | String c _ => is_white_space c = false
  end.

End Js.

Import Js.

(* ===================================================================== *)
(** * JavaScript numbers: IEEE 754 binary64 arithmetic                    *)
(* ===================================================================== *)

Module Double.

Local Open Scope Q_scope.

(** [floor (log2 q)] for a positive [q]. *)
Definition ilog2 (q : Q) : Z :=
  let k := (Z.log2 (Qnum q) - Z.log2 (Z.pos (Qden q)))%Z in
  if Qle_bool (2 ^ k) q then k else (k - 1)%Z.

(** The exponent of the unit in the last place of the doubles around a
    positive [q]: 53 significant bits, and [2 ^ -1074] in the subnormal
    range. *)
Definition ulp_exp (q : Q) : Z := Z.max (ilog2 q - 52) (-1074).

(** Round to the nearest integer, ties to even. *)
Definition rne (x : Q) : Z :=
  let f := Qfloor x in
  match Qcompare (x - inject_Z f) (1 # 2) with
  | Lt => f
  | Gt => (f + 1)%Z
  | Eq => if Z.even f then f else (f + 1)%Z
  end.

Definition round_pos (q : Q) : Q :=
  let e := ulp_exp q in
  inject_Z (rne (q / 2 ^ e)) * 2 ^ e.

(** The double nearest to [q], ties to even (the rounding of every
    JavaScript operator).  The exponent has no upper bound here: a value
    beyond the largest double, which the program holds as [Infinity],
    stays a rational above every double. *)
Definition round (q : Q) : Q :=
  Qred
    match Qnum q with
    | Z0 => 0
    | Z.pos _ => round_pos q
    | Z.neg _ => - round_pos (- q)
    end.

(** [x + y], [x - y], [x * y] and [x / y] on doubles. *)
Definition add (x y : Q) : Q := round (x + y).
Definition sub (x y : Q) : Q := round (x - y).
Definition mul (x y : Q) : Q := round (x * y).
Definition div (x y : Q) : Q := round (x / y).

(** [x] is a double. *)
Definition is_double (x : Q) : Prop := round x == x.

End Double.

(* ===================================================================== *)
(** * src/utils/jid.js                                                    *)
(* ===================================================================== *)

Module Jid.

(** [value.replace(/[^0-9]/g, '')] *)
Definition normalizeDigits (value : string) : string :=
  filter_chars is_digit value.

Definition ensureCountryCode (value : string) : Outcome string :=
  if startsWith "62" value then Return value
  else if startsWith "0" value then Return ("62" +:+ slice1 value)
  else if startsWith "8" value then Return ("62" +:+ value)
  else Throw (Error "Unsupported phone number format").

(** [value.replace(/^\+/, '')] *)
Definition stripLeadingPlus (value : string) : string :=
  match value with
  | String "+"%char r => r
  | _ => value
  end.

Definition normalizeJid (input : string) : Outcome string :=
  if String.eqb input "" then Throw (Error "Empty JID")
  else
    let value := trim input in
    if endsWith "@g.us" value then Return value
    else if endsWith "@c.us" value then Return value
    else if includes "@" value then Return value
    else
      let digits := normalizeDigits (stripLeadingPlus value) in
      match ensureCountryCode digits with
      | Return normalized => Return (normalized +:+ "@c.us")
      | Throw e => Throw e
      end.

(** [jid?.endsWith('@g.us')] *)
Definition isGroupJid (jid : option string) : option bool :=
  match jid with
  | Some j => Some (endsWith "@g.us" j)
  | None => None
  end.

(** The specification's reading of the bare-number case: drop a leading
    [+] and every non-digit of the input as given. *)
Definition spec_digits (input : string) : string :=
  filter_chars is_digit (stripLeadingPlus input).

End Jid.

(* ===================================================================== *)
(** * src/utils/errorMapping.js                                           *)
(* ===================================================================== *)

Module ErrorMapping.

(** From [src/services/aiProxy.js]. *)
Definition AI_TIMEOUT_CODE : string := "AI_TIMEOUT".
Definition AI_DOWNSTREAM_CODE : string := "AI_DOWNSTREAM_ERROR".

Record Mapped := mkMapped {
  status : Z;
  code : string;
  message : string
}.

(** [a || b] on strings. *)
Definition or_else (a b : string) : string :=
  if String.eqb a "" then b else a.

(** [error.code === c]; an absent code equals no string. *)
Definition code_is (e : JsError) (c : string) : bool :=
  match err_code e with
  | Some c' => String.eqb c' c
  | None => false
  end.

(** [mapError(error)]; [None] is a falsy thrown value. *)
Definition mapError (error : option JsError) : Mapped :=
  match error with
  | None => mkMapped 500 "BAD_GATEWAY" "Unexpected server error"
  | Some e =>
      let msg := err_message e in
      if err_rate_limit e then
        mkMapped 429 "RATE_LIMITED" "Rate limit exceeded"
      else if code_is e "INVALID_PAYLOAD" then
        mkMapped 400 "INVALID_PAYLOAD" msg
      else if code_is e "SESSION_NOT_FOUND" then
        mkMapped 404 "SESSION_NOT_FOUND" (or_else msg "Session not found")
      else if code_is e "SESSION_NOT_READY" then
        mkMapped 409 "SESSION_NOT_READY" "Session is not ready"
      else if code_is e "MEDIA_TOO_LARGE" then
        mkMapped 413 "MEDIA_TOO_LARGE" msg
      else if code_is e AI_TIMEOUT_CODE then
        mkMapped 504 AI_TIMEOUT_CODE "AI backend timed out"
      else if code_is e AI_DOWNSTREAM_CODE then
        mkMapped 502 AI_DOWNSTREAM_CODE "AI downstream error"
      else if code_is e "BAD_GATEWAY" then
        mkMapped 502 "BAD_GATEWAY" msg
      else
        mkMapped 500 "BAD_GATEWAY" (or_else msg "Internal server error")
  end.

(** The codes that have a [case] of their own in [mapError]. *)
Definition recognised_codes : list string :=
  [ "INVALID_PAYLOAD"; "SESSION_NOT_FOUND"; "SESSION_NOT_READY";
    "MEDIA_TOO_LARGE"; "AI_TIMEOUT"; "AI_DOWNSTREAM_ERROR"; "BAD_GATEWAY" ].

(** The status [mapError] gives to each code it recognises. *)
Definition status_of_code : list (string * Z) :=
  [ ("INVALID_PAYLOAD", 400); ("SESSION_NOT_FOUND", 404);
    ("SESSION_NOT_READY", 409); ("MEDIA_TOO_LARGE", 413);
    ("AI_TIMEOUT", 504); ("AI_DOWNSTREAM_ERROR", 502); ("BAD_GATEWAY", 502) ].

End ErrorMapping.

(* ===================================================================== *)
(** * src/services/aiProxy.js: reply extraction                           *)
(* ===================================================================== *)

Module AiProxy.

(** A parsed response body.  An object is the list of its own
    properties, each key once. *)
#[warnings="-register-all"] Inductive jsval : Type :=
| JUndefined
| JNull
| JBool (b : bool)
| JNum (q : Q)
| JStr (s : string)
| JArr (items : list jsval)
| JObj (fields : list (string * jsval)).

Definition is_truthy (v : jsval) : bool :=
  match v with
  | JUndefined | JNull => false
  | JBool b => b
  | JNum q => negb (Qeq_bool q 0)
  | JStr s => negb (String.eqb s "")
  | JArr _ | JObj _ => true
  end.

Fixpoint own_property (k : string) (fields : list (string * jsval)) : jsval :=
  match fields with
  | [] => JUndefined
  | (k', v) :: rest => if String.eqb k' k then v else own_property k rest
  end.

(** [v.k] for the keys read by [extractReply] (none of them is a
    built-in property of strings, numbers or arrays).  Reading a
    property of [null] or [undefined] throws. *)
Definition member (k : string) (v : jsval) : Outcome jsval :=
  match v with
  | JUndefined | JNull =>
      Throw (Error ("Cannot read properties of null or undefined: " +:+ k))
  | JObj fields => Return (own_property k fields)
  | _ => Return JUndefined
  end.

(** [v?.k] *)
Definition optional_member (k : string) (v : jsval) : Outcome jsval :=
  match v with
  | JUndefined | JNull => Return JUndefined
  | _ => member k v
  end.

(** The [for (const candidate of candidates)] loop. *)
Fixpoint first_reply (candidates : list jsval) : option string :=
  match candidates with
  | [] => None
  | candidate :: rest =>
      match candidate with
      | JStr s =>
          if negb (String.eqb (trim s) "") then Some (trim s)
          else first_reply rest
      | _ => first_reply rest
      end
  end.

Definition extractReply (data : jsval) : Outcome (option string) :=
  if negb (is_truthy data) then Return None
  else
    c1 ← member "reply" data;
    c2 ← member "response" data;
    r3 ← member "result" data;
    c3 ← optional_member "reply" r3;
    r4 ← member "result" data;
    c4 ← optional_member "response" r4;
    c5 ← member "output" data;
    Return (first_reply [c1; c2; c3; c4; c5]).

(** ** The specification's wording *)

(** The probed paths, in order. *)
Definition spec_paths : list (list string) :=
  [ ["reply"]; ["response"]; ["result"; "reply"];
    ["result"; "response"]; ["output"] ].

(** The value found at a path, [JUndefined] when the path leaves the
    object structure. *)
Fixpoint spec_probe (path : list string) (v : jsval) : jsval :=
  match path with
  | [] => v
  | k :: rest =>
      match v with
      | JObj fields => spec_probe rest (own_property k fields)
      | _ => JUndefined
      end
  end.

(** A candidate qualifies when it is a string that is non-empty after
    trimming. *)
Definition spec_qualifies (v : jsval) : bool :=
  match v with
  | JStr s => negb (String.eqb (trim s) "")
  | _ => false
  end.

Definition spec_reply (data : jsval) : option string :=
  match List.find spec_qualifies (map (fun p => spec_probe p data) spec_paths) with
  | Some (JStr s) => Some (trim s)
  | _ => None
  end.

End AiProxy.

(* ===================================================================== *)
(** * src/services/rateLimiter.js                                         *)
(* ===================================================================== *)

Module RateLimiter.

(** [class RateLimitError extends Error] *)
Definition RateLimitError (msg : string) : JsError := mkError true None msg.

(** Constructor options; [tokensPerMinute] and [burst] are doubles. *)
Record Config := mkConfig {
  tokensPerMinute : Q;
  burst : Q;
  queueLimit : Z
}.

(** The defaults of the constructor, which are also the values the
    application passes. *)
Definition default_config : Config := mkConfig (100 # 1) (100 # 1) 500.

Section WithTask.

(** The queued closures and what they resolve to. *)
Context {Task Value : Type}.

Inductive Settled : Type :=
| Pending
| Resolved (v : Value)
| Rejected (e : JsError).

(** [{ task, resolve, reject }]: [resolve] and [reject] are those of
    the promise returned by [enqueue], named by its identifier. *)
Record Job := mkJob {
  task : Task;
  promise : nat
}.

(** The per-agent record.  [running] is the job whose [task()] the
    [work] closure is awaiting and [immediate] tells that
    [setImmediate(work)] is scheduled; both belong to the closure, not
    to the JavaScript object.  [tokens] is a double and [lastRefill] a
    reading of [Date.now()]. *)
Record AgentState := mkAgentState {
  tokens : Q;
  lastRefill : Z;
  queue : list Job;
  processing : bool;
  running : option Job;
  immediate : bool
}.

Record State := mkState {
  config : Config;
  agents : gmap string AgentState;
  promises : gmap nat Settled;
  next_promise : nat
}.

(** [new RateLimiter(options)] *)
Definition create (c : Config) : State := mkState c ∅ ∅ 0%nat.

Definition fresh_agent (c : Config) (now : Z) : AgentState :=
  mkAgentState (burst c) now [] false None false.

(** [getAgentState(agentId)]: the state with the agent present, and
    the agent's record. *)
Definition getAgentState (now : Z) (agentId : string) (s : State)
  : State * AgentState :=
  match agents s !! agentId with
  | Some st => (s, st)
  | None =>
      let st := fresh_agent (config s) now in
      (mkState (config s) (<[agentId := st]> (agents s))
               (promises s) (next_promise s), st)
  end.

Definition set_processing (b : bool) (st : AgentState) : AgentState :=
  mkAgentState (tokens st) (lastRefill st) (queue st) b
               (running st) (immediate st).

(** One activation of the [work] closure, up to its [await]. *)
Definition work (st : AgentState) : AgentState :=
  match queue st with
  | [] => set_processing false st
  | job :: rest =>
      if negb (Qle_bool 1 (tokens st)) then set_processing false st
      else mkAgentState (Double.sub (tokens st) 1) (lastRefill st) rest
                        (processing st) (Some job) (immediate st)
  end.

(** [processQueue(agentId)] on the agent's record. *)
Definition processQueue (st : AgentState) : AgentState :=
  if processing st then st
  else work (set_processing true st).

(** [elapsed * this.tokensPerMinute] with
    [elapsed = (now - state.lastRefill) / 60000]. *)
Definition refill_amount (c : Config) (now : Z) (st : AgentState) : Q :=
  let elapsed :=
    Double.div (Double.sub (inject_Z now) (inject_Z (lastRefill st)))
               (60000 # 1) in
  Double.mul elapsed (tokensPerMinute c).

(** [state.tokens = Math.min(this.burst, state.tokens + refill);
    state.lastRefill = now] *)
Definition add_tokens (c : Config) (now : Z) (st : AgentState) : AgentState :=
  mkAgentState (Qmin (burst c) (Double.add (tokens st) (refill_amount c now st)))
               now
               (queue st) (processing st) (running st) (immediate st).

(** The body of the [forEach] callback of [refillTokens]. *)
Definition refill_agent (c : Config) (now : Z) (st : AgentState)
  : AgentState :=
  if Qle_bool 1 (refill_amount c now st) then
    let st' := add_tokens c now st in
    match queue st' with
    | [] => st'
    | _ :: _ => processQueue st'
    end
  else st.

(** [refillTokens()] at time [now]. *)
Definition refillTokens (now : Z) (s : State) : State :=
  mkState (config s) (refill_agent (config s) now <$> agents s)
          (promises s) (next_promise s).

(** [enqueue(agentId, task)]: throws [RateLimitError] or returns the
    identifier of a new pending promise. *)
Definition enqueue (now : Z) (agentId : string) (t : Task) (s : State)
  : State * Outcome nat :=
  let '(s1, st) := getAgentState now agentId s in
  if (Z.of_nat (length (queue st)) >=? queueLimit (config s1))%Z then
    (s1, Throw (RateLimitError "Queue capacity reached"))
  else
    let p := next_promise s1 in
    let pushed := mkAgentState (tokens st) (lastRefill st)
                               (queue st ++ [mkJob t p])
                               (processing st) (running st)
                               (immediate st) in
    (mkState (config s1)
             (<[agentId := processQueue pushed]> (agents s1))
             (<[p := Pending]> (promises s1))
             (S p),
     Return p).

(** [resolve]/[reject] of a promise: a settled promise stays as it is. *)
Definition settle (p : nat) (r : Settled) (ps : gmap nat Settled)
  : gmap nat Settled :=
  match ps !! p with
  | Some Pending => <[p := r]> ps
  | _ => ps
  end.

(** The awaited [job.task()] of the agent finishes with [r]
    ([Resolved] or [Rejected]): the job's promise is settled and
    [setImmediate(work)] is scheduled. *)
Definition task_settled (agentId : string) (r : Settled) (s : State)
  : State :=
  match agents s !! agentId with
  | Some st =>
      match running st, r with
      | Some job, (Resolved _ | Rejected _) =>
          mkState (config s)
                  (<[agentId := mkAgentState (tokens st) (lastRefill st)
                                  (queue st) (processing st) None true]>
                     (agents s))
                  (settle (promise job) r (promises s))
                  (next_promise s)
      | _, _ => s
      end
  | None => s
  end.

(** The callback scheduled by [setImmediate(work)] runs. *)
Definition run_immediate (agentId : string) (s : State) : State :=
  match agents s !! agentId with
  | Some st =>
      if immediate st then
        mkState (config s)
                (<[agentId := work (mkAgentState (tokens st) (lastRefill st)
                                      (queue st) (processing st)
                                      (running st) false)]>
                   (agents s))
                (promises s) (next_promise s)
      else s
  | None => s
  end.

(** Everything that can happen to a limiter. *)
Inductive Op : Type :=
| OpEnqueue (now : Z) (agentId : string) (t : Task)
| OpRefill (now : Z)
| OpTaskSettled (agentId : string) (r : Settled)
| OpImmediate (agentId : string).

Definition step (s : State) (o : Op) : State :=
  match o with
  | OpEnqueue now a t => fst (enqueue now a t s)
  | OpRefill now => refillTokens now s
  | OpTaskSettled a r => task_settled a r s
  | OpImmediate a => run_immediate a s
  end.

Definition run (s : State) (ops : list Op) : State :=
  fold_left step ops s.

(** The invariant of the token bucket. *)
Definition tokens_in_range (c : Config) (st : AgentState) : Prop :=
  (0 <= tokens st)%Q /\ (tokens st <= burst c)%Q.

(** The bucket invariant on every agent of a limiter. *)
Definition bucket_invariant (s : State) : Prop :=
  forall agentId st,
    agents s !! agentId = Some st -> tokens_in_range (config s) st.

(** At most one activation of [work] per agent: an idle agent awaits no
    task and has no callback scheduled, and a scheduled callback means
    that no task is awaited. *)
Definition single_worker (st : AgentState) : Prop :=
  (processing st = false -> running st = None /\ immediate st = false)
  /\ (immediate st = true -> running st = None).

(** An agent whose worker awaits a task, with [n] jobs behind it. *)
Definition busy_with (n : nat) (agentId : string) (s : State) : Prop :=
  exists st,
    agents s !! agentId = Some st
    /\ processing st = true
    /\ is_Some (running st)
    /\ length (queue st) = n.

(** [single_worker] on every agent of a limiter. *)
Definition workers_invariant (s : State) : Prop :=
  forall agentId st, agents s !! agentId = Some st -> single_worker st.

(** [enqueue] called for each of [jobs] in turn, all for one agent. *)
Definition enqueue_all (agentId : string) (jobs : list (Z * Task))
    (s : State) : State :=
  fold_left (fun s' j => fst (enqueue (fst j) agentId (snd j) s')) jobs s.

(** Jobs accepted and not yet finished, oldest first. *)
Definition pending_jobs (st : AgentState) : list Job :=
  match running st with
  | Some job => job :: queue st
  | None => queue st
  end.

(** No agent's queue is longer than [queueLimit]. *)
Definition queue_bounded (s : State) : Prop :=
  forall agentId st,
    agents s !! agentId = Some st ->
    (Z.of_nat (length (queue st)) <= queueLimit (config s))%Z.

(** Promise identifiers are handed out in increasing order: every known
    promise is below [next_promise]. *)
Definition promises_allocated (s : State) : Prop :=
  forall p r, promises s !! p = Some r -> (p < next_promise s)%nat.

End WithTask.

Arguments Settled : clear implicits.
Arguments Job : clear implicits.
Arguments AgentState : clear implicits.
Arguments State : clear implicits.
Arguments Op : clear implicits.

End RateLimiter.

(* ===================================================================== *)
(** * src/services/whatsappClientManager.js: media preparation            *)
(* ===================================================================== *)

Module Media.

Definition MAX_MEDIA_BYTES : Z := 10 * 1024 * 1024.

(** The value of [Number(header)]. *)
Inductive JsNumber : Type :=
| NaN
| Num (q : Q).

(** What [axios.get(url, { responseType: 'arraybuffer' })] answers:
    [response.data] and [response.headers['content-type']]. *)
Record GetResponse := mkGetResponse {
  body : list Byte.byte;
  content_type : option string
}.

(** The libraries and the operating system [prepareMedia] talks to. *)
Record World := mkWorld {
  (** [Number((await axios.head(url)).headers['content-length'])] *)
  axios_head : string -> Outcome JsNumber;
  axios_get : string -> Outcome GetResponse;
  (** [new URL(url).pathname] *)
  url_pathname : string -> Outcome string;
  path_basename : string -> string;
  path_join : string -> string -> string;
  (** [Buffer.from(s, 'base64')] and [buffer.toString('base64')] *)
  base64_decode : string -> list Byte.byte;
  base64_encode : list Byte.byte -> string;
  (** [fs.mkdir(dir, { recursive: true })] and [fs.writeFile] *)
  fs_mkdir : string -> Outcome unit;
  fs_writeFile : string -> list Byte.byte -> Outcome unit;
  (** [Date.now()] printed in decimal *)
  date_now : string;
  (** [env.tempDir] *)
  tempDir : string
}.

(** The destructured argument; [None] is a property that is absent. *)
Record Args := mkArgs {
  data : option string;
  url : option string;
  filename : option string;
  mimeType : option string;
  save_to_temp : option bool
}.

(** [new MessageMedia(mimetype, data, filename)] *)
Record MessageMedia := mkMessageMedia {
  mimetype : string;
  media_data : string;
  media_filename : string
}.

Record Prepared := mkPrepared {
  media : MessageMedia;
  previewPath : option string
}.

(** [s.split(',').pop()] *)
Fixpoint last_segment (s : string) : string :=
  match s with
  | EmptyString => EmptyString
  | String c r =>
      if includes "," r then last_segment r
      else if Ascii.eqb c "," then r
      else s
  end.

(** [!size || Number.isNaN(size) || size > MAX_MEDIA_BYTES] *)
Definition size_rejected (size : JsNumber) : bool :=
  match size with
  | NaN => true
  | Num q => Qeq_bool q 0 || negb (Qle_bool q (inject_Z MAX_MEDIA_BYTES))
  end.

(** The three branches that produce [buffer], and with it the final
    [mimeType] and [filename]. *)
Definition load_media (w : World) (a : Args) (filename0 mimeType0 : string)
  : Outcome (list Byte.byte * string * string) :=
  if truthy (data a) then
    let d := default "" (data a) in
    let base64 := if includes "," d then last_segment d else d in
    let buffer := base64_decode w base64 in
    if (Z.of_nat (length buffer) >? MAX_MEDIA_BYTES)%Z then
      Throw (CodedError "Media exceeds 10MB" "MEDIA_TOO_LARGE")
    else Return (buffer, mimeType0, filename0)
  else if truthy (url a) then
    let u := default "" (url a) in
    match axios_head w u with
    | Throw _ =>
        Throw (CodedError "Failed to inspect remote media" "BAD_GATEWAY")
    | Return size =>
        if size_rejected size then
          Throw (CodedError "Remote media exceeds 10MB or size unknown"
                            "MEDIA_TOO_LARGE")
        else
          response ← axios_get w u;
          let buffer := body response in
          let mimeType1 :=
            if truthy (content_type response)
            then default "" (content_type response) else mimeType0 in
          let filename1 :=
            if String.eqb filename0 "" then
              match url_pathname w u with
              | Return pathname => path_basename w pathname
              | Throw _ => "image.jpg"
              end
            else filename0 in
          Return (buffer, mimeType1, filename1)
    end
  else Throw (CodedError "Either data or url is required" "INVALID_PAYLOAD").

(** [prepareMedia({ data, url, filename = 'image.jpg',
    mimeType = 'image/jpeg', save_to_temp = true })] *)
Definition prepareMedia (w : World) (a : Args) : Outcome Prepared :=
  let filename0 := default "image.jpg" (filename a) in
  let mimeType0 := default "image/jpeg" (mimeType a) in
  let save := default true (save_to_temp a) in
  loaded ← load_media w a filename0 mimeType0;
  let '(buffer, mimeType1, filename1) := loaded in
  let messageMedia :=
    mkMessageMedia mimeType1 (base64_encode w buffer) filename1 in
  if save then
    _ ← fs_mkdir w (tempDir w);
    let path := path_join w (tempDir w) (date_now w +:+ "-" +:+ filename1) in
    _ ← fs_writeFile w path buffer;
    Return (mkPrepared messageMedia (Some path))
  else Return (mkPrepared messageMedia None).

(** A small world for running examples: one remote file of four bytes
    at [https://example.com/pic.png], every request and write succeeds,
    paths are split at the last slash. *)
Fixpoint after_last_slash (s : string) : string :=
  match s with
  | EmptyString => EmptyString
  | String c r =>
      if includes "/" r then after_last_slash r
      else if Ascii.eqb c "/" then r
      else s
  end.

Definition example_bytes : list Byte.byte :=
  [Byte.x66; Byte.x61; Byte.x6b; Byte.x65].

Definition example_world : World :=
  mkWorld (fun _ => Return (Num (4 # 1)))
          (fun _ => Return (mkGetResponse example_bytes (Some "image/png")))
          (fun u => if String.eqb u "https://example.com/pic.png"
                    then Return "/pic.png" else Throw (Error "Invalid URL"))
          after_last_slash
          (fun d f => d +:+ "/" +:+ f)
          (fun _ => example_bytes)
          (fun _ => "ZmFrZQ==")
          (fun _ => Return tt)
          (fun _ _ => Return tt)
          "1700000000000"
          "/tmp/wwebjs".

(** The calls used in the examples below. *)
Definition args_both : Args :=
  mkArgs (Some "data:image/png;base64,ZmFrZQ==")
         (Some "https://example.com/pic.png") None None None.

Definition args_url_only : Args :=
  mkArgs None (Some "https://example.com/pic.png") None None None.

Definition args_url_empty_filename : Args :=
  mkArgs None (Some "https://example.com/pic.png") (Some "") None None.

(** The same call with [url] left out. *)
Definition without_url (a : Args) : Args :=
  mkArgs (data a) None (filename a) (mimeType a) (save_to_temp a).

(** The same world with another answer to [axios.get]. *)
Definition with_axios_get (g : string -> Outcome GetResponse) (w : World)
  : World :=
  mkWorld (axios_head w) g (url_pathname w) (path_basename w) (path_join w)
          (base64_decode w) (base64_encode w) (fs_mkdir w) (fs_writeFile w)
          (date_now w) (tempDir w).

(** The same world with another file system. *)
Definition with_fs (mk : string -> Outcome unit)
    (wr : string -> list Byte.byte -> Outcome unit) (w : World) : World :=
  mkWorld (axios_head w) (axios_get w) (url_pathname w) (path_basename w)
          (path_join w) (base64_decode w) (base64_encode w) mk wr
          (date_now w) (tempDir w).

(** [example_world] with a server that sends no [Content-Length]. *)
Definition example_world_no_length : World :=
  mkWorld (fun _ => Return NaN) (axios_get example_world)
          (url_pathname example_world) (path_basename example_world)
          (path_join example_world) (base64_decode example_world)
          (base64_encode example_world) (fs_mkdir example_world)
          (fs_writeFile example_world) (date_now example_world)
          (tempDir example_world).

End Media.

(* ===================================================================== *)
(** * src/utils/aiEndpoint.js                                             *)
(* ===================================================================== *)

Module AiEndpoint.

Definition is_slash (c : ascii) : bool := Ascii.eqb c "/".

(** [normalizeBase()], as a function of [env.aiBackendUrl]. *)
Definition normalizeBase (aiBackendUrl : string) : string :=
  let trimmed := dropEndWhile is_slash aiBackendUrl in
  if endsWith "/agents" trimmed then trimmed
  else trimmed +:+ "/agents".

(** [buildAgentEndpoint(agentId, action = 'execute')] *)
Definition buildAgentEndpoint (aiBackendUrl agentId : string)
    (action : option string) : string :=
  let base := normalizeBase aiBackendUrl in
  base +:+ "/" +:+ agentId +:+ "/" +:+ default "execute" action.

End AiEndpoint.

(* ===================================================================== *)
(** * src/services/whatsappClientManager.js: the session supervisor       *)
(* ===================================================================== *)

Module Manager.

Inductive Status : Type :=
| awaiting_qr
| connected
| disconnected
| auth_failed.

(** A row of [whatsapp_user]. *)
Record AgentRecord := mkAgent {
  user_id : Z;
  agent_id : string;
  agent_name : string;
  api_key : string;
  endpoint_url_run : option string;
  status : Status;
  last_connected_at : option Z;
  last_disconnected_at : option Z;
  created_at : Z;
  updated_at : Z
}.

Record QrPayload := mkQr {
  contentType : string;
  base64 : string
}.

(** The [session] object built by [ensureClient].  [client] is the handle
    of its [Client]; [handler_agent] is the [agentRecord] captured by the
    event handlers registered on that client. *)
Record Session := mkSession {
  agent : AgentRecord;
  client : nat;
  qr : option QrPayload;
  qrUpdatedAt : option Z;
  isReady : bool;
  live_status : Status;
  lastAgentRefresh : Z;
  shuttingDown : bool;
  metricsCounted : bool;
  handler_agent : AgentRecord
}.

(** The closure of a scheduled restart. *)
Record RestartTimer := mkTimer {
  rt_record : AgentRecord;
  rt_reason : string;
  rt_clearAuth : bool;
  rt_attempt : Z;
  rt_delay : Z
}.

(** State of the promise handed out by [waitForQr]. *)
Inductive QrSettled : Type :=
| QrPending
| QrResolved (v : option QrPayload)
| QrRejected (e : JsError).

(** What the supervisor does to the outside world. *)
Inductive Effect : Type :=
| ClientCreated (ref : nat) (agentId : string)
| ClientDestroyed (ref : nat)
| AuthDirRemoved (agentId : string)
| MessageReceived (agentId : string).

(** The manager and what it closes over.  Session objects live in [heap]
    and are shared by [sessions] and by the handlers of their client;
    [qrTimers] holds the armed time-outs of [waitForQr], by promise. *)
Record State := mkState {
  db : gmap string AgentRecord;
  heap : gmap nat Session;
  sessions : gmap string nat;
  readyPromises : gmap string nat;
  reconnectTimers : gmap string RestartTimer;
  promises : gmap nat QrSettled;
  qrTimers : gmap nat string;
  sessionsActive : Z;
  next_ref : nat;
  effects : list Effect
}.

Definition initial (rows : gmap string AgentRecord) : State :=
  mkState rows ∅ ∅ ∅ ∅ ∅ ∅ 0 0%nat [].

(** Failures injected into one operation: the error thrown by every
    database query and by [fs.mkdir], if any. *)
Record Io := mkIo {
  db_error : option JsError;
  fs_error : option JsError
}.

Definition io_ok : Io := mkIo None None.

(** ** Field updates *)

Definition set_db v (s : State) : State :=
  mkState v (heap s) (sessions s) (readyPromises s) (reconnectTimers s)
          (promises s) (qrTimers s) (sessionsActive s) (next_ref s) (effects s).
Definition set_heap v (s : State) : State :=
  mkState (db s) v (sessions s) (readyPromises s) (reconnectTimers s)
          (promises s) (qrTimers s) (sessionsActive s) (next_ref s) (effects s).
Definition set_sessions v (s : State) : State :=
  mkState (db s) (heap s) v (readyPromises s) (reconnectTimers s)
          (promises s) (qrTimers s) (sessionsActive s) (next_ref s) (effects s).
Definition set_readyPromises v (s : State) : State :=
  mkState (db s) (heap s) (sessions s) v (reconnectTimers s)
          (promises s) (qrTimers s) (sessionsActive s) (next_ref s) (effects s).
Definition set_reconnectTimers v (s : State) : State :=
  mkState (db s) (heap s) (sessions s) (readyPromises s) v
          (promises s) (qrTimers s) (sessionsActive s) (next_ref s) (effects s).
Definition set_promises v (s : State) : State :=
  mkState (db s) (heap s) (sessions s) (readyPromises s) (reconnectTimers s)
          v (qrTimers s) (sessionsActive s) (next_ref s) (effects s).
Definition set_qrTimers v (s : State) : State :=
  mkState (db s) (heap s) (sessions s) (readyPromises s) (reconnectTimers s)
          (promises s) v (sessionsActive s) (next_ref s) (effects s).
Definition set_sessionsActive v (s : State) : State :=
  mkState (db s) (heap s) (sessions s) (readyPromises s) (reconnectTimers s)
          (promises s) (qrTimers s) v (next_ref s) (effects s).
Definition set_next_ref v (s : State) : State :=
  mkState (db s) (heap s) (sessions s) (readyPromises s) (reconnectTimers s)
          (promises s) (qrTimers s) (sessionsActive s) v (effects s).
Definition emit (e : Effect) (s : State) : State :=
  mkState (db s) (heap s) (sessions s) (readyPromises s) (reconnectTimers s)
          (promises s) (qrTimers s) (sessionsActive s) (next_ref s)
          (effects s ++ [e]).

Definition set_agent v (x : Session) : Session :=
  mkSession v (client x) (qr x) (qrUpdatedAt x) (isReady x) (live_status x)
            (lastAgentRefresh x) (shuttingDown x) (metricsCounted x)
            (handler_agent x).
Definition set_qr v (x : Session) : Session :=
  mkSession (agent x) (client x) v (qrUpdatedAt x) (isReady x) (live_status x)
            (lastAgentRefresh x) (shuttingDown x) (metricsCounted x)
            (handler_agent x).
Definition set_qrUpdatedAt v (x : Session) : Session :=
  mkSession (agent x) (client x) (qr x) v (isReady x) (live_status x)
            (lastAgentRefresh x) (shuttingDown x) (metricsCounted x)
            (handler_agent x).
Definition set_isReady v (x : Session) : Session :=
  mkSession (agent x) (client x) (qr x) (qrUpdatedAt x) v (live_status x)
            (lastAgentRefresh x) (shuttingDown x) (metricsCounted x)
            (handler_agent x).
Definition set_live_status v (x : Session) : Session :=
  mkSession (agent x) (client x) (qr x) (qrUpdatedAt x) (isReady x) v
            (lastAgentRefresh x) (shuttingDown x) (metricsCounted x)
            (handler_agent x).
Definition set_lastAgentRefresh v (x : Session) : Session :=
  mkSession (agent x) (client x) (qr x) (qrUpdatedAt x) (isReady x)
            (live_status x) v (shuttingDown x) (metricsCounted x)
            (handler_agent x).
Definition set_shuttingDown v (x : Session) : Session :=
  mkSession (agent x) (client x) (qr x) (qrUpdatedAt x) (isReady x)
            (live_status x) (lastAgentRefresh x) v (metricsCounted x)
            (handler_agent x).
Definition set_metricsCounted v (x : Session) : Session :=
  mkSession (agent x) (client x) (qr x) (qrUpdatedAt x) (isReady x)
            (live_status x) (lastAgentRefresh x) (shuttingDown x) v
            (handler_agent x).

(** The session object stored under [agentId], if any. *)
Definition session_of (agentId : string) (s : State) : option (nat * Session) :=
  ref ← sessions s !! agentId;
  x ← heap s !! ref;
  Some (ref, x).

(** ** Persistence *)

(** [getAgent(agentId)]: [result.rows[0]]. *)
Definition getAgent (io : Io) (agentId : string) (s : State)
  : Outcome (option AgentRecord) :=
  match db_error io with
  | Some e => Throw e
  | None => Return (db s !! agentId)
  end.

(** The optional third argument of [updateStatus]. *)
Inductive Extra : Type :=
| no_extra
| extra_last_connected_at
| extra_last_disconnected_at.

(** [updateStatus(agentRecord, status, extra)]: one [update ... where
    user_id = $2 and agent_id = $3]. *)
Definition updateStatus (now : Z) (io : Io) (agentRecord : AgentRecord)
    (st : Status) (extra : Extra) (s : State) : Outcome State :=
  match db_error io with
  | Some e => Throw e
  | None =>
      match db s !! agent_id agentRecord with
      | Some row =>
          if (user_id row =? user_id agentRecord)%Z then
            let row' :=
              mkAgent (user_id row) (agent_id row) (agent_name row)
                (api_key row) (endpoint_url_run row) st
                (match extra with
                 | extra_last_connected_at => Some now
                 | _ => last_connected_at row
                 end)
                (match extra with
                 | extra_last_disconnected_at => Some now
                 | _ => last_disconnected_at row
                 end)
                (created_at row) now in
            Return (set_db (<[agent_id agentRecord := row']> (db s)) s)
          else Return s
      | None => Return s
      end
  end.

(** ** Client construction *)

(** [ensureClient(agentRecord)]: the session object and its reference.
    An existing session is refreshed in place; otherwise a client and a
    session are created, with [status] mirroring the record. *)
Definition ensureClient (now : Z) (io : Io) (agentRecord : AgentRecord)
    (s : State) : State * Outcome (nat * Session) :=
  match session_of (agent_id agentRecord) s with
  | Some (ref, existing) =>
      let existing' :=
        set_lastAgentRefresh now (set_agent agentRecord existing) in
      (set_heap (<[ref := existing']> (heap s)) s, Return (ref, existing'))
  | None =>
      match fs_error io with
      | Some e => (s, Throw e)
      | None =>
          let ref := next_ref s in
          let session :=
            mkSession agentRecord ref None None false (status agentRecord)
                      now false false agentRecord in
          (emit (ClientCreated ref (agent_id agentRecord))
             (set_next_ref (S ref)
                (set_sessions (<[agent_id agentRecord := ref]> (sessions s))
                   (set_heap (<[ref := session]> (heap s)) s))),
           Return (ref, session))
      end
  end.

(** ** QR rendezvous *)

(** [resolve]/[reject] of a promise: only a pending promise changes. *)
Definition settle (p : nat) (r : QrSettled) (ps : gmap nat QrSettled)
  : gmap nat QrSettled :=
  match ps !! p with
  | Some QrPending => <[p := r]> ps
  | _ => ps
  end.

(** [entry.resolve(value)]: clear the time-out, resolve the promise. *)
Definition entry_resolve (p : nat) (value : option QrPayload) (s : State)
  : State :=
  set_promises (settle p (QrResolved value) (promises s))
    (set_qrTimers (delete p (qrTimers s)) s).

(** [entry.reject(error)]: clear the time-out, reject the promise. *)
Definition entry_reject (p : nat) (error : JsError) (s : State) : State :=
  set_promises (settle p (QrRejected error) (promises s))
    (set_qrTimers (delete p (qrTimers s)) s).

Inductive WaitResult : Type :=
| WaitThrow (e : JsError)
| WaitValue (q : QrPayload)
| WaitPromise (p : nat).

(** [waitForQr(agentId, timeoutMs)] *)
Definition waitForQr (agentId : string) (s : State) : State * WaitResult :=
  match session_of agentId s with
  | None => (s, WaitThrow (CodedError "Session not found" "SESSION_NOT_FOUND"))
  | Some (_, session) =>
      match qr session with
      | Some q => (s, WaitValue q)
      | None =>
          match readyPromises s !! agentId with
          | Some p => (s, WaitPromise p)
          | None =>
              let p := next_ref s in
              (set_readyPromises (<[agentId := p]> (readyPromises s))
                 (set_qrTimers (<[p := agentId]> (qrTimers s))
                    (set_promises (<[p := QrPending]> (promises s))
                       (set_next_ref (S p) s))),
               WaitPromise p)
          end
      end
  end.

(** The time-out armed by [waitForQr] for promise [p] fires. *)
Definition qr_timeout (p : nat) (s : State) : State :=
  match qrTimers s !! p with
  | Some agentId =>
      entry_reject p
        (CodedError "QR generation timed out" "SESSION_NOT_READY")
        (set_readyPromises (delete agentId (readyPromises s))
           (set_qrTimers (delete p (qrTimers s)) s))
  | None => s
  end.

(** ** Reconnect scheduling *)

(** [scheduleSessionRestart(agentRecord, { reason, clearAuth, attempt,
    delayMs })].  Every caller passes a record, whose [agent_id] is the
    key. *)
Definition scheduleSessionRestart (agentRecord : AgentRecord)
    (reason : string) (clearAuth : bool) (attempt : Z) (delayMs : option Z)
    (s : State) : State :=
  let agentId := agent_id agentRecord in
  match reconnectTimers s !! agentId with
  | Some _ => s
  | None =>
      let delay :=
        match delayMs with
        | Some d => d
        | None => Z.min 30000 (attempt * 5000)
        end in
      set_reconnectTimers
        (<[agentId := mkTimer agentRecord reason clearAuth attempt delay]>
           (reconnectTimers s)) s
  end.

(** ** Teardown *)

(** [teardownClient(agentId, { preserveDb, clearAuth })].  Errors of
    [client.destroy()] and of [fs.rm] are swallowed; the [update] issued
    when [preserveDb] is false may throw. *)
Definition teardownClient (now : Z) (io : Io) (agentId : string)
    (preserveDb clearAuth : bool) (s : State) : State * Outcome unit :=
  let session := session_of agentId s in
  let s1 :=
    match reconnectTimers s !! agentId with
    | Some _ => set_reconnectTimers (delete agentId (reconnectTimers s)) s
    | None => s
    end in
  let s2 :=
    match session with
    | Some (ref, x) =>
        let s' := emit (ClientDestroyed (client x))
                    (set_heap (<[ref := set_shuttingDown true x]> (heap s1)) s1) in
        if metricsCounted x
        then set_sessionsActive (sessionsActive s' - 1) s'
        else s'
    | None => s1
    end in
  let s3 :=
    set_readyPromises (delete agentId (readyPromises s2))
      (set_sessions (delete agentId (sessions s2)) s2) in
  let after_db : State * Outcome unit :=
    if preserveDb then (s3, Return tt)
    else
      match db_error io with
      | Some e => (s3, Throw e)
      | None =>
          match db s3 !! agentId with
          | Some row =>
              let row' :=
                mkAgent (user_id row) (agent_id row) (agent_name row)
                  (api_key row) (endpoint_url_run row) disconnected
                  (last_connected_at row) (Some now) (created_at row) now in
              (set_db (<[agentId := row']> (db s3)) s3, Return tt)
          | None => (s3, Return tt)
          end
      end in
  match after_db with
  | (s4, Return _) =>
      if clearAuth then (emit (AuthDirRemoved agentId) s4, Return tt)
      else (s4, Return tt)
  | (s4, Throw e) => (s4, Throw e)
  end.

(** The callback of the timer set by [scheduleSessionRestart] runs.
    [freshRecord] is [(await this.getAgent(agentId)) || agentRecord]; the
    captured [agentRecord] is an object, so the test [!freshRecord] that
    guards the skip is never true. *)
Definition restart_timer_fired (now : Z) (io : Io) (agentId : string)
    (s : State) : State :=
  match reconnectTimers s !! agentId with
  | None => s
  | Some t =>
      let s1 := set_reconnectTimers (delete agentId (reconnectTimers s)) s in
      let retry (s' : State) : State :=
        scheduleSessionRestart (rt_record t) (rt_reason t) (rt_clearAuth t)
          (rt_attempt t + 1) (Some (Z.min (rt_delay t * 2) 60000)) s' in
      match getAgent io agentId s1 with
      | Throw _ => retry s1
      | Return row =>
          let freshRecord := default (rt_record t) row in
          match teardownClient now io agentId true (rt_clearAuth t) s1 with
          | (s2, Throw _) => retry s2
          | (s2, Return _) =>
              match ensureClient now io freshRecord s2 with
              | (s3, Throw _) => retry s3
              | (s3, Return _) => s3
              end
          end
      end
  end.

(** ** Client events *)

(** Handler of ['qr'] on the client of session [ref].  [encoded] is the
    base64 part of the data URL, or [None] when encoding failed. *)
Definition on_qr (now : Z) (io : Io) (ref : nat) (encoded : option string)
    (s : State) : State :=
  match heap s !! ref with
  | None => s
  | Some session =>
      let payload := mkQr "image/png" <$> encoded in
      let session1 :=
        match payload with
        | Some q => set_qr (Some q) session
        | None => session
        end in
      let session2 :=
        set_live_status awaiting_qr (set_qrUpdatedAt (Some now) session1) in
      let s1 := set_heap (<[ref := session2]> (heap s)) s in
      let agentRecord := handler_agent session in
      match updateStatus now io agentRecord awaiting_qr no_extra s1 with
      | Throw _ => s1
      | Return s2 =>
          match readyPromises s2 !! agent_id agentRecord with
          | Some pending =>
              entry_resolve pending payload
                (set_readyPromises
                   (delete (agent_id agentRecord) (readyPromises s2)) s2)
          | None => s2
          end
      end
  end.

(** Handler of ['ready']. *)
Definition on_ready (now : Z) (io : Io) (ref : nat) (s : State) : State :=
  match heap s !! ref with
  | None => s
  | Some session =>
      let session1 := set_live_status connected (set_isReady true session) in
      let counted := metricsCounted session1 in
      let session2 :=
        if counted then session1 else set_metricsCounted true session1 in
      let s0 := if counted then s
                else set_sessionsActive (sessionsActive s + 1) s in
      let s1 := set_heap (<[ref := session2]> (heap s0)) s0 in
      match updateStatus now io (handler_agent session) connected
                         extra_last_connected_at s1 with
      | Throw _ => s1
      | Return s2 => s2
      end
  end.

(** Handler of ['auth_failure']. *)
Definition on_auth_failure (now : Z) (io : Io) (ref : nat) (s : State)
  : State :=
  match heap s !! ref with
  | None => s
  | Some session =>
      if shuttingDown session then s
      else
        let session1 :=
          set_isReady false (set_live_status auth_failed session) in
        let s1 := set_heap (<[ref := session1]> (heap s)) s in
        let agentRecord := handler_agent session in
        match updateStatus now io agentRecord auth_failed
                           extra_last_disconnected_at s1 with
        | Throw _ => s1
        | Return s2 =>
            scheduleSessionRestart agentRecord "auth_failure" true 1 None s2
        end
  end.

(** Handler of ['disconnected']; [reason] is [None] when it is not a
    string. *)
Definition on_disconnected (now : Z) (io : Io) (ref : nat)
    (reason : option string) (s : State) : State :=
  match heap s !! ref with
  | None => s
  | Some session =>
      if shuttingDown session then s
      else
        let session1 :=
          set_isReady false (set_live_status disconnected session) in
        let counted := metricsCounted session1 in
        let session2 :=
          if counted then set_metricsCounted false session1 else session1 in
        let s0 := if counted
                  then set_sessionsActive (sessionsActive s - 1) s else s in
        let s1 := set_heap (<[ref := session2]> (heap s0)) s0 in
        let agentRecord := handler_agent session in
        match updateStatus now io agentRecord disconnected
                           extra_last_disconnected_at s1 with
        | Throw _ => s1
        | Return s2 =>
            let clearAuth :=
              match reason with
              | Some r => includes_string "logout" (toLowerCase r)
              | None => false
              end in
            let why := if truthy reason then default "" reason
                       else "disconnected" in
            scheduleSessionRestart agentRecord why clearAuth 1 None s2
        end
  end.

(** The events a client emits to the supervisor's state machine. *)
Inductive ClientEvent : Type :=
| EvQr (encoded : option string)
| EvReady
| EvAuthFailure
| EvDisconnected (reason : option string).

Definition handle_event (now : Z) (io : Io) (ref : nat) (ev : ClientEvent)
    (s : State) : State :=
  match ev with
  | EvQr encoded => on_qr now io ref encoded s
  | EvReady => on_ready now io ref s
  | EvAuthFailure => on_auth_failure now io ref s
  | EvDisconnected reason => on_disconnected now io ref reason s
  end.

Definition handle_events (now : Z) (io : Io) (ref : nat)
    (evs : list ClientEvent) (s : State) : State :=
  fold_left (fun s' ev => handle_event now io ref ev s') evs s.

(** The invariant of the data model: [is_ready = true] implies
    [status = connected]. *)
Definition ready_implies_connected (x : Session) : Prop :=
  isReady x = true -> live_status x = connected.

(** The invariant on every session object of a store. *)
Definition sessions_ok (h : gmap nat Session) : Prop :=
  forall ref x, h !! ref = Some x -> ready_implies_connected x.

(** ** Outbound text *)

Record TextPayload := mkTextPayload {
  to : string;
  message : string;
  quotedMessageId : option string
}.

(** The closure queued by [sendText]:
    [session.client.sendMessage(to, payload.message, options)]. *)
Record SendMessage := mkSendMessage {
  sm_client : nat;
  sm_to : string;
  sm_message : string;
  sm_quoted : option string
}.

(** [sendText(agentId, payload)] up to the [await] of the queued job:
    the error thrown, or the promise of the job. *)
Definition sendText (now : Z) (io : Io) (agentId : string)
    (payload : TextPayload) (s : State)
    (rl : RateLimiter.State SendMessage unit)
  : State * RateLimiter.State SendMessage unit * Outcome nat :=
  match getAgent io agentId s with
  | Throw e => (s, rl, Throw e)
  | Return None =>
      (s, rl, Throw (CodedError "Session not found" "SESSION_NOT_FOUND"))
  | Return (Some agentRecord) =>
      match ensureClient now io agentRecord s with
      | (s1, Throw e) => (s1, rl, Throw e)
      | (s1, Return (_, session)) =>
          if negb (isReady session) then
            (s1, rl, Throw (CodedError "Session not ready" "SESSION_NOT_READY"))
          else
            match Jid.normalizeJid (to payload) with
            | Throw e => (s1, rl, Throw e)
            | Return jid =>
                let options :=
                  if truthy (quotedMessageId payload)
                  then quotedMessageId payload else None in
                let job :=
                  mkSendMessage (client session) jid (message payload)
                                options in
                let '(rl1, r) := RateLimiter.enqueue now agentId job rl in
                (s1, rl1, r)
            end
      end
  end.

(** ** A running example: agent [a1], its client started, then ready *)

Definition example_agent : AgentRecord :=
  mkAgent 1 "a1" "A" "k1" (Some "https://ai.example.com/agents/a1/execute")
          awaiting_qr None None 0 0.

Definition example_db : gmap string AgentRecord := {[ "a1" := example_agent ]}.

Definition example_started : State :=
  fst (ensureClient 1000 io_ok example_agent (initial example_db)).

Definition example_ready : State := on_ready 2000 io_ok 0 example_started.

Definition example_ready_session : Session :=
  mkSession example_agent 0 None None true connected 1000 false true
            example_agent.

(** The session of [a1] is lost and a restart is scheduled; the row of
    [a1] is then removed from [whatsapp_user] before the timer fires. *)
Definition example_disconnected : State :=
  on_disconnected 3000 io_ok 0 (Some "LOGOUT") example_ready.

Definition example_row_removed : State :=
  set_db (delete "a1" (db example_disconnected)) example_disconnected.

(** A caller of [generateQr] is waiting for the QR code of [a1]. *)
Definition example_waiting : State := fst (waitForQr "a1" example_started).

(** ** Status view *)

Record LiveState := mkLiveState {
  ls_isReady : bool;
  ls_hasClient : bool;
  ls_sessionState : Status;
  ls_qr : option QrPayload;
  ls_qrUpdatedAt : option Z
}.

Record StatusPayload := mkStatusPayload {
  sp_agentId : string;
  sp_agentName : string;
  sp_status : Status;
  sp_lastConnectedAt : option Z;
  sp_lastDisconnectedAt : option Z;
  sp_createdAt : Z;
  sp_updatedAt : Z;
  sp_liveState : LiveState
}.

(** [buildStatusPayload(agentRecord, session)] *)
Definition buildStatusPayload (agentRecord : AgentRecord)
    (session : option Session) : StatusPayload :=
  mkStatusPayload (agent_id agentRecord) (agent_name agentRecord)
    (status agentRecord) (last_connected_at agentRecord)
    (last_disconnected_at agentRecord) (created_at agentRecord)
    (updated_at agentRecord)
    (match session with
     | Some x =>
         mkLiveState (isReady x) true (live_status x) (qr x) (qrUpdatedAt x)
     | None => mkLiveState false false (status agentRecord) None None
     end).

(** [buildResponse(agentRecord)] *)
Definition buildResponse (agentRecord : AgentRecord) (s : State)
  : StatusPayload :=
  buildStatusPayload agentRecord (snd <$> session_of (agent_id agentRecord) s).

Definition session_not_found : JsError :=
  CodedError "Session not found" "SESSION_NOT_FOUND".

(** [getStatus(agentId)] *)
Definition getStatus (io : Io) (agentId : string) (s : State)
  : Outcome StatusPayload :=
  row ← getAgent io agentId s;
  match row with
  | None => Throw session_not_found
  | Some agentRecord => Return (buildResponse agentRecord s)
  end.

(** ** Reconnect and delete *)

(** [reconnect(agentId)] *)
Definition reconnect (now : Z) (io : Io) (agentId : string) (s : State)
  : State * Outcome StatusPayload :=
  match getAgent io agentId s with
  | Throw e => (s, Throw e)
  | Return None => (s, Throw session_not_found)
  | Return (Some agentRecord) =>
      match teardownClient now io agentId true true s with
      | (s1, Throw e) => (s1, Throw e)
      | (s1, Return _) =>
          match ensureClient now io agentRecord s1 with
          | (s2, Throw e) => (s2, Throw e)
          | (s2, Return _) => (s2, Return (buildResponse agentRecord s2))
          end
      end
  end.

(** [{ deleted, alreadyRemoved }]; [alreadyRemoved] is absent from
    [{ deleted: true }]. *)
Record DeleteResult := mkDeleteResult {
  deleted : bool;
  alreadyRemoved : option bool
}.

(** [deleteSession(agentId)] *)
Definition deleteSession (now : Z) (io : Io) (agentId : string) (s : State)
  : State * Outcome DeleteResult :=
  match getAgent io agentId s with
  | Throw e => (s, Throw e)
  | Return None =>
      match teardownClient now io agentId true true s with
      | (s1, Throw e) => (s1, Throw e)
      | (s1, Return _) => (s1, Return (mkDeleteResult false (Some true)))
      end
  | Return (Some agentRecord) =>
      match teardownClient now io agentId false true s with
      | (s1, Throw e) => (s1, Throw e)
      | (s1, Return _) =>
          match db_error io with
          | Some e => (s1, Throw e)
          | None =>
              let s2 :=
                match db s1 !! agent_id agentRecord with
                | Some row =>
                    if (user_id row =? user_id agentRecord)%Z
                    then set_db (delete (agent_id agentRecord) (db s1)) s1
                    else s1
                | None => s1
                end in
              (s2, Return (mkDeleteResult true None))
          end
      end
  end.

(** ** Cached agent record *)

(** [refreshAgentRecord(session)] for the session object [ref]. *)
Definition refreshAgentRecord (now : Z) (io : Io) (ref : nat) (s : State)
  : State * Outcome unit :=
  match heap s !! ref with
  | None => (s, Return tt)
  | Some session =>
      if negb (lastAgentRefresh session =? 0)%Z
         && (now - lastAgentRefresh session <? 60000)%Z
      then (s, Return tt)
      else
        match getAgent io (agent_id (agent session)) s with
        | Throw e => (s, Throw e)
        | Return (Some fresh) =>
            (set_heap
               (<[ref := set_lastAgentRefresh now (set_agent fresh session)]>
                  (heap s)) s,
             Return tt)
        | Return None => (s, Return tt)
        end
  end.

(** ** Create or resume *)

Record UpsertArgs := mkUpsertArgs {
  ua_userId : Z;
  ua_agentId : string;
  ua_agentName : string;
  ua_apiKey : option string
}.

(** [upsertAgentRecord({ userId, agentId, agentName, apiKey })].
    [latestActiveKey] is [apiKeyRow.rows[0]?.api_key], the answer of the
    query on the externally owned table [api_keys]. *)
Definition upsertAgentRecord (now : Z) (io : Io) (aiBackendUrl : string)
    (latestActiveKey : option string) (a : UpsertArgs) (s : State)
  : State * Outcome AgentRecord :=
  let defaultEndpoint :=
    AiEndpoint.buildAgentEndpoint aiBackendUrl (ua_agentId a) (Some "execute") in
  match db_error io with
  | Some e => (s, Throw e)
  | None =>
      let selectedKey :=
        if truthy latestActiveKey then latestActiveKey else ua_apiKey a in
      if negb (truthy selectedKey) then
        (s, Throw (CodedError "Missing active API key" "INVALID_PAYLOAD"))
      else
        let key := default "" selectedKey in
        match db s !! ua_agentId a with
        | Some existing =>
            let updated :=
              mkAgent (user_id existing) (agent_id existing)
                (ErrorMapping.or_else (ua_agentName a) (agent_name existing))
                key
                (match endpoint_url_run existing with
                 | Some e => Some e
                 | None => Some defaultEndpoint
                 end)
                (status existing) (last_connected_at existing)
                (last_disconnected_at existing) (created_at existing) now in
            (set_db (<[ua_agentId a := updated]> (db s)) s, Return updated)
        | None =>
            let inserted :=
              mkAgent (ua_userId a) (ua_agentId a) (ua_agentName a) key
                (Some defaultEndpoint) awaiting_qr None None now now in
            (set_db (<[ua_agentId a := inserted]> (db s)) s, Return inserted)
        end
  end.

(** [createOrResumeSession({ userId, agentId, agentName, apiKey })] *)
Definition createOrResumeSession (now : Z) (io : Io) (aiBackendUrl : string)
    (latestActiveKey : option string) (a : UpsertArgs) (s : State)
  : State * Outcome StatusPayload :=
  match upsertAgentRecord now io aiBackendUrl latestActiveKey a s with
  | (s1, Throw e) => (s1, Throw e)
  | (s1, Return agentRecord) =>
      match ensureClient now io agentRecord s1 with
      | (s2, Throw e) => (s2, Throw e)
      | (s2, Return _) => (s2, Return (buildResponse agentRecord s2))
      end
  end.

(** ** Inbound messages *)

Record Message := mkMessage {
  fromMe : bool;
  isStatus : bool;
  broadcast : bool;
  isBroadcast : bool;
  from : string;
  msg_type : string;
  body : option string;
  mentionedIds : option (list string);
  notifyName : option string;
  pushname : option string
}.

(** The payload sent to the AI backend. *)
Record AiPayload := mkAiPayload {
  input : option string;
  max_steps : Z;
  whatsapp_name : option string;
  chat_name : option string;
  session_id : string
}.

(** The closure that [handleInboundMessage] hands to the rate limiter,
    by what it captures: [session], [agentId], [message], [payload] and
    [traceId].  Its body is [InboundRun.run]. *)
Record InboundJob := mkInboundJob {
  ij_session : nat;
  ij_agentId : string;
  ij_message : Message;
  ij_payload : AiPayload;
  ij_traceId : string
}.

(** How [handleInboundMessage] ends: it returns before the limiter is
    reached, an error is caught and logged ([inbound.unhandled]), or the
    closure is queued and its promise awaited. *)
Inductive Inbound : Type :=
| InboundDropped
| InboundFailed (e : JsError)
| InboundQueued (agentId : string) (p : nat).

Definition elem_string (x : string) (l : list string) : bool :=
  existsb (String.eqb x) l.

(** [botJid ? botJid.replace('@c.us', '').replace(/\D/g, '') : null] *)
Definition bot_digits (botJid : option string) : option string :=
  if truthy botJid
  then Some (filter_chars is_digit (remove_first "@c.us" (default "" botJid)))
  else None.

(** [botJid ? message.mentionedIds?.includes(botJid) : false] *)
Definition mentions_bot (botJid : option string) (m : Message) : bool :=
  if truthy botJid then
    match mentionedIds m with
    | Some ids => elem_string (default "" botJid) ids
    | None => false
    end
  else false.

(** [botDigits ? bodyDigits.includes(botDigits) : false] with
    [bodyDigits = message.body ? message.body.replace(/\D/g, '') : ''] *)
Definition body_names_bot (botJid : option string) (m : Message) : bool :=
  let bodyDigits :=
    if truthy (body m) then filter_chars is_digit (default "" (body m))
    else "" in
  if truthy (bot_digits botJid)
  then includes_string (default "" (bot_digits botJid)) bodyDigits
  else false.

(** [handleInboundMessage({ session, message })] up to the [await] of
    the queued closure.  [botJid] is
    [session.client.info?.wid?._serialized], [traceId] the value of
    [randomUUID()], [closure] the limiter's view of the queued function
    and [now'] the reading of [Date.now()] in [getAgentState].  A
    [RateLimitError] of [enqueue] is caught by the handler like any other
    error. *)
Definition handleInboundMessage {Task Value : Type}
    (closure : InboundJob -> Task) (now now' : Z) (io : Io) (ref : nat)
    (botJid : option string) (traceId : string) (m : Message) (s : State)
    (rl : RateLimiter.State Task Value)
  : State * RateLimiter.State Task Value * Inbound :=
  if fromMe m || isStatus m || broadcast m || isBroadcast m
  then (s, rl, InboundDropped)
  else
    match refreshAgentRecord now io ref s with
    | (s1, Throw e) => (s1, rl, InboundFailed e)
    | (s1, Return _) =>
        match heap s1 !! ref with
        | None => (s1, rl, InboundDropped)
        | Some session =>
            let agentId := agent_id (agent session) in
            if endsWith "@g.us" (from m)
               && negb (mentions_bot botJid m)
               && negb (body_names_bot botJid m)
            then (s1, rl, InboundDropped)
            else if negb (String.eqb (msg_type m) "chat")
            then (s1, rl, InboundDropped)
            else
              let s2 := emit (MessageReceived agentId) s1 in
              let payload :=
                mkAiPayload (body m) 5 (notifyName m) (pushname m) (from m) in
              let job := mkInboundJob ref agentId m payload traceId in
              match RateLimiter.enqueue now' agentId (closure job) rl with
              | (rl1, Throw e) => (s2, rl1, InboundFailed e)
              | (rl1, Return p) => (s2, rl1, InboundQueued agentId p)
              end
        end
    end.

(** ** Examples of inbound messages *)

Definition example_group_message (text : string) : Message :=
  mkMessage false false false false "120363@g.us" "chat" (Some text)
            (Some []) (Some "Budi") None.

End Manager.

(* ===================================================================== *)
(** * src/services/aiProxy.js: the call to the AI backend                 *)
(* ===================================================================== *)

Module AiRun.

(** What the proxy reports to the metrics registry. *)
Inductive Metric : Type :=
| ErrorCounted (agentId code : string)
| LatencyObserved (agentId : string) (seconds : Q).

(** [resolveEndpoint(agentRecord)] *)
Definition resolveEndpoint (aiBackendUrl : string)
    (agentRecord : Manager.AgentRecord) : string :=
  if truthy (Manager.endpoint_url_run agentRecord)
  then default "" (Manager.endpoint_url_run agentRecord)
  else AiEndpoint.buildAgentEndpoint aiBackendUrl
         (Manager.agent_id agentRecord) (Some "execute").

(** [callAi({ agentRecord, payload, traceId })].  [post endpoint bearer
    payload] is [axios.post] with a time-out of 60 s: the response body,
    or the error axios throws ([code = 'ECONNABORTED'] on time-out);
    [start] and [finish] are the two readings of [Date.now()]. *)
Definition callAi (post : string -> string -> Manager.AiPayload
                          -> Outcome AiProxy.jsval)
    (aiBackendUrl : string) (start finish : Z)
    (agentRecord : Manager.AgentRecord) (payload : Manager.AiPayload)
  : list Metric * Outcome AiProxy.jsval :=
  let endpoint := resolveEndpoint aiBackendUrl agentRecord in
  let agentId := Manager.agent_id agentRecord in
  match post endpoint ("Bearer " +:+ Manager.api_key agentRecord) payload with
  | Return data =>
      ([LatencyObserved agentId
          (Double.div (Double.sub (inject_Z finish) (inject_Z start))
                      (1000 # 1))],
       Return data)
  | Throw error =>
      if ErrorMapping.code_is error "ECONNABORTED" then
        ([ErrorCounted agentId ErrorMapping.AI_TIMEOUT_CODE],
         Throw (CodedError "AI request timed out" ErrorMapping.AI_TIMEOUT_CODE))
      else
        ([ErrorCounted agentId ErrorMapping.AI_DOWNSTREAM_CODE],
         Throw (CodedError "AI downstream error"
                           ErrorMapping.AI_DOWNSTREAM_CODE))
  end.

Record RunResult := mkRunResult {
  reply : option string;
  raw : AiProxy.jsval
}.

(** [executeRun({ agentRecord, payload, traceId })] *)
Definition executeRun (post : string -> string -> Manager.AiPayload
                              -> Outcome AiProxy.jsval)
    (aiBackendUrl : string) (start finish : Z)
    (agentRecord : Manager.AgentRecord) (payload : Manager.AiPayload)
  : list Metric * Outcome RunResult :=
  match callAi post aiBackendUrl start finish agentRecord payload with
  | (ms, Throw e) => (ms, Throw e)
  | (ms, Return data) =>
      (ms, r ← AiProxy.extractReply data; Return (mkRunResult r data))
  end.

End AiRun.

(* ===================================================================== *)
(** * The closure queued for an inbound message                           *)
(* ===================================================================== *)

Module InboundRun.

(** What WhatsApp, the AI backend and the clock answer while one queued
    closure runs. *)
Record World := mkWorld {
  (** [message.getChat()] *)
  getChat : Outcome unit;
  (** [chat.sendStateTyping()] *)
  sendStateTyping : Outcome unit;
  (** [axios.post(endpoint, payload, { headers, timeout })] *)
  post : string -> string -> Manager.AiPayload -> Outcome AiProxy.jsval;
  (** [client.sendMessage(to, text)] on a client *)
  sendMessage : nat -> string -> string -> Outcome unit;
  (** [env.aiBackendUrl] and [env.developerJid] *)
  aiBackendUrl : string;
  developerJid : string;
  (** the readings of [Date.now()] around [axios.post] and in
      [getAgentState], and [new Date().toISOString()] *)
  start : Z;
  finish : Z;
  enqueue_now : Z;
  isoTime : string
}.

Definition with_post post' (w : World) : World :=
  mkWorld (getChat w) (sendStateTyping w) post' (sendMessage w)
          (aiBackendUrl w) (developerJid w) (start w) (finish w)
          (enqueue_now w) (isoTime w).

(** What the closure does to the outside world, in order. *)
Inductive Event : Type :=
| TypingShown
| StateCleared
| Metric (m : AiRun.Metric)
| MessageSent (client : nat) (to text : string)
| MessagesSentCounted (agentId : string).

(** How the closure ends: it returns, or it awaits the promise of the
    developer report it has queued. *)
Inductive End : Type :=
| Returns
| AwaitsReport (p : nat).

(** [parts.join(sep)] *)
Fixpoint join (sep : string) (parts : list string) : string :=
  match parts with
  | [] => ""
  | [part] => part
  | part :: rest => part +:+ sep +:+ join sep rest
  end.

Definition newline : string := String "010"%char "".

Section WithTask.

Context {Task Value : Type}.

(** The limiter's view of [async () => session.client.sendMessage(...)]. *)
Variable send : Manager.SendMessage -> Task.

(** The text built by [reportInboundError]. *)
Definition report_text (w : World) (session : Manager.Session)
    (m : Manager.Message) (error : JsError) (traceId : string) : string :=
  let reason :=
    if truthy (err_code error) then default "" (err_code error) else "ERROR" in
  join newline
    [ "Agent: " +:+ Manager.agent_id (Manager.agent session);
      "From: " +:+ Manager.from m;
      "Reason: " +:+ reason;
      "Trace: " +:+ traceId;
      "Body: " +:+ default "undefined" (Manager.body m);
      "Time: " +:+ isoTime w ].

(** [reportInboundError({ session, message, error, traceId })] up to the
    [await] of the queued report: the promise, or the error that is
    caught and logged. *)
Definition reportInboundError (w : World) (session : Manager.Session)
    (m : Manager.Message) (error : JsError) (traceId : string)
    (rl : RateLimiter.State Task Value)
  : RateLimiter.State Task Value * Outcome nat :=
  RateLimiter.enqueue (enqueue_now w)
    (Manager.agent_id (Manager.agent session))
    (send (Manager.mkSendMessage (Manager.client session) (developerJid w)
             (report_text w session m error traceId) None))
    rl.

(** The [catch] block of the closure: [chat] tells whether [getChat] had
    returned. *)
Definition failed (w : World) (session : Manager.Session)
    (job : Manager.InboundJob) (chat : bool) (events : list Event)
    (error : JsError) (rl : RateLimiter.State Task Value)
  : RateLimiter.State Task Value * list Event * End :=
  let events' := if chat then events ++ [StateCleared] else events in
  match reportInboundError w session (Manager.ij_message job) error
          (Manager.ij_traceId job) rl with
  | (rl1, Return p) => (rl1, events', AwaitsReport p)
  | (rl1, Throw _) => (rl1, events', Returns)
  end.

(** The body of the closure queued by [handleInboundMessage], run while
    the shared session object holds [session]. *)
Definition run (w : World) (session : Manager.Session)
    (job : Manager.InboundJob) (rl : RateLimiter.State Task Value)
  : RateLimiter.State Task Value * list Event * End :=
  let m := Manager.ij_message job in
  match getChat w with
  | Throw e => failed w session job false [] e rl
  | Return _ =>
      match sendStateTyping w with
      | Throw e => failed w session job true [] e rl
      | Return _ =>
          match AiRun.executeRun (post w) (aiBackendUrl w) (start w)
                  (finish w) (Manager.agent session)
                  (Manager.ij_payload job) with
          | (ms, Throw e) =>
              failed w session job true (TypingShown :: map Metric ms) e rl
          | (ms, Return result) =>
              let events :=
                TypingShown :: map Metric ms ++ [StateCleared] in
              if truthy (AiRun.reply result) then
                let text := default "" (AiRun.reply result) in
                match sendMessage w (Manager.client session)
                        (Manager.from m) text with
                | Throw e => failed w session job true events e rl
                | Return _ =>
                    (rl,
                     events ++ [ MessageSent (Manager.client session)
                                   (Manager.from m) text;
                                 MessagesSentCounted (Manager.ij_agentId job) ],
                     Returns)
                end
              else (rl, events, Returns)
          end
      end
  end.

End WithTask.

End InboundRun.

(* ===================================================================== *)
(** * src/services/cleanupJob.js                                          *)
(* ===================================================================== *)

Module Cleanup.

Definition MAX_AGE_MS : Z := 24 * 60 * 60 * 1000.
Definition INTERVAL_MS : Z := 30 * 60 * 1000.

(** What [fs.stat] tells about a directory entry. *)
Record Stat := mkStat {
  isFile : bool;
  mtimeMs : Q
}.

(** Failures of the file system during one sweep. *)
Record Faults := mkFaults {
  readdir_fails : bool;
  stat_fails : string -> bool;
  unlink_fails : string -> bool
}.

Definition no_faults : Faults :=
  mkFaults false (fun _ => false) (fun _ => false).

(** The test of the callback mapped over the entries: the entry is
    unlinked. *)
Definition expired (now : Z) (st : Stat) : bool :=
  isFile st
  && negb (Qle_bool (inject_Z now - mtimeMs st) (inject_Z MAX_AGE_MS)).

(** [cleanupTempDir()] on the entries of [env.tempDir], by name.  Every
    callback runs to its end whatever happens to the others; the
    rejection of [Promise.all] is caught and logged. *)
Definition cleanupTempDir (now : Z) (f : Faults) (dir : gmap string Stat)
  : gmap string Stat :=
  if readdir_fails f then dir
  else
    filter (fun entry =>
              negb (negb (stat_fails f (fst entry))
                    && expired now (snd entry)
                    && negb (unlink_fails f (fst entry))) = true)
           dir.

(** A temp directory with an old preview, a recent one and a
    sub-directory. *)
Definition example_dir : gmap string Stat :=
  {[ "1-old.png" := mkStat true 0;
     "2-new.png" := mkStat true 90000000;
     "sub" := mkStat false 0 ]}.

End Cleanup.

(* ===================================================================== *)
(** * Properties of the JID normaliser                                    *)
(* ===================================================================== *)

Section StringFacts.

Variable keep : ascii -> bool.
Hypothesis keep_no_space : forall c, is_white_space c = true -> keep c = false.

Lemma filter_chars_trimStart (s : string) :
  filter_chars keep (trimStart s) = filter_chars keep s.
Proof.
  induction s as [|c r IH]; [reflexivity|].
  cbn [trimStart]. destruct (is_white_space c) eqn:Hc.
  - rewrite IH. cbn [filter_chars]. now rewrite (keep_no_space c Hc).
  - reflexivity.
Qed.

Lemma filter_chars_trimEnd (s : string) :
  filter_chars keep (trimEnd s) = filter_chars keep s.
Proof.
  induction s as [|c r IH]; [reflexivity|].
  cbn [trimEnd filter_chars]. rewrite <- IH.
  destruct (trimEnd r) as [|d r'].
  - cbn [filter_chars]. destruct (is_white_space c) eqn:Hc.
    + now rewrite (keep_no_space c Hc).
    + reflexivity.
  - reflexivity.
Qed.

Lemma filter_chars_trim (s : string) :
  filter_chars keep (trim s) = filter_chars keep s.
Proof.
  unfold trim. now rewrite filter_chars_trimEnd, filter_chars_trimStart.
Qed.

End StringFacts.

Lemma includes_as_filter (c : ascii) (s : string) :
  includes c s = negb (String.eqb (filter_chars (fun d => Ascii.eqb d c) s) "").
Proof.
  induction s as [|d r IH]; [reflexivity|].
  cbn [includes filter_chars]. destruct (Ascii.eqb d c); [reflexivity|exact IH].
Qed.

Lemma includes_at_trim (s : string) :
  includes "@" (trim s) = includes "@" s.
Proof.
  rewrite !includes_as_filter, filter_chars_trim; [reflexivity|].
  intros c Hc. destruct c as [[] [] [] [] [] [] [] []]; try discriminate Hc; reflexivity.
Qed.

Lemma digits_trim (s : string) :
  filter_chars is_digit (trim s) = filter_chars is_digit s.
Proof.
  apply filter_chars_trim.
  intros c Hc. destruct c as [[] [] [] [] [] [] [] []]; try discriminate Hc; reflexivity.
Qed.

Lemma digits_stripLeadingPlus (s : string) :
  filter_chars is_digit (Jid.stripLeadingPlus s) = filter_chars is_digit s.
Proof.
  destruct s as [|c r]; [reflexivity|].
  destruct c as [[] [] [] [] [] [] [] []]; reflexivity.
Qed.

Lemma endsWith_includes (c : ascii) (p s : string) :
  includes c p = true -> endsWith p s = true -> includes c s = true.
Proof.
  intros Hp. induction s as [|d r IH]; cbn [endsWith includes].
  - destruct (String.eqb_spec "" p) as [<-|_]; [|discriminate]. now intros _.
  - destruct (String.eqb_spec (String d r) p) as [<-|_].
    + now intros _.
    + intros H. destruct (Ascii.eqb d c); [reflexivity|now apply IH].
Qed.

Lemma no_at_not_endsWith (p s : string) :
  includes "@" p = true -> includes "@" s = false -> endsWith p s = false.
Proof.
  intros Hp Hs. destruct (endsWith p s) eqn:E; [|reflexivity].
  rewrite (endsWith_includes "@" p s Hp E) in Hs. discriminate.
Qed.

(** For an input without ['@'] the code reaches [ensureCountryCode] with
    the digits of the input. *)
Lemma normalizeJid_reaches_digits (input : string) :
  input <> "" -> includes "@" input = false ->
  Jid.normalizeJid input =
    match Jid.ensureCountryCode (Jid.spec_digits input) with
    | Return normalized => Return (normalized +:+ "@c.us")
    | Throw e => Throw e
    end.
Proof.
  intros Hne Hat. unfold Jid.normalizeJid.
  destruct (String.eqb_spec input "") as [->|_]; [congruence|].
  assert (Hv : includes "@" (trim input) = false)
    by now rewrite includes_at_trim.
  cbv zeta.
  rewrite (no_at_not_endsWith "@g.us" _ eq_refl Hv).
  rewrite (no_at_not_endsWith "@c.us" _ eq_refl Hv).
  rewrite Hv. unfold Jid.normalizeDigits, Jid.spec_digits.
  now rewrite !digits_stripLeadingPlus, digits_trim.
Qed.

Lemma startsWith_0_not_62 (d : string) :
  startsWith "0" d = true -> startsWith "62" d = false.
Proof.
  destruct d as [|c r]; [discriminate|].
  unfold startsWith. cbn [String.prefix].
  destruct (ascii_dec "0" c) as [<-|]; [reflexivity|discriminate].
Qed.

Lemma startsWith_8_not_62_0 (d : string) :
  startsWith "8" d = true ->
  startsWith "62" d = false /\ startsWith "0" d = false.
Proof.
  destruct d as [|c r]; [discriminate|].
  unfold startsWith. cbn [String.prefix].
  destruct (ascii_dec "8" c) as [<-|]; [now split|discriminate].
Qed.

(** C7: for a non-empty input without ['@'], with [d] the input stripped
    of a leading ['+'] and of all non-digits: [d] starting with ["62"] is
    kept, a leading ['0'] is replaced by ["62"], a leading ['8'] is
    prefixed with ["62"], anything else fails with
    ['Unsupported phone number format'], and ["@c.us"] is appended on
    success; ["08123"], ["+628123"] and ["8123"] all give
    ["628123@c.us"] and ["7123"] fails. *)
Theorem normalizeJid_bare_number (input : string) :
  input <> "" -> includes "@" input = false ->
  (startsWith "62" (Jid.spec_digits input) = true ->
     Jid.normalizeJid input = Return (Jid.spec_digits input +:+ "@c.us"))
  /\ (startsWith "0" (Jid.spec_digits input) = true ->
     Jid.normalizeJid input =
       Return (("62" +:+ slice1 (Jid.spec_digits input)) +:+ "@c.us"))
  /\ (startsWith "8" (Jid.spec_digits input) = true ->
     Jid.normalizeJid input =
       Return (("62" +:+ Jid.spec_digits input) +:+ "@c.us"))
  /\ (startsWith "62" (Jid.spec_digits input) = false ->
      startsWith "0" (Jid.spec_digits input) = false ->
      startsWith "8" (Jid.spec_digits input) = false ->
     Jid.normalizeJid input = Throw (Error "Unsupported phone number format"))
  /\ Jid.normalizeJid "08123" = Return "628123@c.us"
  /\ Jid.normalizeJid "+628123" = Return "628123@c.us"
  /\ Jid.normalizeJid "8123" = Return "628123@c.us"
  /\ Jid.normalizeJid "7123" = Throw (Error "Unsupported phone number format").
Proof.
  intros Hne Hat.
  rewrite (normalizeJid_reaches_digits input Hne Hat).
  unfold Jid.ensureCountryCode.
  repeat split; try reflexivity.
  - intros ->. reflexivity.
  - intros H0. rewrite (startsWith_0_not_62 _ H0), H0. reflexivity.
  - intros H8. destruct (startsWith_8_not_62_0 _ H8) as [-> ->].
    rewrite H8. reflexivity.
  - intros -> -> ->. reflexivity.
Qed.

Lemma normalizeJid_bare_number_witness :
  Jid.normalizeJid "0812-3" = Return "628123@c.us".
Proof.
  destruct (normalizeJid_bare_number "0812-3") as (_ & H0 & _).
  - discriminate.
  - reflexivity.
  - exact (H0 eq_refl).
Defined.

(* ===================================================================== *)
(** * Properties of the error mapping                                     *)
(* ===================================================================== *)

Lemma code_is_unrecognised (e : JsError) (c : string) :
  (forall c', err_code e = Some c' -> ~ In c' ErrorMapping.recognised_codes) ->
  In c ErrorMapping.recognised_codes ->
  ErrorMapping.code_is e c = false.
Proof.
  intros Hun Hin. unfold ErrorMapping.code_is.
  destruct (err_code e) as [c'|] eqn:Hc; [|reflexivity].
  destruct (String.eqb_spec c' c) as [->|_]; [|reflexivity].
  exfalso. exact (Hun c eq_refl Hin).
Qed.

(** Every error that is not a [RateLimitError] and carries none of the
    recognised codes falls through to the [default] case. *)
Lemma mapError_default (e : JsError) :
  err_rate_limit e = false ->
  (forall c, err_code e = Some c -> ~ In c ErrorMapping.recognised_codes) ->
  ErrorMapping.mapError (Some e) =
    ErrorMapping.mkMapped 500 "BAD_GATEWAY"
      (ErrorMapping.or_else (err_message e) "Internal server error").
Proof.
  intros Hrl Hun. unfold ErrorMapping.mapError. rewrite Hrl.
  unfold ErrorMapping.AI_TIMEOUT_CODE, ErrorMapping.AI_DOWNSTREAM_CODE.
  rewrite !(code_is_unrecognised e _ Hun); [reflexivity|..];
    unfold ErrorMapping.recognised_codes; cbn [In]; tauto.
Qed.

(** With a record in the database, a live session that is ready and a
    recipient that [normalizeJid] rejects, [sendText] throws the error of
    [normalizeJid] and queues nothing. *)
Lemma sendText_bad_recipient now io agentId payload s rl agentRecord ref session e :
  Manager.db_error io = None ->
  Manager.db s !! agentId = Some agentRecord ->
  Manager.agent_id agentRecord = agentId ->
  Manager.session_of agentId s = Some (ref, session) ->
  Manager.isReady session = true ->
  Jid.normalizeJid (Manager.to payload) = Throw e ->
  exists s', Manager.sendText now io agentId payload s rl = (s', rl, Throw e).
Proof.
  intros Hio Hdb Hid Hs Hready Hjid.
  unfold Manager.sendText, Manager.getAgent. rewrite Hio, Hdb.
  unfold Manager.ensureClient. rewrite Hid, Hs. cbn.
  rewrite Hready. cbn. rewrite Hjid. eauto.
Qed.

(** C9: an error that is not a [RateLimitError] and carries none of the
    recognised codes is mapped to HTTP status 500 with code
    [BAD_GATEWAY]; in particular a [sendText] to a ready session whose
    recipient fails JID normalisation with 'Unsupported phone number
    format' throws an error that is mapped to 500 [BAD_GATEWAY], not to
    [INVALID_PAYLOAD]. *)
Theorem unrecognised_errors_are_500_bad_gateway :
  (forall e : JsError,
     err_rate_limit e = false ->
     (forall c, err_code e = Some c -> ~ In c ErrorMapping.recognised_codes) ->
     ErrorMapping.status (ErrorMapping.mapError (Some e)) = 500
     /\ ErrorMapping.code (ErrorMapping.mapError (Some e)) = "BAD_GATEWAY")
  /\ (forall now io agentId payload s rl agentRecord ref session,
     Manager.db_error io = None ->
     Manager.db s !! agentId = Some agentRecord ->
     Manager.agent_id agentRecord = agentId ->
     Manager.session_of agentId s = Some (ref, session) ->
     Manager.isReady session = true ->
     Jid.normalizeJid (Manager.to payload) =
       Throw (Error "Unsupported phone number format") ->
     exists s' e,
       Manager.sendText now io agentId payload s rl = (s', rl, Throw e)
       /\ ErrorMapping.mapError (Some e) =
            ErrorMapping.mkMapped 500 "BAD_GATEWAY"
              "Unsupported phone number format").
Proof.
  split.
  - intros e Hrl Hun. now rewrite (mapError_default e Hrl Hun).
  - intros now io agentId payload s rl agentRecord ref session
           Hio Hdb Hid Hs Hready Hjid.
    destruct (sendText_bad_recipient now io agentId payload s rl agentRecord
                ref session _ Hio Hdb Hid Hs Hready Hjid) as [s' Hsend].
    exists s', (Error "Unsupported phone number format").
    split; [exact Hsend|reflexivity].
Qed.

Lemma unrecognised_errors_are_500_bad_gateway_witness :
  ErrorMapping.code
    (ErrorMapping.mapError (Some (Error "Unsupported phone number format")))
    = "BAD_GATEWAY"
  /\ exists s' e,
       Manager.sendText 3000 Manager.io_ok "a1"
         (Manager.mkTextPayload "7123" "Ping" None) Manager.example_ready
         (RateLimiter.create RateLimiter.default_config)
       = (s', RateLimiter.create RateLimiter.default_config, Throw e)
       /\ ErrorMapping.mapError (Some e) =
            ErrorMapping.mkMapped 500 "BAD_GATEWAY"
              "Unsupported phone number format".
Proof.
  destruct unrecognised_errors_are_500_bad_gateway as [Hmap Hsend].
  split.
  - refine (proj2 (Hmap (Error "Unsupported phone number format") eq_refl _)).
    intros c Hc. discriminate Hc.
  - eapply (Hsend 3000 Manager.io_ok "a1"
              (Manager.mkTextPayload "7123" "Ping" None) Manager.example_ready
              (RateLimiter.create RateLimiter.default_config)
              _ 0%nat Manager.example_ready_session);
      reflexivity.
Defined.

(* ===================================================================== *)
(** * Properties of reply extraction                                      *)
(* ===================================================================== *)

Lemma first_reply_find (candidates : list AiProxy.jsval) :
  AiProxy.first_reply candidates =
    match List.find AiProxy.spec_qualifies candidates with
    | Some (AiProxy.JStr s) => Some (trim s)
    | _ => None
    end.
Proof.
  induction candidates as [|c rest IH]; [reflexivity|].
  cbn [AiProxy.first_reply List.find].
  destruct c; cbn [AiProxy.spec_qualifies]; try exact IH.
  destruct (negb (String.eqb (trim s) "")); [reflexivity|exact IH].
Qed.

Lemma optional_member_probe (k : string) (v : AiProxy.jsval) :
  AiProxy.optional_member k v = Return (AiProxy.spec_probe [k] v).
Proof. destruct v; reflexivity. Qed.

(** A value that is not an object has none of the probed properties. *)
Lemma spec_reply_not_object (data : AiProxy.jsval) :
  (forall fields, data <> AiProxy.JObj fields) ->
  AiProxy.spec_reply data = None.
Proof.
  intros Hno. destruct data; try reflexivity. now destruct (Hno fields).
Qed.

(** C6: for every response body, [extractReply] returns (it never throws)
    the trimmed value of the first of [data.reply], [data.response],
    [data.result.reply], [data.result.response], [data.output] that is a
    string and non-empty after trimming, and [null] when none qualifies
    or the body is absent. *)
Theorem extractReply_probes_in_order (data : AiProxy.jsval) :
  AiProxy.extractReply data = Return (AiProxy.spec_reply data).
Proof.
  destruct data as [ | |b|q|s|items|fields].
  - reflexivity.
  - reflexivity.
  - destruct b; reflexivity.
  - unfold AiProxy.extractReply. cbn [AiProxy.is_truthy].
    destruct (Qeq_bool q 0); reflexivity.
  - unfold AiProxy.extractReply. cbn [AiProxy.is_truthy].
    destruct (String.eqb s ""); reflexivity.
  - reflexivity.
  - unfold AiProxy.extractReply.
    cbn [AiProxy.is_truthy negb AiProxy.member mbind Outcome_bind].
    rewrite !optional_member_probe.
    cbn [mbind Outcome_bind]. rewrite first_reply_find. reflexivity.
Qed.

(* ===================================================================== *)
(** * Properties of double rounding                                       *)
(* ===================================================================== *)

Section DoubleFacts.

Local Open Scope Q_scope.

Lemma rne_bounds x : (Qfloor x <= Double.rne x <= Qfloor x + 1)%Z.
Proof.
  unfold Double.rne. cbv zeta.
  destruct (Qcompare _ _); [destruct (Z.even _)| |]; lia.
Qed.

Lemma rne_inject_Z z : Double.rne (inject_Z z) = z.
Proof.
  unfold Double.rne. cbv zeta. rewrite Qfloor_Z.
  destruct (Qcompare_spec (inject_Z z - inject_Z z) (1 # 2)) as [H|H|H];
    [lra|reflexivity|lra].
Qed.

Lemma rne_mono x y : x <= y -> (Double.rne x <= Double.rne y)%Z.
Proof.
  intros Hxy.
  pose proof (Qfloor_resp_le x y Hxy) as Hf.
  destruct (Z.eq_dec (Qfloor x) (Qfloor y)) as [E|N].
  - unfold Double.rne. cbv zeta. rewrite E.
    destruct (Qcompare_spec (x - inject_Z (Qfloor y)) (1 # 2)) as [Hx|Hx|Hx];
      destruct (Qcompare_spec (y - inject_Z (Qfloor y)) (1 # 2)) as [Hy|Hy|Hy];
      try destruct (Z.even (Qfloor y)); try lia; lra.
  - pose proof (rne_bounds x). pose proof (rne_bounds y). lia.
Qed.


Lemma pow2_pos (a : Z) : 0 < 2 ^ a.
Proof. apply Qpower_0_lt. reflexivity. Qed.

Lemma pow2_sub (a b : Z) : 2 ^ (a - b) == 2 ^ a / 2 ^ b.
Proof.
  unfold Z.sub. rewrite Qpower_plus by discriminate.
  rewrite Qpower_opp. reflexivity.
Qed.

Lemma pow2_succ (a : Z) : 2 ^ (a + 1) == 2 * 2 ^ a.
Proof. rewrite Qpower_plus by discriminate. ring. Qed.

(** A positive integer between two powers of two, in [Q]. *)
Lemma log2_bounds (n : positive) :
  2 ^ Z.log2 (Z.pos n) <= inject_Z (Z.pos n)
  /\ inject_Z (Z.pos n) < 2 * 2 ^ Z.log2 (Z.pos n).
Proof.
  pose proof (Z.log2_spec (Z.pos n) eq_refl) as [Hlo Hhi].
  pose proof (Z.log2_nonneg (Z.pos n)) as Hnn.
  change 2 with (inject_Z 2).
  rewrite <- (Zpower_Qpower 2 _ Hnn). rewrite <- inject_Z_mult.
  rewrite <- Zle_Qle, <- Zlt_Qlt.
  split; [exact Hlo|].
  replace (2 * 2 ^ Z.log2 (Z.pos n))%Z with (2 ^ Z.succ (Z.log2 (Z.pos n)))%Z;
    [exact Hhi|].
  rewrite Z.pow_succ_r by exact Hnn. reflexivity.
Qed.

Lemma ilog2_spec q :
  0 < q -> 2 ^ Double.ilog2 q <= q /\ q < 2 ^ (Double.ilog2 q + 1).
Proof.
  destruct q as [n d]. intros Hq.
  destruct n as [|n|n]; [discriminate Hq| |discriminate Hq].
  unfold Double.ilog2. cbn [Qnum Qden].
  set (ln := Z.log2 (Z.pos n)). set (ld := Z.log2 (Z.pos d)).
  destruct (log2_bounds n) as [Hn1 Hn2]. destruct (log2_bounds d) as [Hd1 Hd2].
  fold ln in Hn1, Hn2. fold ld in Hd1, Hd2.
  pose proof (pow2_pos ln) as Ha. pose proof (pow2_pos ld) as Hb.
  assert (Hd : 0 < inject_Z (Z.pos d)) by reflexivity.
  assert (Eq : Z.pos n # d == inject_Z (Z.pos n) / inject_Z (Z.pos d))
    by apply Qmake_Qdiv.
  cbv zeta.
  destruct (Qle_bool (2 ^ (ln - ld)) (Z.pos n # d)) eqn:E.
  - apply Qle_bool_iff in E. split; [exact E|].
    rewrite pow2_succ, pow2_sub, Eq.
    apply Qlt_shift_div_r; [exact Hd|].
    assert (R : 2 * (2 ^ ln / 2 ^ ld) * inject_Z (Z.pos d)
                == (2 * 2 ^ ln * inject_Z (Z.pos d)) / 2 ^ ld) by (field; lra).
    rewrite R.
    apply Qlt_shift_div_l; [exact Hb|]. nra.
  - assert (Hlt : Z.pos n # d < 2 ^ (ln - ld)).
    { apply Qnot_le_lt. intros H. apply Qle_bool_iff in H. congruence. }
    replace (ln - ld - 1 + 1)%Z with (ln - ld)%Z by lia.
    split; [|exact Hlt].
    replace (ln - ld - 1)%Z with (ln - (ld + 1))%Z by lia.
    rewrite pow2_sub, pow2_succ, Eq.
    apply Qle_shift_div_l; [exact Hd|].
    assert (R : 2 ^ ln / (2 * 2 ^ ld) * inject_Z (Z.pos d)
                == (2 ^ ln * inject_Z (Z.pos d)) / (2 * 2 ^ ld)) by (field; lra).
    rewrite R.
    apply Qle_shift_div_r; [lra|]. nra.
Qed.

Lemma ilog2_mono p q : 0 < p -> p <= q -> (Double.ilog2 p <= Double.ilog2 q)%Z.
Proof.
  intros Hp Hpq.
  destruct (ilog2_spec p Hp) as [Hp1 _].
  destruct (ilog2_spec q) as [_ Hq2]; [lra|].
  assert (H : 2 ^ Double.ilog2 p < 2 ^ (Double.ilog2 q + 1)) by lra.
  apply Qpower_lt_compat_l_inv in H; [lia|reflexivity].
Qed.


Lemma ulp_exp_mono p q :
  0 < p -> p <= q -> (Double.ulp_exp p <= Double.ulp_exp q)%Z.
Proof.
  intros Hp Hpq. pose proof (ilog2_mono p q Hp Hpq).
  unfold Double.ulp_exp. lia.
Qed.

Lemma pow2_inject (a : Z) : (0 <= a)%Z -> 2 ^ a == inject_Z (2 ^ a).
Proof. intros Ha. now rewrite (Zpower_Qpower 2 a Ha). Qed.

(** The significand of a positive number has at most 53 bits. *)
Lemma significand_upper q :
  0 < q -> (Double.rne (q / 2 ^ Double.ulp_exp q) <= 2 ^ 53)%Z.
Proof.
  intros Hq. destruct (ilog2_spec q Hq) as [_ Hhi].
  set (e := Double.ulp_exp q).
  assert (He : (Double.ilog2 q + 1 <= e + 53)%Z)
    by (subst e; unfold Double.ulp_exp; lia).
  assert (H : q / 2 ^ e <= inject_Z (2 ^ 53)).
  { apply Qle_shift_div_r; [apply pow2_pos|].
    rewrite <- pow2_inject by lia.
    rewrite <- Qpower_plus by discriminate.
    apply Qlt_le_weak. eapply Qlt_le_trans; [exact Hhi|].
    apply Qpower_le_compat_l; [lia|discriminate]. }
  apply rne_mono in H. now rewrite rne_inject_Z in H.
Qed.

(** Above the subnormal range it has exactly 53 bits. *)
Lemma significand_lower q :
  0 < q -> (-1074 < Double.ulp_exp q)%Z ->
  (2 ^ 52 <= Double.rne (q / 2 ^ Double.ulp_exp q))%Z.
Proof.
  intros Hq Hn. destruct (ilog2_spec q Hq) as [Hlo _].
  set (e := Double.ulp_exp q) in *.
  assert (He : Double.ilog2 q = (52 + e)%Z)
    by (subst e; unfold Double.ulp_exp in *; lia).
  assert (H : inject_Z (2 ^ 52) <= q / 2 ^ e).
  { apply Qle_shift_div_l; [apply pow2_pos|].
    rewrite <- pow2_inject by lia.
    rewrite <- Qpower_plus by discriminate.
    now rewrite <- He. }
  apply rne_mono in H. now rewrite rne_inject_Z in H.
Qed.

Lemma significand_nonneg q :
  0 < q -> (0 <= Double.rne (q / 2 ^ Double.ulp_exp q))%Z.
Proof.
  intros Hq.
  assert (H : inject_Z 0 <= q / 2 ^ Double.ulp_exp q).
  { apply Qle_shift_div_l; [apply pow2_pos|]. change (inject_Z 0) with 0. lra. }
  apply rne_mono in H. now rewrite rne_inject_Z in H.
Qed.

Lemma round_pos_nonneg q : 0 < q -> 0 <= Double.round_pos q.
Proof.
  intros Hq. unfold Double.round_pos. cbv zeta.
  apply Qmult_le_0_compat; [|apply Qlt_le_weak, pow2_pos].
  change 0 with (inject_Z 0). rewrite <- Zle_Qle. now apply significand_nonneg.
Qed.

Lemma round_pos_mono p q :
  0 < p -> p <= q -> Double.round_pos p <= Double.round_pos q.
Proof.
  intros Hp Hpq. assert (Hq : 0 < q) by lra.
  pose proof (ulp_exp_mono p q Hp Hpq) as He.
  unfold Double.round_pos. cbv zeta.
  destruct (Z.eq_dec (Double.ulp_exp p) (Double.ulp_exp q)) as [E|N].
  - rewrite E. apply Qmult_le_compat_r; [|apply Qlt_le_weak, pow2_pos].
    rewrite <- Zle_Qle. apply rne_mono.
    apply Qmult_le_compat_r; [exact Hpq|].
    apply Qlt_le_weak, Qinv_lt_0_compat, pow2_pos.
  - pose proof (significand_upper p Hp) as Hup.
    assert (Hnorm : (-1074 < Double.ulp_exp q)%Z)
      by (unfold Double.ulp_exp in *; lia).
    pose proof (significand_lower q Hq Hnorm) as Hlo.
    set (ep := Double.ulp_exp p) in *. set (eq := Double.ulp_exp q) in *.
    apply Qle_trans with (2 ^ (ep + 53)).
    + rewrite Qpower_plus by discriminate. rewrite (Qmult_comm (2 ^ ep)).
      apply Qmult_le_compat_r; [|apply Qlt_le_weak, pow2_pos].
      rewrite (pow2_inject 53) by lia. now rewrite <- Zle_Qle.
    + apply Qle_trans with (2 ^ (eq + 52)).
      * apply Qpower_le_compat_l; [lia|discriminate].
      * rewrite Qpower_plus by discriminate. rewrite (Qmult_comm (2 ^ eq)).
        apply Qmult_le_compat_r; [|apply Qlt_le_weak, pow2_pos].
        rewrite (pow2_inject 52) by lia. now rewrite <- Zle_Qle.
Qed.

Lemma Qnum_pos q : 0 < q <-> exists n, Qnum q = Z.pos n.
Proof.
  destruct q as [[|n|n] d]; cbn; split.
  - intros H. discriminate H.
  - intros [n H]. discriminate H.
  - intros _. now exists n.
  - reflexivity.
  - intros H. discriminate H.
  - intros [m H]. discriminate H.
Qed.

Lemma round_spec q :
  Double.round q ==
    match Qnum q with
    | Z0 => 0
    | Z.pos _ => Double.round_pos q
    | Z.neg _ => - Double.round_pos (- q)
    end.
Proof. unfold Double.round. apply Qred_correct. Qed.

Lemma round_sign q :
  (0 < q -> 0 <= Double.round q) /\ (q <= 0 -> Double.round q <= 0).
Proof.
  rewrite round_spec. destruct q as [[|n|n] d]; cbn [Qnum]; split; intros H.
  - apply Qle_refl.
  - apply Qle_refl.
  - now apply round_pos_nonneg.
  - exfalso. revert H. apply Qlt_not_le. reflexivity.
  - discriminate H.
  - assert (0 <= Double.round_pos (- (Z.neg n # d)))
      by (apply round_pos_nonneg; reflexivity).
    lra.
Qed.

(** Rounding is monotone. *)
Lemma round_mono p q : p <= q -> Double.round p <= Double.round q.
Proof.
  intros Hpq.
  destruct (Qlt_le_dec 0 p) as [Hp|Hp].
  - assert (Hq : 0 < q) by lra.
    rewrite !round_spec.
    apply Qnum_pos in Hp as Hp'. destruct Hp' as [n ->].
    apply Qnum_pos in Hq as Hq'. destruct Hq' as [m ->].
    now apply round_pos_mono.
  - destruct (Qlt_le_dec 0 q) as [Hq|Hq].
    + pose proof (proj2 (round_sign p) Hp). pose proof (proj1 (round_sign q) Hq).
      lra.
    + rewrite !round_spec.
      destruct p as [[|n|n] d], q as [[|m|m] d'];
        try (exfalso; revert Hp; apply Qlt_not_le; reflexivity);
        try (exfalso; revert Hq; apply Qlt_not_le; reflexivity);
        try (exfalso; revert Hpq; apply Qlt_not_le; reflexivity);
        cbn [Qnum].
      * apply Qle_refl.
      * assert (0 <= Double.round_pos (- (Z.neg n # d)))
          by (apply round_pos_nonneg; reflexivity).
        lra.
      * apply Qopp_le_compat. apply round_pos_mono; [reflexivity|].
        now apply Qopp_le_compat.
Qed.

Lemma round_nonneg q : 0 <= q -> 0 <= Double.round q.
Proof. intros H. apply (round_mono 0 q) in H. exact H. Qed.

Lemma round_le_double x y :
  x <= y -> Double.is_double y -> Double.round x <= y.
Proof.
  intros Hxy Hy. unfold Double.is_double in Hy. rewrite <- Hy.
  now apply round_mono.
Qed.

Lemma round_ge_double x y :
  y <= x -> Double.is_double y -> y <= Double.round x.
Proof.
  intros Hxy Hy. unfold Double.is_double in Hy. rewrite <- Hy.
  now apply round_mono.
Qed.

Lemma one_is_double : Double.is_double 1.
Proof. vm_compute. reflexivity. Qed.

(** The rounding is that of the program: [1000 / 60000 * 100] is the
    double [1.6666666666666667], [0.1] is the double next to one tenth, a
    tie goes to the even significand, and below [2 ^ -1022] the spacing
    is [2 ^ -1074]. *)
Lemma round_examples :
  Double.mul (Double.div 1000 60000) 100
    = 7505999378950827 # 4503599627370496
  /\ Double.round (1 # 10) = 3602879701896397 # 36028797018963968
  /\ Double.round (- (1 # 10)) = - (3602879701896397 # 36028797018963968)
  /\ Double.add 9007199254740992 1 = 9007199254740992
  /\ Double.add 9007199254740994 1 = 9007199254740996
  /\ Double.round (3 * 2 ^ (-1075)) == 2 ^ (-1073)
  /\ Double.round (2 ^ (-1075)) == 0.
Proof. vm_compute. repeat split; reflexivity. Qed.


End DoubleFacts.

(* ===================================================================== *)
(** * Properties of the rate limiter                                      *)
(* ===================================================================== *)

Section LimiterFacts.

Context {Task Value : Type}.

Abbreviation AgentState := (RateLimiter.AgentState Task).
Abbreviation LimiterState := (RateLimiter.State Task Value).
Abbreviation Op := (RateLimiter.Op Task Value).

Implicit Types (st : AgentState) (s : LimiterState) (c : RateLimiter.Config).

Local Arguments RateLimiter.processQueue : simpl never.
Local Arguments RateLimiter.work : simpl never.
Local Arguments RateLimiter.refill_agent : simpl never.

(** ** The token bucket *)

Lemma fresh_agent_in_range c now :
  (0 <= RateLimiter.burst c)%Q ->
  RateLimiter.tokens_in_range c (RateLimiter.fresh_agent (Task:=Task) c now).
Proof. intros Hb. split; cbn; [exact Hb|apply Qle_refl]. Qed.

(** Taking a token: the rounded difference stays between [0] and the
    double [burst]. *)
Lemma work_in_range c st :
  Double.is_double (RateLimiter.burst c) ->
  RateLimiter.tokens_in_range c st ->
  RateLimiter.tokens_in_range c (RateLimiter.work st).
Proof.
  intros Hd [Hlo Hhi]. unfold RateLimiter.work.
  destruct (RateLimiter.queue st) as [|job rest]; [now split|].
  destruct (Qle_bool 1 (RateLimiter.tokens st)) eqn:E; cbn [negb].
  - apply Qle_bool_iff in E. split; cbn; unfold Double.sub.
    + apply round_nonneg. lra.
    + apply round_le_double; [lra|exact Hd].
  - now split.
Qed.

Lemma processQueue_in_range c st :
  Double.is_double (RateLimiter.burst c) ->
  RateLimiter.tokens_in_range c st ->
  RateLimiter.tokens_in_range c (RateLimiter.processQueue st).
Proof.
  intros Hd H. unfold RateLimiter.processQueue.
  destruct (RateLimiter.processing st); [exact H|].
  apply work_in_range; [exact Hd|exact H].
Qed.

Lemma add_tokens_in_range c now st :
  (0 <= RateLimiter.burst c)%Q ->
  (1 <= RateLimiter.refill_amount c now st)%Q ->
  RateLimiter.tokens_in_range c st ->
  RateLimiter.tokens_in_range c (RateLimiter.add_tokens c now st).
Proof.
  intros Hb Hr [Hlo Hhi]. split; cbn.
  - apply Q.min_glb; [exact Hb|]. unfold Double.add. apply round_nonneg. lra.
  - apply Q.le_min_l.
Qed.

Lemma refill_agent_in_range c now st :
  (0 <= RateLimiter.burst c)%Q ->
  Double.is_double (RateLimiter.burst c) ->
  RateLimiter.tokens_in_range c st ->
  RateLimiter.tokens_in_range c (RateLimiter.refill_agent c now st).
Proof.
  intros Hb Hd H. unfold RateLimiter.refill_agent.
  destruct (Qle_bool 1 (RateLimiter.refill_amount c now st)) eqn:E; [|exact H].
  apply Qle_bool_iff in E.
  pose proof (add_tokens_in_range c now st Hb E H) as H'.
  cbv zeta.
  destruct (RateLimiter.queue (RateLimiter.add_tokens c now st));
    [exact H'|now apply processQueue_in_range].
Qed.

Lemma step_config s (o : Op) :
  RateLimiter.config (RateLimiter.step s o) = RateLimiter.config s.
Proof.
  destruct o as [now a t|now|a r|a]; cbn [RateLimiter.step].
  - unfold RateLimiter.enqueue, RateLimiter.getAgentState.
    destruct (RateLimiter.agents s !! a); cbn;
      match goal with |- context [if ?b then _ else _] => destruct b end;
      reflexivity.
  - reflexivity.
  - unfold RateLimiter.task_settled.
    destruct (RateLimiter.agents s !! a) as [st|]; [|reflexivity].
    destruct (RateLimiter.running st), r; reflexivity.
  - unfold RateLimiter.run_immediate.
    destruct (RateLimiter.agents s !! a) as [st|]; [|reflexivity].
    destruct (RateLimiter.immediate st); reflexivity.
Qed.

(** Replacing one agent's record by one in range keeps the invariant. *)
Lemma bucket_invariant_insert c (m : gmap string AgentState) a st
    (ps : gmap nat (RateLimiter.Settled Value)) n :
  (forall a' st', m !! a' = Some st' -> RateLimiter.tokens_in_range c st') ->
  RateLimiter.tokens_in_range c st ->
  RateLimiter.bucket_invariant (RateLimiter.mkState c (<[a := st]> m) ps n).
Proof.
  intros Hm Hst a' st'. cbn.
  destruct (decide (a = a')) as [->|Hne].
  - rewrite lookup_insert_eq. intros [= <-]. exact Hst.
  - rewrite lookup_insert_ne by exact Hne. apply Hm.
Qed.

Lemma step_bucket_invariant s (o : Op) :
  (0 <= RateLimiter.burst (RateLimiter.config s))%Q ->
  Double.is_double (RateLimiter.burst (RateLimiter.config s)) ->
  RateLimiter.bucket_invariant s ->
  RateLimiter.bucket_invariant (RateLimiter.step s o).
Proof.
  intros Hb Hd Hinv. destruct s as [c m ps n]. cbn in Hb, Hd.
  assert (Hm : forall a' st', m !! a' = Some st' ->
                              RateLimiter.tokens_in_range c st')
    by exact Hinv.
  destruct o as [now a t|now|a r|a]; cbn [RateLimiter.step].
  - unfold RateLimiter.enqueue, RateLimiter.getAgentState. cbn.
    destruct (m !! a) as [st|] eqn:Ha; cbn.
    + match goal with |- context [if ?b then _ else _] => destruct b end; cbn;
        [exact Hinv|].
      apply bucket_invariant_insert; [exact Hm|].
      apply processQueue_in_range; [exact Hd|exact (Hm a st Ha)].
    + match goal with |- context [if ?b then _ else _] => destruct b end; cbn.
      * apply bucket_invariant_insert; [exact Hm|].
        now apply fresh_agent_in_range.
      * apply bucket_invariant_insert.
        -- intros a' st'. destruct (decide (a = a')) as [->|Hne].
           ++ rewrite lookup_insert_eq. intros [= <-].
              now apply fresh_agent_in_range.
           ++ rewrite lookup_insert_ne by exact Hne. apply Hm.
        -- apply processQueue_in_range; [exact Hd|].
           split; cbn; [exact Hb|apply Qle_refl].
  - intros a st. cbn. rewrite lookup_fmap.
    destruct (m !! a) as [st0|] eqn:Ha; cbn; [|discriminate].
    intros [= <-].
    apply refill_agent_in_range; [exact Hb|exact Hd|exact (Hm a st0 Ha)].
  - unfold RateLimiter.task_settled. cbn.
    destruct (m !! a) as [st|] eqn:Ha; [|exact Hinv].
    destruct (RateLimiter.running st), r; try exact Hinv;
      (apply bucket_invariant_insert; [exact Hm|exact (Hm a st Ha)]).
  - unfold RateLimiter.run_immediate. cbn.
    destruct (m !! a) as [st|] eqn:Ha; [|exact Hinv].
    destruct (RateLimiter.immediate st); [|exact Hinv].
    apply bucket_invariant_insert; [exact Hm|].
    apply work_in_range; [exact Hd|exact (Hm a st Ha)].
Qed.

Lemma run_bucket_invariant (ops : list Op) s :
  (0 <= RateLimiter.burst (RateLimiter.config s))%Q ->
  Double.is_double (RateLimiter.burst (RateLimiter.config s)) ->
  RateLimiter.bucket_invariant s ->
  RateLimiter.bucket_invariant (RateLimiter.run s ops).
Proof.
  revert s. induction ops as [|o ops IH]; intros s Hb Hd Hinv; [exact Hinv|].
  cbn [RateLimiter.run fold_left]. apply IH.
  - now rewrite step_config.
  - now rewrite step_config.
  - now apply step_bucket_invariant.
Qed.

(** ** The bounded queue *)

Lemma getAgentState_config now a s :
  RateLimiter.config (fst (RateLimiter.getAgentState now a s))
  = RateLimiter.config s.
Proof.
  unfold RateLimiter.getAgentState.
  destruct (RateLimiter.agents s !! a); reflexivity.
Qed.

Lemma getAgentState_lookup now a s :
  RateLimiter.agents (fst (RateLimiter.getAgentState now a s)) !! a
  = Some (snd (RateLimiter.getAgentState now a s)).
Proof.
  unfold RateLimiter.getAgentState.
  destruct (RateLimiter.agents s !! a) eqn:Ha; cbn; [exact Ha|].
  apply lookup_insert_eq.
Qed.

(** [enqueue] in terms of the record returned by [getAgentState]. *)
Lemma enqueue_unfold now a (t : Task) s :
  RateLimiter.enqueue now a t s =
    let s1 := fst (RateLimiter.getAgentState now a s) in
    let st := snd (RateLimiter.getAgentState now a s) in
    if (Z.of_nat (length (RateLimiter.queue st))
        >=? RateLimiter.queueLimit (RateLimiter.config s))%Z
    then (s1, Throw (RateLimiter.RateLimitError "Queue capacity reached"))
    else
      let p := RateLimiter.next_promise s in
      (RateLimiter.mkState (RateLimiter.config s)
         (<[a := RateLimiter.processQueue
                   (RateLimiter.mkAgentState (RateLimiter.tokens st)
                      (RateLimiter.lastRefill st)
                      (RateLimiter.queue st ++ [RateLimiter.mkJob t p])
                      (RateLimiter.processing st) (RateLimiter.running st)
                      (RateLimiter.immediate st))]>
            (RateLimiter.agents s1))
         (<[p := RateLimiter.Pending]> (RateLimiter.promises s))
         (S p),
       Return p).
Proof.
  unfold RateLimiter.enqueue, RateLimiter.getAgentState.
  destruct (RateLimiter.agents s !! a); reflexivity.
Qed.

Lemma processQueue_appends st (job : RateLimiter.Job Task) :
  RateLimiter.single_worker st ->
  RateLimiter.pending_jobs
    (RateLimiter.processQueue
       (RateLimiter.mkAgentState (RateLimiter.tokens st)
          (RateLimiter.lastRefill st) (RateLimiter.queue st ++ [job])
          (RateLimiter.processing st) (RateLimiter.running st)
          (RateLimiter.immediate st)))
  = RateLimiter.pending_jobs st ++ [job].
Proof.
  intros [Hidle _]. unfold RateLimiter.processQueue. cbn.
  destruct (RateLimiter.processing st) eqn:Hp.
  - unfold RateLimiter.pending_jobs. cbn.
    destruct (RateLimiter.running st); reflexivity.
  - destruct (Hidle eq_refl) as [Hrun _].
    unfold RateLimiter.work, RateLimiter.pending_jobs. cbn. rewrite Hrun.
    destruct (RateLimiter.queue st) as [|j rest]; cbn;
      destruct (Qle_bool 1 (RateLimiter.tokens st)); cbn;
      rewrite ?Hrun; reflexivity.
Qed.

Lemma enqueue_first c now a (t : Task) :
  (1 <= RateLimiter.burst c)%Q ->
  (0 < RateLimiter.queueLimit c)%Z ->
  RateLimiter.busy_with 0 a
    (fst (RateLimiter.enqueue now a t (RateLimiter.create (Value:=Value) c))).
Proof.
  intros Hb Hl. rewrite enqueue_unfold.
  unfold RateLimiter.getAgentState, RateLimiter.create.
  cbn. rewrite lookup_empty. cbn.
  destruct (Z.geb_spec (Z.of_nat 0) (RateLimiter.queueLimit c)) as [Hge|_];
    [lia|].
  cbn. eexists. split; [apply lookup_insert_eq|].
  unfold RateLimiter.processQueue, RateLimiter.work. cbn.
  apply Qle_bool_iff in Hb. rewrite Hb. cbn. eauto.
Qed.

Lemma enqueue_busy n now a (t : Task) s :
  RateLimiter.busy_with n a s ->
  (Z.of_nat n < RateLimiter.queueLimit (RateLimiter.config s))%Z ->
  snd (RateLimiter.enqueue now a t s) = Return (RateLimiter.next_promise s)
  /\ RateLimiter.config (fst (RateLimiter.enqueue now a t s))
     = RateLimiter.config s
  /\ RateLimiter.busy_with (S n) a (fst (RateLimiter.enqueue now a t s)).
Proof.
  intros (st & Ha & Hp & Hr & Hn) Hlt. rewrite enqueue_unfold.
  unfold RateLimiter.getAgentState. rewrite Ha. cbn [fst snd]. cbv zeta.
  rewrite Hn.
  destruct (Z.geb_spec (Z.of_nat n)
              (RateLimiter.queueLimit (RateLimiter.config s))) as [Hge|_];
    [lia|].
  cbn [fst snd RateLimiter.config RateLimiter.agents].
  split; [reflexivity|]. split; [reflexivity|].
  eexists. split; [apply lookup_insert_eq|].
  unfold RateLimiter.processQueue. cbn. rewrite Hp. cbn.
  split; [reflexivity|]. split; [exact Hr|].
  rewrite length_app, Hn. cbn. lia.
Qed.

Lemma enqueue_rejected n now a (t : Task) s :
  RateLimiter.busy_with n a s ->
  (RateLimiter.queueLimit (RateLimiter.config s) <= Z.of_nat n)%Z ->
  snd (RateLimiter.enqueue now a t s)
  = Throw (RateLimiter.RateLimitError "Queue capacity reached").
Proof.
  intros (st & Ha & Hp & Hr & Hn) Hle. rewrite enqueue_unfold.
  unfold RateLimiter.getAgentState. rewrite Ha. cbn [fst snd]. cbv zeta.
  rewrite Hn.
  destruct (Z.geb_spec (Z.of_nat n)
              (RateLimiter.queueLimit (RateLimiter.config s))) as [_|Hlt];
    [reflexivity|lia].
Qed.

Lemma enqueue_all_busy (jobs : list (Z * Task)) n a s :
  RateLimiter.busy_with n a s ->
  (Z.of_nat (n + length jobs) <= RateLimiter.queueLimit (RateLimiter.config s))%Z ->
  RateLimiter.config (RateLimiter.enqueue_all a jobs s) = RateLimiter.config s
  /\ RateLimiter.busy_with (n + length jobs) a (RateLimiter.enqueue_all a jobs s).
Proof.
  revert n s. induction jobs as [|[now t] jobs IH]; intros n s Hbusy Hle.
  - cbn. rewrite Nat.add_0_r. now split.
  - cbn [RateLimiter.enqueue_all fold_left fst snd length] in *.
    destruct (enqueue_busy n now a t s Hbusy) as (_ & Hc & Hbusy'); [lia|].
    destruct (IH (S n) _ Hbusy') as [Hc' Hb'].
    + rewrite Hc. lia.
    + replace (n + S (length jobs))%nat with (S n + length jobs)%nat by lia.
      split; [now rewrite <- Hc|exact Hb'].
Qed.

(** ** One worker per agent *)

Lemma work_single_worker st :
  RateLimiter.processing st = true ->
  RateLimiter.running st = None ->
  RateLimiter.immediate st = false ->
  RateLimiter.single_worker (RateLimiter.work st).
Proof.
  intros Hp Hr Hi. unfold RateLimiter.work.
  destruct (RateLimiter.queue st) as [|job rest].
  - split; cbn; [now split|congruence].
  - destruct (negb (Qle_bool 1 (RateLimiter.tokens st))).
    + split; cbn; [now split|congruence].
    + split; cbn; congruence.
Qed.

Lemma processQueue_single_worker st :
  RateLimiter.single_worker st ->
  RateLimiter.single_worker (RateLimiter.processQueue st).
Proof.
  intros Hsw. unfold RateLimiter.processQueue.
  destruct (RateLimiter.processing st) eqn:Hp; [exact Hsw|].
  destruct Hsw as [Hidle _]. destruct (Hidle Hp) as [Hr Hi].
  now apply work_single_worker.
Qed.

Lemma refill_agent_single_worker c now st :
  RateLimiter.single_worker st ->
  RateLimiter.single_worker (RateLimiter.refill_agent c now st).
Proof.
  intros Hsw. unfold RateLimiter.refill_agent.
  destruct (Qle_bool 1 (RateLimiter.refill_amount c now st)); [|exact Hsw].
  cbv zeta.
  destruct (RateLimiter.queue (RateLimiter.add_tokens c now st));
    [exact Hsw|].
  apply processQueue_single_worker. exact Hsw.
Qed.

Lemma workers_invariant_insert c (m : gmap string AgentState) a st
    (ps : gmap nat (RateLimiter.Settled Value)) n :
  (forall a' st', m !! a' = Some st' -> RateLimiter.single_worker st') ->
  RateLimiter.single_worker st ->
  RateLimiter.workers_invariant (RateLimiter.mkState c (<[a := st]> m) ps n).
Proof.
  intros Hm Hst a' st'. cbn.
  destruct (decide (a = a')) as [->|Hne].
  - rewrite lookup_insert_eq. intros [= <-]. exact Hst.
  - rewrite lookup_insert_ne by exact Hne. apply Hm.
Qed.

Lemma step_workers_invariant s (o : Op) :
  RateLimiter.workers_invariant s ->
  RateLimiter.workers_invariant (RateLimiter.step s o).
Proof.
  intros Hinv.
  assert (Hfresh : forall c now,
            RateLimiter.single_worker
              (RateLimiter.fresh_agent (Task:=Task) c now))
    by (intros; split; cbn; [now split|congruence]).
  destruct o as [now a t|now|a r|a]; cbn [RateLimiter.step].
  - rewrite enqueue_unfold.
    pose proof (getAgentState_lookup now a s) as Hst.
    assert (Hs1 : RateLimiter.workers_invariant
                    (fst (RateLimiter.getAgentState now a s))).
    { unfold RateLimiter.getAgentState.
      destruct (RateLimiter.agents s !! a); [exact Hinv|].
      apply workers_invariant_insert; [exact Hinv|apply Hfresh]. }
    cbv zeta.
    match goal with |- context [if ?b then _ else _] => destruct b end;
      cbn [fst]; [exact Hs1|].
    apply workers_invariant_insert; [exact Hs1|].
    apply processQueue_single_worker. exact (Hs1 _ _ Hst).
  - intros a st. cbn. rewrite lookup_fmap.
    destruct (RateLimiter.agents s !! a) as [st0|] eqn:Ha; cbn; [|discriminate].
    intros [= <-]. apply refill_agent_single_worker. exact (Hinv a st0 Ha).
  - unfold RateLimiter.task_settled.
    destruct (RateLimiter.agents s !! a) as [st|] eqn:Ha; [|exact Hinv].
    destruct (RateLimiter.running st) as [job|] eqn:Hr; [|exact Hinv].
    destruct (Hinv a st Ha) as [Hidle _].
    assert (Hp : RateLimiter.processing st = true).
    { destruct (RateLimiter.processing st) eqn:Hp; [reflexivity|].
      destruct Hidle as [Hnone _]; [first [exact Hp|reflexivity]|congruence]. }
    destruct r; try exact Hinv;
      (apply workers_invariant_insert; [exact Hinv|];
       split; cbn; [congruence|reflexivity]).
  - unfold RateLimiter.run_immediate.
    destruct (RateLimiter.agents s !! a) as [st|] eqn:Ha; [|exact Hinv].
    destruct (RateLimiter.immediate st) eqn:Hi; [|exact Hinv].
    destruct (Hinv a st Ha) as [Hidle Himm].
    apply workers_invariant_insert; [exact Hinv|].
    apply work_single_worker; cbn; [|now apply Himm|reflexivity].
    destruct (RateLimiter.processing st) eqn:Hp; [reflexivity|].
    destruct Hidle as [_ Hfalse]; [first [exact Hp|reflexivity]|congruence].
Qed.

(** Every state a limiter can reach has one worker per agent. *)
Lemma run_workers_invariant (ops : list Op) c :
  RateLimiter.workers_invariant (RateLimiter.run (RateLimiter.create c) ops).
Proof.
  assert (H0 : RateLimiter.workers_invariant
                 (RateLimiter.create (Task:=Task) (Value:=Value) c))
    by (intros a st; cbn; rewrite lookup_empty; discriminate).
  revert H0. generalize (RateLimiter.create (Task:=Task) (Value:=Value) c).
  induction ops as [|o ops IH]; intros s Hs; [exact Hs|].
  cbn [RateLimiter.run fold_left]. apply IH. now apply step_workers_invariant.
Qed.

(** ** The two claims about the limiter *)

(** C5: [enqueue] throws [RateLimitError], which the HTTP boundary maps to
    429 [RATE_LIMITED], exactly when the agent's queue already holds at
    least [queueLimit] entries; otherwise it returns a promise and the job
    is appended to the pending jobs.  With the application's limit of 500
    and 500 enqueued tasks that never settle, one more [enqueue] is
    accepted and the next one is rejected. *)
Theorem enqueue_rejects_exactly_when_full :
  (forall now a (t : Task) (s : LimiterState),
     (snd (RateLimiter.enqueue now a t s)
        = Throw (RateLimiter.RateLimitError "Queue capacity reached")
      <-> (RateLimiter.queueLimit (RateLimiter.config s)
           <= Z.of_nat (length (RateLimiter.queue
                                  (snd (RateLimiter.getAgentState now a s)))))%Z)
     /\ ErrorMapping.mapError
          (Some (RateLimiter.RateLimitError "Queue capacity reached"))
        = ErrorMapping.mkMapped 429 "RATE_LIMITED" "Rate limit exceeded"
     /\ ((Z.of_nat (length (RateLimiter.queue
                              (snd (RateLimiter.getAgentState now a s))))
          < RateLimiter.queueLimit (RateLimiter.config s))%Z ->
         RateLimiter.single_worker (snd (RateLimiter.getAgentState now a s)) ->
         exists p st',
           snd (RateLimiter.enqueue now a t s) = Return p
           /\ RateLimiter.agents (fst (RateLimiter.enqueue now a t s)) !! a
              = Some st'
           /\ RateLimiter.pending_jobs st'
              = RateLimiter.pending_jobs (snd (RateLimiter.getAgentState now a s))
                ++ [RateLimiter.mkJob t p]))
  /\ (forall a (jobs : list (Z * Task)) now1 (t1 : Task) now2 (t2 : Task),
     length jobs = 500%nat ->
     (exists st,
        RateLimiter.agents
          (RateLimiter.enqueue_all a jobs
             (RateLimiter.create (Value:=Value) RateLimiter.default_config)) !! a
        = Some st
        /\ length (RateLimiter.pending_jobs st) = 500%nat)
     /\ (exists p,
        snd (RateLimiter.enqueue now1 a t1
               (RateLimiter.enqueue_all a jobs
                  (RateLimiter.create (Value:=Value) RateLimiter.default_config)))
        = Return p)
     /\ snd (RateLimiter.enqueue now2 a t2
               (fst (RateLimiter.enqueue now1 a t1
                       (RateLimiter.enqueue_all a jobs
                          (RateLimiter.create (Value:=Value)
                             RateLimiter.default_config)))))
        = Throw (RateLimiter.RateLimitError "Queue capacity reached")).
Proof.
  split.
  - intros now a t s. split; [|split; [reflexivity|]].
    + rewrite enqueue_unfold. cbv zeta.
      match goal with |- context [(?x >=? ?y)%Z] =>
        destruct (Z.geb_spec x y) as [Hge|Hlt] end; cbn [snd].
      * split; [lia|reflexivity].
      * split; [discriminate|lia].
    + intros Hlt Hsw. rewrite enqueue_unfold. cbv zeta.
      match goal with |- context [(?x >=? ?y)%Z] =>
        destruct (Z.geb_spec x y) as [Hge|_] end; [lia|].
      cbn [fst snd RateLimiter.agents].
      eexists _, _. split; [reflexivity|].
      split; [apply lookup_insert_eq|].
      now apply processQueue_appends.
  - intros a jobs now1 t1 now2 t2 Hlen.
    destruct jobs as [|[now0 t0] rest]; [discriminate|].
    cbn [length] in Hlen.
    assert (Hrest : length rest = 499%nat) by lia.
    cbn [RateLimiter.enqueue_all fold_left fst snd].
    pose proof (enqueue_first RateLimiter.default_config now0 a t0) as H0.
    specialize (H0 ltac:(vm_compute; discriminate) ltac:(reflexivity)).
    assert (Hc0 : RateLimiter.config
                    (fst (RateLimiter.enqueue now0 a t0
                            (RateLimiter.create (Value:=Value)
                               RateLimiter.default_config)))
                  = RateLimiter.default_config)
      by apply step_config with (o := RateLimiter.OpEnqueue now0 a t0).
    destruct (enqueue_all_busy rest 0 a _ H0) as [Hc Hbusy].
    { rewrite Hc0, Hrest. cbn. lia. }
    change (fold_left _ rest ?s0) with (RateLimiter.enqueue_all a rest s0).
    rewrite Hrest in Hbusy. cbn [Nat.add] in Hbusy. rewrite Hc0 in Hc.
    destruct (enqueue_busy 499 now1 a t1 _ Hbusy) as (Hret & Hc1 & Hbusy1).
    { rewrite Hc. cbn. lia. }
    split; [|split].
    + destruct Hbusy as (st & Ha & _ & [job Hr] & Hq).
      exists st. split; [exact Ha|].
      unfold RateLimiter.pending_jobs. rewrite Hr. cbn. lia.
    + eexists. exact Hret.
    + apply (enqueue_rejected 500 now2 a t2 _ Hbusy1).
      rewrite Hc1, Hc. cbn. lia.
Qed.

(** C10: with a [burst] that is a non-negative double, [0 <= tokens <=
    burst] holds for every agent in every state the limiter can reach and
    is preserved by every operation; a new agent starts with [tokens =
    burst]; a refill of at least one token sets [tokens] to [min(burst,
    tokens + elapsed * tokensPerMinute)] (less the one token of a job it
    then starts) and a smaller one changes nothing; [work] takes exactly
    one token, and only when [tokens >= 1].  Sums, differences, products
    and quotients are those of the program: each is rounded to the
    nearest double. *)
Theorem token_bucket_invariant (c : RateLimiter.Config) (ops : list Op) :
  (0 <= RateLimiter.burst c)%Q ->
  Double.is_double (RateLimiter.burst c) ->
  RateLimiter.bucket_invariant (RateLimiter.run (RateLimiter.create c) ops)
  /\ (forall s (o : Op),
        RateLimiter.config s = c ->
        RateLimiter.bucket_invariant s ->
        RateLimiter.bucket_invariant (RateLimiter.step s o))
  /\ (forall now,
        RateLimiter.tokens (RateLimiter.fresh_agent (Task:=Task) c now)
        = RateLimiter.burst c)
  /\ (forall now st,
        let elapsed :=
          Double.div
            (Double.sub (inject_Z now) (inject_Z (RateLimiter.lastRefill st)))
            (60000 # 1) in
        let refill := Double.mul elapsed (RateLimiter.tokensPerMinute c) in
        let filled :=
          Qmin (RateLimiter.burst c)
               (Double.add (RateLimiter.tokens st) refill) in
        (~ (1 <= refill)%Q -> RateLimiter.refill_agent c now st = st)
        /\ ((1 <= refill)%Q ->
            RateLimiter.tokens (RateLimiter.refill_agent c now st) = filled
            \/ ((1 <= filled)%Q
                /\ RateLimiter.tokens (RateLimiter.refill_agent c now st)
                   = Double.sub filled 1)))
  /\ (forall st,
        RateLimiter.tokens (RateLimiter.work st) = RateLimiter.tokens st
        \/ ((1 <= RateLimiter.tokens st)%Q
            /\ RateLimiter.tokens (RateLimiter.work st)
               = Double.sub (RateLimiter.tokens st) 1)).
Proof.
  intros Hb Hd.
  assert (Hwork : forall st,
            RateLimiter.tokens (RateLimiter.work st) = RateLimiter.tokens st
            \/ ((1 <= RateLimiter.tokens st)%Q
                /\ RateLimiter.tokens (RateLimiter.work st)
                   = Double.sub (RateLimiter.tokens st) 1)).
  { intros st. unfold RateLimiter.work.
    destruct (RateLimiter.queue st) as [|job rest]; [now left|].
    destruct (Qle_bool 1 (RateLimiter.tokens st)) eqn:E; cbn [negb].
    - right. apply Qle_bool_iff in E. now split.
    - now left. }
  split; [|split; [|split; [|split]]].
  - apply run_bucket_invariant; [exact Hb|exact Hd|].
    intros a st. cbn. rewrite lookup_empty. discriminate.
  - intros s o <- Hinv. now apply step_bucket_invariant.
  - reflexivity.
  - intros now st elapsed refill filled. unfold RateLimiter.refill_agent.
    change refill with (RateLimiter.refill_amount c now st) in *.
    destruct (Qle_bool 1 (RateLimiter.refill_amount c now st)) eqn:E.
    + split; [intros Hn; apply Qle_bool_iff in E; now destruct Hn|].
      intros _. cbv zeta.
      destruct (RateLimiter.queue (RateLimiter.add_tokens c now st));
        [now left|].
      unfold RateLimiter.processQueue.
      destruct (RateLimiter.processing (RateLimiter.add_tokens c now st));
        [now left|].
      exact (Hwork (RateLimiter.set_processing true
                      (RateLimiter.add_tokens c now st))).
    + split; [reflexivity|].
      intros Hge. apply Qle_bool_iff in Hge. congruence.
  - exact Hwork.
Qed.

End LimiterFacts.

Lemma enqueue_rejects_exactly_when_full_witness :
  (exists p st',
     snd (RateLimiter.enqueue 0 "a1" 7%nat
            (RateLimiter.create (Value:=unit) RateLimiter.default_config))
     = Return p
     /\ RateLimiter.agents
          (fst (RateLimiter.enqueue 0 "a1" 7%nat
                  (RateLimiter.create (Value:=unit) RateLimiter.default_config)))
          !! "a1" = Some st'
     /\ RateLimiter.pending_jobs st' = [] ++ [RateLimiter.mkJob 7%nat p])
  /\ snd (RateLimiter.enqueue 2 "a1" 9%nat
            (fst (RateLimiter.enqueue 1 "a1" 8%nat
                    (RateLimiter.enqueue_all "a1" (repeat (0, 7%nat) 500)
                       (RateLimiter.create (Value:=unit)
                          RateLimiter.default_config)))))
     = Throw (RateLimiter.RateLimitError "Queue capacity reached").
Proof.
  destruct (@enqueue_rejects_exactly_when_full nat unit) as [Hone Hmany].
  split.
  - destruct (Hone 0 "a1" 7%nat
                (RateLimiter.create RateLimiter.default_config))
      as (_ & _ & Happend).
    apply Happend.
    + vm_compute. reflexivity.
    + split; intros _; [split|]; reflexivity.
  - destruct (Hmany "a1" (repeat (0, 7%nat) 500) 1 8%nat 2 9%nat)
      as (_ & _ & Hreject).
    + vm_compute. reflexivity.
    + exact Hreject.
Defined.

Lemma token_bucket_invariant_witness :
  RateLimiter.bucket_invariant
    (RateLimiter.run (RateLimiter.create RateLimiter.default_config)
       [ RateLimiter.OpEnqueue 0 "a1" 7%nat;
         RateLimiter.OpRefill 700;
         RateLimiter.OpTaskSettled "a1" (RateLimiter.Resolved tt);
         RateLimiter.OpImmediate "a1" ]).
Proof.
  refine (proj1 (token_bucket_invariant RateLimiter.default_config _ _ _)).
  - unfold Qle. cbn. lia.
  - vm_compute. reflexivity.
Defined.

(** Rounding is observable.  The bucket of [a1] is drained by 100 jobs and
    6 more wait; refills follow after 600, 1700 and 700 ms, each job
    finishing at once.  The three refills add up to five tokens, but the
    last sum is [0.8333333333333335 + 1.1666666666666667 =
    1.9999999999999998]: four jobs are started, two wait and
    [0.9999999999999998] token is left. *)
Lemma refill_rounding_trace :
  let finish :=
    [ RateLimiter.OpTaskSettled "a1" (RateLimiter.Resolved tt);
      RateLimiter.OpImmediate "a1" ] in
  let ops :=
    concat (repeat (RateLimiter.OpEnqueue 0 "a1" 7%nat :: finish) 100)
    ++ repeat (RateLimiter.OpEnqueue 0 "a1" 7%nat) 6
    ++ RateLimiter.OpRefill 600 :: finish
    ++ RateLimiter.OpRefill 2300 :: finish ++ finish
    ++ RateLimiter.OpRefill 3000 :: finish ++ finish in
  exists st,
    RateLimiter.agents
      (RateLimiter.run (RateLimiter.create RateLimiter.default_config) ops)
      !! "a1" = Some st
    /\ RateLimiter.tokens st = 4503599627370495 # 4503599627370496
    /\ length (RateLimiter.queue st) = 2%nat
    /\ RateLimiter.processing st = false.
Proof. vm_compute. eexists. repeat split; reflexivity. Qed.

(* ===================================================================== *)
(** * Properties of media preparation                                     *)
(* ===================================================================== *)

Lemma load_media_without_url w a f m :
  truthy (Media.data a) = true ->
  Media.load_media w a f m = Media.load_media w (Media.without_url a) f m.
Proof. intros Hd. unfold Media.load_media. cbn. now rewrite Hd. Qed.

Lemma load_media_data_errors w a f m e :
  truthy (Media.data a) = true ->
  Media.load_media w a f m = Throw e ->
  e = CodedError "Media exceeds 10MB" "MEDIA_TOO_LARGE".
Proof.
  intros Hd. unfold Media.load_media. rewrite Hd.
  match goal with |- context [if ?b then _ else _] => destruct b end;
    [now intros [= <-]|discriminate].
Qed.

(** With the default file name in force, [load_media] never replaces it. *)
Lemma load_media_keeps_nonempty_filename w a f m buffer mime name :
  f <> "" ->
  Media.load_media w a f m = Return (buffer, mime, name) ->
  name = f.
Proof.
  intros Hf. unfold Media.load_media.
  destruct (truthy (Media.data a)).
  - match goal with |- context [if ?b then _ else _] => destruct b end;
      [discriminate|now intros [= _ _ <-]].
  - destruct (truthy (Media.url a)); [|discriminate].
    destruct (Media.axios_head w _) as [size|]; [|discriminate].
    destruct (Media.size_rejected size); [discriminate|].
    destruct (Media.axios_get w _) as [response|]; [|discriminate].
    cbn. destruct (String.eqb_spec f "") as [->|_]; [congruence|].
    now intros [= _ _ <-].
Qed.

(** The claim as stated fails: a call with both [data] and [url] does not
    fail with [INVALID_PAYLOAD]. *)
Lemma prepareMedia_both_supplied_counterexample :
  ~ (forall w a,
       truthy (Media.data a) = true -> truthy (Media.url a) = true ->
       exists e, Media.prepareMedia w a = Throw e
                 /\ err_code e = Some "INVALID_PAYLOAD").
Proof.
  intros H.
  destruct (H Media.example_world Media.args_both eq_refl eq_refl)
    as (e & Hthrow & _).
  vm_compute in Hthrow. discriminate Hthrow.
Qed.

(** C2, amended: [prepareMedia] fails with [INVALID_PAYLOAD] when neither
    [data] nor [url] is supplied; when [data] is supplied, [url] is
    ignored whether present or not: the call equals the call without
    [url], and the only error that loading the media raises is
    [MEDIA_TOO_LARGE]. *)
Theorem prepareMedia_source_selection (w : Media.World) (a : Media.Args) :
  (truthy (Media.data a) = false -> truthy (Media.url a) = false ->
     Media.prepareMedia w a =
       Throw (CodedError "Either data or url is required" "INVALID_PAYLOAD"))
  /\ (truthy (Media.data a) = true ->
     Media.prepareMedia w a = Media.prepareMedia w (Media.without_url a)
     /\ forall f m e,
          Media.load_media w a f m = Throw e ->
          err_code e = Some "MEDIA_TOO_LARGE").
Proof.
  split.
  - intros Hd Hu. unfold Media.prepareMedia, Media.load_media.
    rewrite Hd, Hu. reflexivity.
  - intros Hd. split.
    + unfold Media.prepareMedia. cbn [Media.without_url Media.filename
        Media.mimeType Media.save_to_temp].
      now rewrite (load_media_without_url w a _ _ Hd).
    + intros f m e He. now rewrite (load_media_data_errors w a f m e Hd He).
Qed.

Lemma prepareMedia_source_selection_witness :
  Media.prepareMedia Media.example_world (Media.mkArgs None None None None None)
    = Throw (CodedError "Either data or url is required" "INVALID_PAYLOAD")
  /\ Media.prepareMedia Media.example_world Media.args_both
     = Media.prepareMedia Media.example_world
         (Media.without_url Media.args_both).
Proof.
  split.
  - apply (proj1 (prepareMedia_source_selection Media.example_world
                    (Media.mkArgs None None None None None)));
      reflexivity.
  - apply (proj2 (prepareMedia_source_selection Media.example_world
                    Media.args_both)).
    reflexivity.
Defined.

(** C8, what the code does: when [filename] is omitted the default
    parameter ['image.jpg'] is in force before the URL is looked at, so the
    produced handle is always named ['image.jpg'], whatever the path of the
    URL. *)
Theorem prepareMedia_omitted_filename_is_default
    (w : Media.World) (a : Media.Args) (r : Media.Prepared) :
  Media.filename a = None ->
  Media.prepareMedia w a = Return r ->
  Media.media_filename (Media.media r) = "image.jpg".
Proof.
  intros Hf. unfold Media.prepareMedia. rewrite Hf. cbn [default].
  destruct (Media.load_media w a "image.jpg" _) as [[[buffer mime] name]|e]
    eqn:Hload; [|discriminate].
  apply load_media_keeps_nonempty_filename in Hload; [|discriminate].
  subst name. cbn.
  destruct (default true (Media.save_to_temp a)).
  - destruct (Media.fs_mkdir w _); [|discriminate]. cbn.
    destruct (Media.fs_writeFile w _ _); [|discriminate]. cbn.
    now intros [= <-].
  - now intros [= <-].
Qed.

Lemma prepareMedia_omitted_filename_is_default_witness :
  Media.prepareMedia Media.example_world Media.args_url_only
    = Return (Media.mkPrepared
                (Media.mkMessageMedia "image/png" "ZmFrZQ==" "image.jpg")
                (Some "/tmp/wwebjs/1700000000000-image.jpg"))
  /\ Media.media_filename
       (Media.media
          (Media.mkPrepared
             (Media.mkMessageMedia "image/png" "ZmFrZQ==" "image.jpg")
             (Some "/tmp/wwebjs/1700000000000-image.jpg")))
     = "image.jpg".
Proof.
  split; [reflexivity|].
  apply (prepareMedia_omitted_filename_is_default Media.example_world
           Media.args_url_only); reflexivity.
Defined.

(** The derivation from the URL path is reached only when an empty file
    name is passed explicitly. *)
Example prepareMedia_empty_filename_uses_url :
  Media.prepareMedia Media.example_world Media.args_url_empty_filename
    = Return (Media.mkPrepared
                (Media.mkMessageMedia "image/png" "ZmFrZQ==" "pic.png")
                (Some "/tmp/wwebjs/1700000000000-pic.png")).
Proof. reflexivity. Qed.

(* ===================================================================== *)
(** * Properties of the session supervisor                                *)
(* ===================================================================== *)

(** ** Teardown *)

(** Case analysis on the innermost tests of [teardownClient]. *)
Ltac innermost_case :=
  match goal with
  | |- context [match ?x with _ => _ end] =>
      lazymatch x with
      | context [match _ with _ => _ end] => fail
      | _ => destruct x
      end
  end.

Ltac teardown_cases :=
  unfold Manager.teardownClient;
  repeat (innermost_case; cbn [fst snd]).

Lemma teardown_preserveDb_returns now io a clearAuth s :
  snd (Manager.teardownClient now io a true clearAuth s) = Return tt.
Proof. teardown_cases; reflexivity. Qed.

Lemma teardown_sessions now io a preserveDb clearAuth s :
  Manager.sessions (fst (Manager.teardownClient now io a preserveDb clearAuth s))
  = delete a (Manager.sessions s).
Proof. teardown_cases; reflexivity. Qed.

Lemma teardown_readyPromises now io a preserveDb clearAuth s :
  Manager.readyPromises
    (fst (Manager.teardownClient now io a preserveDb clearAuth s))
  = delete a (Manager.readyPromises s).
Proof. teardown_cases; reflexivity. Qed.

Lemma teardown_promises now io a preserveDb clearAuth s :
  Manager.promises (fst (Manager.teardownClient now io a preserveDb clearAuth s))
  = Manager.promises s
  /\ Manager.qrTimers
       (fst (Manager.teardownClient now io a preserveDb clearAuth s))
     = Manager.qrTimers s.
Proof. teardown_cases; split; reflexivity. Qed.

Lemma teardown_next_ref now io a preserveDb clearAuth s :
  Manager.next_ref (fst (Manager.teardownClient now io a preserveDb clearAuth s))
  = Manager.next_ref s.
Proof. teardown_cases; reflexivity. Qed.

Lemma teardown_destroys_client now io a preserveDb clearAuth s ref x :
  Manager.session_of a s = Some (ref, x) ->
  In (Manager.ClientDestroyed (Manager.client x))
     (Manager.effects
        (fst (Manager.teardownClient now io a preserveDb clearAuth s))).
Proof.
  intros Hs. unfold Manager.teardownClient. rewrite Hs.
  repeat (innermost_case; cbn [fst snd]);
    cbn; rewrite ?in_app_iff; cbn; tauto.
Qed.

Lemma teardown_session_gone now io a preserveDb clearAuth s :
  Manager.session_of a
    (fst (Manager.teardownClient now io a preserveDb clearAuth s)) = None.
Proof.
  unfold Manager.session_of.
  rewrite teardown_sessions, lookup_delete_eq. reflexivity.
Qed.

(** ** Restart after a disconnect *)

Lemma ensureClient_creates now io agentRecord s :
  Manager.fs_error io = None ->
  Manager.session_of (Manager.agent_id agentRecord) s = None ->
  let ref := Manager.next_ref s in
  let s' := fst (Manager.ensureClient now io agentRecord s) in
  snd (Manager.ensureClient now io agentRecord s)
    = Return (ref, Manager.mkSession agentRecord ref None None false
                     (Manager.status agentRecord) now false false agentRecord)
  /\ Manager.sessions s' !! Manager.agent_id agentRecord = Some ref
  /\ Manager.heap s' !! ref
     = Some (Manager.mkSession agentRecord ref None None false
               (Manager.status agentRecord) now false false agentRecord)
  /\ Manager.effects s'
     = Manager.effects s
       ++ [Manager.ClientCreated ref (Manager.agent_id agentRecord)].
Proof.
  intros Hfs Hnone. unfold Manager.ensureClient. rewrite Hnone, Hfs. cbn.
  rewrite !lookup_insert_eq. repeat split; reflexivity.
Qed.

(** C1, what the code does: when the restart timer of an agent fires and
    the database has no record of the agent, the restart is not aborted.
    [freshRecord] falls back to the record captured when the timer was
    set, the old client is destroyed and a new client is created for the
    stale record. *)
Theorem restart_proceeds_without_record now io agentId s t :
  Manager.db_error io = None ->
  Manager.fs_error io = None ->
  Manager.reconnectTimers s !! agentId = Some t ->
  Manager.agent_id (Manager.rt_record t) = agentId ->
  Manager.db s !! agentId = None ->
  let s' := Manager.restart_timer_fired now io agentId s in
  let ref := Manager.next_ref s in
  Manager.sessions s' !! agentId = Some ref
  /\ Manager.heap s' !! ref
     = Some (Manager.mkSession (Manager.rt_record t) ref None None false
               (Manager.status (Manager.rt_record t)) now false false
               (Manager.rt_record t))
  /\ (exists before,
        Manager.effects s' = before ++ [Manager.ClientCreated ref agentId])
  /\ (forall ref0 x,
        Manager.session_of agentId s = Some (ref0, x) ->
        In (Manager.ClientDestroyed (Manager.client x)) (Manager.effects s')).
Proof.
  intros Hdb Hfs Ht Hid Hrow s' ref. subst s' ref.
  unfold Manager.restart_timer_fired. rewrite Ht.
  unfold Manager.getAgent. rewrite Hdb. cbn [Manager.db Manager.set_reconnectTimers].
  rewrite Hrow. cbn [default].
  set (s1 := Manager.set_reconnectTimers _ s).
  pose proof (teardown_preserveDb_returns now io agentId (Manager.rt_clearAuth t) s1)
    as Hret.
  pose proof (teardown_session_gone now io agentId true (Manager.rt_clearAuth t) s1)
    as Hgone.
  pose proof (teardown_next_ref now io agentId true (Manager.rt_clearAuth t) s1)
    as Hnext.
  destruct (Manager.teardownClient now io agentId true (Manager.rt_clearAuth t) s1)
    as [s2 r] eqn:Htd.
  cbn [fst snd] in Hret, Hgone, Hnext. subst r.
  rewrite <- Hid in Hgone.
  destruct (ensureClient_creates now io (Manager.rt_record t) s2 Hfs Hgone)
    as (Hr & Hsess & Hheap & Heff).
  destruct (Manager.ensureClient now io (Manager.rt_record t) s2) as [s3 r3].
  cbn [fst snd] in Hr, Hsess, Hheap, Heff. subst r3.
  rewrite Hnext, Hid in *. change (Manager.next_ref s1) with (Manager.next_ref s) in *.
  repeat split; [exact Hsess|exact Hheap|eauto|].
  intros ref0 x Hs.
  rewrite Heff, in_app_iff. left.
  pose proof (teardown_destroys_client now io agentId true
                (Manager.rt_clearAuth t) s1 ref0 x Hs) as Hin.
  now rewrite Htd in Hin.
Qed.

Lemma restart_proceeds_without_record_witness :
  Manager.db Manager.example_row_removed !! "a1" = None
  /\ Manager.sessions
       (Manager.restart_timer_fired 8000 Manager.io_ok "a1"
          Manager.example_row_removed) !! "a1"
     = Some 1%nat
  /\ In (Manager.ClientDestroyed 0)
        (Manager.effects
           (Manager.restart_timer_fired 8000 Manager.io_ok "a1"
              Manager.example_row_removed)).
Proof.
  split; [reflexivity|].
  destruct (restart_proceeds_without_record 8000 Manager.io_ok "a1"
              Manager.example_row_removed
              (Manager.mkTimer Manager.example_agent "LOGOUT" true 1 5000))
    as (Hsess & _ & _ & Hdestroy); try reflexivity.
  split; [exact Hsess|].
  exact (Hdestroy 0%nat _ eq_refl).
Defined.

(** ** The QR rendezvous *)

(** A settled promise is not settled again. *)
Lemma settle_keeps (q p : nat) (r0 r : Manager.QrSettled)
    (ps : gmap nat Manager.QrSettled) :
  ps !! p = Some r0 -> r0 <> Manager.QrPending ->
  Manager.settle q r ps !! p = Some r0.
Proof.
  intros Hp Hr0. unfold Manager.settle.
  destruct (ps !! q) as [[| |]|] eqn:Hq; try exact Hp.
  destruct (decide (q = p)) as [->|Hne]; [congruence|].
  now rewrite lookup_insert_ne.
Qed.

Lemma settle_pending (p : nat) (r : Manager.QrSettled)
    (ps : gmap nat Manager.QrSettled) :
  ps !! p = Some Manager.QrPending -> Manager.settle p r ps !! p = Some r.
Proof.
  intros Hp. unfold Manager.settle. rewrite Hp. apply lookup_insert_eq.
Qed.

Lemma updateStatus_promises now io agentRecord st extra s s' :
  Manager.updateStatus now io agentRecord st extra s = Return s' ->
  Manager.promises s' = Manager.promises s.
Proof.
  unfold Manager.updateStatus.
  repeat innermost_case; intros [= <-]; reflexivity.
Qed.

Lemma scheduleSessionRestart_promises agentRecord reason clearAuth attempt
    delayMs s :
  Manager.promises
    (Manager.scheduleSessionRestart agentRecord reason clearAuth attempt
       delayMs s)
  = Manager.promises s.
Proof.
  unfold Manager.scheduleSessionRestart. cbv zeta.
  destruct (Manager.reconnectTimers s !! _); reflexivity.
Qed.

(** No client event changes a promise that is already settled. *)
Lemma handle_event_keeps_settled now io ref ev s p r :
  Manager.promises s !! p = Some r -> r <> Manager.QrPending ->
  Manager.promises (Manager.handle_event now io ref ev s) !! p = Some r.
Proof.
  intros Hp Hr.
  destruct ev as [encoded| | |reason]; cbn [Manager.handle_event].
  - unfold Manager.on_qr.
    destruct (Manager.heap s !! ref) as [session|]; [|exact Hp]. cbv zeta.
    destruct (Manager.updateStatus now io _ _ _ _) as [s2|e] eqn:Hup;
      [|exact Hp].
    apply updateStatus_promises in Hup. cbn in Hup.
    destruct (Manager.readyPromises s2 !! _) as [pending|].
    + unfold Manager.entry_resolve. cbn. rewrite Hup.
      now apply settle_keeps.
    + now rewrite Hup.
  - unfold Manager.on_ready.
    destruct (Manager.heap s !! ref) as [session|]; [|exact Hp]. cbv zeta.
    destruct (Manager.updateStatus now io _ _ _ _) as [s2|e] eqn:Hup.
    + apply updateStatus_promises in Hup. rewrite Hup.
      destruct (Manager.metricsCounted _); exact Hp.
    + destruct (Manager.metricsCounted _); exact Hp.
  - unfold Manager.on_auth_failure.
    destruct (Manager.heap s !! ref) as [session|]; [|exact Hp].
    destruct (Manager.shuttingDown session); [exact Hp|]. cbv zeta.
    destruct (Manager.updateStatus now io _ _ _ _) as [s2|e] eqn:Hup;
      [|exact Hp].
    apply updateStatus_promises in Hup.
    now rewrite scheduleSessionRestart_promises, Hup.
  - unfold Manager.on_disconnected.
    destruct (Manager.heap s !! ref) as [session|]; [|exact Hp].
    destruct (Manager.shuttingDown session); [exact Hp|]. cbv zeta.
    destruct (Manager.updateStatus now io _ _ _ _) as [s2|e] eqn:Hup.
    + apply updateStatus_promises in Hup.
      rewrite scheduleSessionRestart_promises, Hup.
      destruct (Manager.metricsCounted _); exact Hp.
    + destruct (Manager.metricsCounted _); exact Hp.
Qed.

Lemma session_of_Some a s ref x :
  Manager.session_of a s = Some (ref, x)
  <-> Manager.sessions s !! a = Some ref /\ Manager.heap s !! ref = Some x.
Proof.
  unfold Manager.session_of. split.
  - destruct (Manager.sessions s !! a) as [r|]; cbn; [|discriminate].
    destruct (Manager.heap s !! r) as [y|] eqn:E; cbn; [|discriminate].
    intros [= <- <-]. now split.
  - intros [-> H]. cbn. now rewrite H.
Qed.

Lemma session_of_None a s :
  Manager.sessions s !! a = None -> Manager.session_of a s = None.
Proof. intros H. unfold Manager.session_of. now rewrite H. Qed.

(** [updateStatus] writes to the database only. *)
Lemma updateStatus_frame now io agentRecord st extra s s' :
  Manager.updateStatus now io agentRecord st extra s = Return s' ->
  exists d, s' = Manager.set_db d s.
Proof.
  unfold Manager.updateStatus.
  repeat innermost_case; intros [= <-];
    first [eexists; reflexivity
          |exists (Manager.db s); now destruct s].
Qed.

(** C3, what the code does.  For an agent with a pending QR waiter,
    [teardownClient] removes the live session and deletes the waiter from
    the registry, but calls neither [entry.reject] nor [entry.resolve]:
    the promise is still pending and its time-out is still armed.  The
    other two paths that delete a registry entry, the ['qr'] handler and
    the time-out, settle the promise they delete.  The time-out that
    teardown leaves armed deletes by agent id: when the agent gets a new
    client and a new waiter, the old time-out rejects the old promise
    and removes the new waiter from the registry, so that the next ['qr']
    event of the new client resolves nobody and the new promise is still
    pending.  What does hold of the claim: a promise that is resolved or
    rejected is changed by no later resolve, reject, time-out or client
    event. *)
Theorem teardown_leaves_waiter_pending now io a preserveDb clearAuth s p :
  Manager.readyPromises s !! a = Some p ->
  Manager.promises s !! p = Some Manager.QrPending ->
  Manager.qrTimers s !! p = Some a ->
  (p < Manager.next_ref s)%nat ->
  let s1 := fst (Manager.teardownClient now io a preserveDb clearAuth s) in
  let timed_out :=
    Manager.QrRejected
      (CodedError "QR generation timed out" "SESSION_NOT_READY") in
  Manager.sessions s1 !! a = None
  /\ Manager.readyPromises s1 !! a = None
  /\ Manager.promises s1 !! p = Some Manager.QrPending
  /\ Manager.qrTimers s1 !! p = Some a
  /\ (forall now1 io1 agentRecord,
        Manager.agent_id agentRecord = a ->
        Manager.fs_error io1 = None ->
        let s2 := fst (Manager.ensureClient now1 io1 agentRecord s1) in
        let s3 := fst (Manager.waitForQr a s2) in
        let s4 := Manager.qr_timeout p s3 in
        exists p',
          snd (Manager.waitForQr a s2) = Manager.WaitPromise p'
          /\ p' <> p
          /\ Manager.readyPromises s3 !! a = Some p'
          /\ Manager.promises s4 !! p = Some timed_out
          /\ Manager.readyPromises s4 !! a = None
          /\ Manager.promises s4 !! p' = Some Manager.QrPending
          /\ (forall now2 io2 encoded,
                Manager.promises
                  (Manager.on_qr now2 io2 (Manager.next_ref s) encoded s4) !! p'
                = Some Manager.QrPending))
  /\ (forall s0 q r,
        Manager.promises s0 !! q = Some r -> r <> Manager.QrPending ->
        (forall v, Manager.promises (Manager.entry_resolve q v s0) !! q = Some r)
        /\ (forall e, Manager.promises (Manager.entry_reject q e s0) !! q = Some r)
        /\ Manager.promises (Manager.qr_timeout q s0) !! q = Some r
        /\ (forall now' io' ref ev,
              Manager.promises (Manager.handle_event now' io' ref ev s0) !! q
              = Some r)).
Proof.
  intros Hw Hp Ht Hlt s1 timed_out.
  destruct (teardown_promises now io a preserveDb clearAuth s) as [Hps Hts].
  pose proof (teardown_readyPromises now io a preserveDb clearAuth s) as Hrs.
  pose proof (teardown_next_ref now io a preserveDb clearAuth s) as Hnext.
  pose proof (teardown_session_gone now io a preserveDb clearAuth s) as Hgone.
  fold s1 in Hps, Hts, Hrs, Hnext, Hgone.
  assert (Hr1 : Manager.readyPromises s1 !! a = None)
    by (rewrite Hrs; apply lookup_delete_eq).
  split; [subst s1; now rewrite teardown_sessions, lookup_delete_eq|].
  split; [exact Hr1|].
  split; [now rewrite Hps|].
  split; [now rewrite Hts|].
  split.
  - intros now1 io1 agentRecord Hid Hfs.
    set (ref := Manager.next_ref s1).
    set (x := Manager.mkSession agentRecord ref None None false
                (Manager.status agentRecord) now1 false false agentRecord).
    assert (Hs2 : Manager.ensureClient now1 io1 agentRecord s1
                  = (Manager.emit (Manager.ClientCreated ref a)
                       (Manager.set_next_ref (S ref)
                          (Manager.set_sessions (<[a := ref]> (Manager.sessions s1))
                             (Manager.set_heap (<[ref := x]> (Manager.heap s1)) s1))),
                     Return (ref, x))).
    { unfold Manager.ensureClient. rewrite Hid, Hgone, Hfs. reflexivity. }
    rewrite Hs2. cbn [fst]. clear Hs2.
    set (s2 := Manager.emit _ _).
    assert (Hsess2 : Manager.session_of a s2 = Some (ref, x)).
    { apply session_of_Some. subst s2. cbn.
      split; apply lookup_insert_eq. }
    assert (Hw3 : Manager.waitForQr a s2
                  = (Manager.set_readyPromises
                       (<[a := S ref]> (Manager.readyPromises s2))
                       (Manager.set_qrTimers (<[S ref := a]> (Manager.qrTimers s2))
                          (Manager.set_promises
                             (<[S ref := Manager.QrPending]> (Manager.promises s2))
                             (Manager.set_next_ref (S (S ref)) s2))),
                     Manager.WaitPromise (S ref))).
    { unfold Manager.waitForQr. rewrite Hsess2. cbn [Manager.qr x].
      subst s2. cbn. rewrite Hr1. reflexivity. }
    rewrite Hw3. cbn [fst snd]. clear Hw3.
    assert (Hne : S ref <> p) by (subst ref; rewrite Hnext; lia).
    exists (S ref).
    split; [reflexivity|]. split; [exact Hne|].
    split; [cbn; apply lookup_insert_eq|].
    assert (Ht3 : <[S ref := a]> (Manager.qrTimers s1) !! p = Some a)
      by (rewrite lookup_insert_ne by exact Hne; now rewrite Hts).
    unfold Manager.qr_timeout. subst s2. cbn. rewrite Ht3.
    unfold Manager.entry_reject. cbn.
    assert (Hp3 : <[S ref := Manager.QrPending]> (Manager.promises s1) !! p
                  = Some Manager.QrPending)
      by (rewrite lookup_insert_ne by exact Hne; now rewrite Hps).
    split; [now apply settle_pending|].
    split; [apply lookup_delete_eq|].
    assert (Hp' : Manager.settle p timed_out
                    (<[S ref := Manager.QrPending]> (Manager.promises s1))
                  !! S ref = Some Manager.QrPending).
    { unfold Manager.settle. rewrite Hp3.
      rewrite lookup_insert_ne by (intros E; apply Hne; now rewrite E).
      apply lookup_insert_eq. }
    split; [exact Hp'|].
    intros now2 io2 encoded. rewrite <- Hnext. fold ref.
    unfold Manager.on_qr. cbn. rewrite lookup_insert_eq. cbn.
    match goal with
    | |- context [Manager.updateStatus ?n ?i ?r ?st ?e ?s0] =>
        destruct (Manager.updateStatus n i r st e s0) as [s5|err] eqn:Hup
    end; [|exact Hp'].
    apply updateStatus_frame in Hup as [d ->]. cbn. rewrite Hid.
    rewrite lookup_delete_eq. exact Hp'.
  - intros s0 q r Hr Hne. repeat split.
    + intros v. unfold Manager.entry_resolve. cbn. now apply settle_keeps.
    + intros e. unfold Manager.entry_reject. cbn. now apply settle_keeps.
    + unfold Manager.qr_timeout.
      destruct (Manager.qrTimers s0 !! q); [|exact Hr].
      unfold Manager.entry_reject. cbn. now apply settle_keeps.
    + intros now' io' ref ev. now apply handle_event_keeps_settled.
Qed.

Lemma teardown_leaves_waiter_pending_witness :
  Manager.promises
    (fst (Manager.teardownClient 5000 Manager.io_ok "a1" true false
            Manager.example_waiting)) !! 1%nat
  = Some Manager.QrPending
  /\ Manager.readyPromises
       (fst (Manager.teardownClient 5000 Manager.io_ok "a1" true false
               Manager.example_waiting)) !! "a1"
     = None.
Proof.
  destruct (teardown_leaves_waiter_pending 5000 Manager.io_ok "a1" true
              false Manager.example_waiting 1%nat)
    as (_ & Hgone & Hpending & _); try reflexivity.
  - vm_compute. lia.
  - split; [exact Hpending|exact Hgone].
Defined.

(** ** The state machine of a session *)

(** C4, what the code does: the ['qr'] handler sets [status] to
    [awaiting_qr] and leaves [isReady] as it is, so a ['qr'] event that
    follows ['ready'] yields a session with [isReady = true] and
    [status = awaiting_qr]. *)
Theorem qr_after_ready_breaks_invariant :
  exists x,
    Manager.heap
      (Manager.handle_events 2000 Manager.io_ok 0
         [Manager.EvReady; Manager.EvQr (Some "iVBORw0KGgo=")]
         Manager.example_started) !! 0%nat = Some x
    /\ Manager.isReady x = true
    /\ Manager.live_status x = Manager.awaiting_qr
    /\ ~ Manager.ready_implies_connected x.
Proof.
  eexists. split; [vm_compute; reflexivity|].
  split; [reflexivity|]. split; [reflexivity|].
  intros H. specialize (H eq_refl). discriminate H.
Qed.

Lemma sessions_ok_insert (h : gmap nat Manager.Session) ref x :
  Manager.sessions_ok h -> Manager.ready_implies_connected x ->
  Manager.sessions_ok (<[ref := x]> h).
Proof.
  intros Hh Hx ref' x'. destruct (decide (ref = ref')) as [->|Hne].
  - rewrite lookup_insert_eq. now intros [= <-].
  - rewrite lookup_insert_ne by exact Hne. apply Hh.
Qed.

Lemma updateStatus_heap now io agentRecord st extra s s' :
  Manager.updateStatus now io agentRecord st extra s = Return s' ->
  Manager.heap s' = Manager.heap s.
Proof.
  unfold Manager.updateStatus.
  repeat innermost_case; intros [= <-]; reflexivity.
Qed.

Lemma scheduleSessionRestart_heap agentRecord reason clearAuth attempt
    delayMs s :
  Manager.heap
    (Manager.scheduleSessionRestart agentRecord reason clearAuth attempt
       delayMs s)
  = Manager.heap s.
Proof.
  unfold Manager.scheduleSessionRestart. cbv zeta.
  destruct (Manager.reconnectTimers s !! _); reflexivity.
Qed.

(** The handlers of ['ready'], ['auth_failure'] and ['disconnected'] keep
    the invariant: they set [isReady] together with [status]. *)
Lemma other_events_keep_invariant now io ref ev s :
  (forall encoded, ev <> Manager.EvQr encoded) ->
  Manager.sessions_ok (Manager.heap s) ->
  Manager.sessions_ok (Manager.heap (Manager.handle_event now io ref ev s)).
Proof.
  intros Hev Hok.
  destruct ev as [encoded| | |reason]; cbn [Manager.handle_event].
  - now destruct (Hev encoded).
  - unfold Manager.on_ready.
    destruct (Manager.heap s !! ref) as [session|]; [|exact Hok]. cbv zeta.
    change (Manager.metricsCounted
              (Manager.set_live_status Manager.connected
                 (Manager.set_isReady true session)))
      with (Manager.metricsCounted session).
    destruct (Manager.metricsCounted session);
      (destruct (Manager.updateStatus now io _ _ _ _) as [s2|e] eqn:Hup;
       [apply updateStatus_heap in Hup; rewrite Hup|]);
      cbn [Manager.heap Manager.set_heap Manager.set_sessionsActive];
      (apply sessions_ok_insert; [exact Hok|intros _; reflexivity]).
  - unfold Manager.on_auth_failure.
    destruct (Manager.heap s !! ref) as [session|]; [|exact Hok].
    destruct (Manager.shuttingDown session); [exact Hok|]. cbv zeta.
    destruct (Manager.updateStatus now io _ _ _ _) as [s2|e] eqn:Hup;
      [apply updateStatus_heap in Hup;
       rewrite scheduleSessionRestart_heap, Hup|];
      cbn [Manager.heap Manager.set_heap];
      (apply sessions_ok_insert; [exact Hok|intros H; discriminate H]).
  - unfold Manager.on_disconnected.
    destruct (Manager.heap s !! ref) as [session|]; [|exact Hok].
    destruct (Manager.shuttingDown session); [exact Hok|]. cbv zeta.
    change (Manager.metricsCounted
              (Manager.set_isReady false
                 (Manager.set_live_status Manager.disconnected session)))
      with (Manager.metricsCounted session).
    destruct (Manager.metricsCounted session);
      (destruct (Manager.updateStatus now io _ _ _ _) as [s2|e] eqn:Hup;
       [apply updateStatus_heap in Hup;
        rewrite scheduleSessionRestart_heap, Hup|]);
      cbn [Manager.heap Manager.set_heap Manager.set_sessionsActive];
      (apply sessions_ok_insert; [exact Hok|intros H; discriminate H]).
Qed.

(** The ['qr'] handler never touches [isReady]. *)
Lemma on_qr_leaves_isReady now io ref encoded s x :
  Manager.heap s !! ref = Some x ->
  exists x',
    Manager.heap (Manager.on_qr now io ref encoded s) !! ref = Some x'
    /\ Manager.isReady x' = Manager.isReady x
    /\ Manager.live_status x' = Manager.awaiting_qr.
Proof.
  intros Hx. unfold Manager.on_qr. rewrite Hx. cbv zeta.
  set (x2 := Manager.set_live_status _ _).
  assert (Hx2 : Manager.isReady x2 = Manager.isReady x
                /\ Manager.live_status x2 = Manager.awaiting_qr)
    by (subst x2; destruct encoded; split; reflexivity).
  exists x2. split; [|exact Hx2].
  destruct (Manager.updateStatus now io _ _ _ _) as [s2|e] eqn:Hup.
  - apply updateStatus_heap in Hup. cbn in Hup.
    destruct (Manager.readyPromises s2 !! _); cbn; rewrite Hup;
      apply lookup_insert_eq.
  - cbn. apply lookup_insert_eq.
Qed.

(* ===================================================================== *)
(** * Worked examples                                                     *)
(* ===================================================================== *)

Example trim_example : trim "  +62 812-3 " = "+62 812-3".
Proof. reflexivity. Qed.

Example normalizeJid_group : Jid.normalizeJid "12345-678@g.us" = Return "12345-678@g.us".
Proof. reflexivity. Qed.

Example normalizeJid_empty : Jid.normalizeJid "" = Throw (Error "Empty JID").
Proof. reflexivity. Qed.

Example extractReply_first_wins :
  AiProxy.extractReply
    (AiProxy.JObj [("reply", AiProxy.JStr " hi "); ("response", AiProxy.JStr "x")])
  = Return (Some "hi").
Proof. reflexivity. Qed.

Example extractReply_skips_blank_and_non_strings :
  AiProxy.extractReply
    (AiProxy.JObj
       [("reply", AiProxy.JStr "   ");
        ("response", AiProxy.JNum (5 # 1));
        ("result", AiProxy.JObj [("response", AiProxy.JStr "deep")]);
        ("output", AiProxy.JStr "out")])
  = Return (Some "deep").
Proof. reflexivity. Qed.

Example extractReply_nothing_qualifies :
  AiProxy.extractReply
    (AiProxy.JObj [("reply", AiProxy.JBool true); ("result", AiProxy.JNull)])
  = Return None.
Proof. reflexivity. Qed.

Example extractReply_absent_body :
  AiProxy.extractReply AiProxy.JUndefined = Return None
  /\ AiProxy.extractReply AiProxy.JNull = Return None
  /\ AiProxy.extractReply (AiProxy.JStr "") = Return None.
Proof. repeat split; reflexivity. Qed.

Example mapError_rate_limit :
  ErrorMapping.mapError (Some (RateLimiter.RateLimitError "Queue capacity reached"))
  = ErrorMapping.mkMapped 429 "RATE_LIMITED" "Rate limit exceeded".
Proof. reflexivity. Qed.

Example disconnect_schedules_restart :
  Manager.reconnectTimers Manager.example_disconnected !! "a1"
  = Some (Manager.mkTimer Manager.example_agent "LOGOUT" true 1 5000).
Proof. reflexivity. Qed.

(* ===================================================================== *)
(** * Further properties: strings                                         *)
(* ===================================================================== *)

Section DropEnd.

Variable p : ascii -> bool.

Lemma append_empty_r (s t : string) : s +:+ t = "" -> t = "".
Proof. destruct s; [now intros|discriminate]. Qed.

Lemma dropEndWhile_fixed_app (s t : string) :
  dropEndWhile p t = t -> t <> "" ->
  dropEndWhile p (s +:+ t) = s +:+ t.
Proof.
  intros Ht Hne. induction s as [|c r IH]; [exact Ht|].
  change (String c r +:+ t) with (String c (r +:+ t)).
  cbn [dropEndWhile]. rewrite IH.
  destruct (r +:+ t) eqn:E; [|reflexivity].
  now apply append_empty_r in E.
Qed.

Lemma dropEndWhile_idempotent (s : string) :
  dropEndWhile p (dropEndWhile p s) = dropEndWhile p s.
Proof.
  induction s as [|c r IH]; [reflexivity|].
  cbn [dropEndWhile]. destruct (dropEndWhile p r) as [|e d] eqn:E.
  - destruct (p c) eqn:Hc; [reflexivity|].
    cbn [dropEndWhile]. now rewrite Hc.
  - change (dropEndWhile p (String c (String e d)))
      with (match dropEndWhile p (String e d) with
            | EmptyString => if p c then EmptyString else String c EmptyString
            | r' => String c r'
            end).
    now rewrite IH.
Qed.

Lemma dropEndWhile_snoc (s : string) (c : ascii) :
  p c = true -> dropEndWhile p (s +:+ String c "") = dropEndWhile p s.
Proof.
  intros Hc. induction s as [|a r IH].
  - change ("" +:+ String c "") with (String c "").
    cbn [dropEndWhile]. now rewrite Hc.
  - change (String a r +:+ String c "") with (String a (r +:+ String c "")).
    cbn [dropEndWhile]. now rewrite IH.
Qed.

End DropEnd.

Lemma trimEnd_dropEndWhile (s : string) :
  trimEnd s = dropEndWhile is_white_space s.
Proof.
  induction s as [|c r IH]; [reflexivity|].
  cbn [trimEnd dropEndWhile]. now rewrite IH.
Qed.

Lemma trimStart_clean (s : string) : starts_clean (trimStart s).
Proof.
  induction s as [|c r IH]; [exact I|].
  cbn [trimStart]. destruct (is_white_space c) eqn:Hc; [exact IH|exact Hc].
Qed.

Lemma trimStart_fixed (s : string) : starts_clean s -> trimStart s = s.
Proof. destruct s as [|c r]; [reflexivity|]. cbn. now intros ->. Qed.

Lemma trimEnd_clean (s : string) : starts_clean s -> starts_clean (trimEnd s).
Proof.
  destruct s as [|c r]; [now intros|].
  cbn [starts_clean trimEnd]. intros Hc.
  destruct (trimEnd r); [rewrite Hc|]; exact Hc.
Qed.

Lemma trim_idempotent (s : string) : trim (trim s) = trim s.
Proof.
  unfold trim.
  rewrite (trimStart_fixed (trimEnd (trimStart s)))
    by apply trimEnd_clean, trimStart_clean.
  rewrite !trimEnd_dropEndWhile. apply dropEndWhile_idempotent.
Qed.

Lemma includes_app_r (c : ascii) (s t : string) :
  includes c t = true -> includes c (s +:+ t) = true.
Proof.
  intros Ht. induction s as [|d r IH]; [exact Ht|].
  change (String d r +:+ t) with (String d (r +:+ t)).
  cbn [includes]. destruct (Ascii.eqb d c); [reflexivity|exact IH].
Qed.

Lemma endsWith_refl (p : string) : endsWith p p = true.
Proof. destruct p; cbn [endsWith]; now rewrite String.eqb_refl. Qed.

Lemma endsWith_app (p s : string) : endsWith p (s +:+ p) = true.
Proof.
  induction s as [|c r IH]; [apply endsWith_refl|].
  change (String c r +:+ p) with (String c (r +:+ p)).
  cbn [endsWith]. destruct (String.eqb _ p); [reflexivity|exact IH].
Qed.

Lemma filter_chars_idempotent (keep : ascii -> bool) (s : string) :
  filter_chars keep (filter_chars keep s) = filter_chars keep s.
Proof.
  induction s as [|c r IH]; [reflexivity|].
  cbn [filter_chars]. destruct (keep c) eqn:Hc; [|exact IH].
  cbn [filter_chars]. now rewrite Hc, IH.
Qed.

Lemma startsWith_62_inv (d : string) :
  startsWith "62" d = true -> exists rest, d = String "6" (String "2" rest).
Proof.
  unfold startsWith. intros H.
  destruct d as [|a [|b rest]]; cbn [String.prefix] in H; try discriminate H.
  - destruct (ascii_dec "6" a); discriminate H.
  - destruct (ascii_dec "6" a) as [<-|]; [|discriminate H].
    destruct (ascii_dec "2" b) as [<-|]; [|discriminate H].
    now exists rest.
Qed.

Lemma startsWith_char_inv (c : ascii) (d : string) :
  startsWith (String c "") d = true -> exists rest, d = String c rest.
Proof.
  unfold startsWith. intros H.
  destruct d as [|a rest]; cbn [String.prefix] in H; [discriminate H|].
  destruct (ascii_dec c a) as [<-|]; [|discriminate H].
  now exists rest.
Qed.

(* ===================================================================== *)
(** * Further properties: JID normaliser                                  *)
(* ===================================================================== *)

(** All three branches taken by an input with ['@'] return the trimmed
    input. *)
Lemma normalizeJid_address (input : string) :
  includes "@" input = true ->
  Jid.normalizeJid input = Return (trim input).
Proof.
  intros Hat. unfold Jid.normalizeJid.
  destruct (String.eqb_spec input "") as [->|_]; [discriminate Hat|].
  cbv zeta. rewrite includes_at_trim, Hat.
  destruct (endsWith "@g.us" (trim input)); [reflexivity|].
  destruct (endsWith "@c.us" (trim input)); reflexivity.
Qed.

(** X1: an input that contains ['@'] is returned as it is, trimmed:
    group and user addresses are never rewritten. *)
Theorem normalizeJid_keeps_addresses (input : string) :
  includes "@" input = true ->
  Jid.normalizeJid input = Return (trim input).
Proof.
  intros Hat. unfold Jid.normalizeJid.
  destruct (String.eqb_spec input "") as [->|_]; [discriminate Hat|].
  cbv zeta. rewrite includes_at_trim, Hat.
  destruct (endsWith "@g.us" (trim input)); [reflexivity|].
  destruct (endsWith "@c.us" (trim input)); reflexivity.
Qed.

Lemma normalizeJid_keeps_addresses_witness :
  Jid.normalizeJid " 12345-678@g.us " = Return "12345-678@g.us".
Proof. apply (normalizeJid_keeps_addresses " 12345-678@g.us "). reflexivity. Defined.

(** What [ensureCountryCode] returns starts with ["62"], and is all
    digits when its argument is. *)
Lemma ensureCountryCode_shape (d n : string) :
  filter_chars is_digit d = d ->
  Jid.ensureCountryCode d = Return n ->
  exists rest,
    n = String "6" (String "2" rest) /\ filter_chars is_digit rest = rest.
Proof.
  intros Hd. unfold Jid.ensureCountryCode.
  destruct (startsWith "62" d) eqn:H62.
  - intros [= <-]. destruct (startsWith_62_inv d H62) as [rest ->].
    exists rest. split; [reflexivity|].
    cbn in Hd. now injection Hd.
  - destruct (startsWith "0" d) eqn:H0.
    + intros [= <-]. destruct (startsWith_char_inv "0" d H0) as [rest ->].
      exists rest. split; [reflexivity|]. cbn in Hd. now injection Hd.
    + destruct (startsWith "8" d) eqn:H8; [|discriminate].
      intros [= <-]. now exists d.
Qed.

(** X2: a bare number that is accepted comes out in canonical form:
    ["62"], then digits only, then ["@c.us"]. *)
Theorem normalizeJid_canonical_user (input jid : string) :
  includes "@" input = false ->
  Jid.normalizeJid input = Return jid ->
  exists rest,
    jid = ("62" +:+ rest) +:+ "@c.us"
    /\ filter_chars is_digit rest = rest.
Proof.
  intros Hat Hret.
  assert (Hne : input <> "") by (intros ->; discriminate Hret).
  rewrite (normalizeJid_reaches_digits input Hne Hat) in Hret.
  destruct (Jid.ensureCountryCode (Jid.spec_digits input)) as [n|e] eqn:Hn;
    [|discriminate].
  injection Hret as <-.
  apply ensureCountryCode_shape in Hn;
    [|unfold Jid.spec_digits; apply filter_chars_idempotent].
  destruct Hn as (rest & -> & Hrest). now exists rest.
Qed.

Lemma normalizeJid_canonical_user_witness :
  exists rest,
    "628123@c.us" = ("62" +:+ rest) +:+ "@c.us"
    /\ filter_chars is_digit rest = rest.
Proof.
  apply (normalizeJid_canonical_user "+62 812-3" "628123@c.us"); reflexivity.
Defined.

(** X3: normalising is idempotent: whatever [normalizeJid] returns is
    returned unchanged when normalised again. *)
Theorem normalizeJid_idempotent (input jid : string) :
  Jid.normalizeJid input = Return jid ->
  Jid.normalizeJid jid = Return jid.
Proof.
  intros Hret. destruct (includes "@" input) eqn:Hat.
  - rewrite (normalizeJid_address input Hat) in Hret.
    injection Hret as <-.
    rewrite normalizeJid_address by now rewrite includes_at_trim.
    now rewrite trim_idempotent.
  - assert (Hne : input <> "") by (intros ->; discriminate Hret).
    rewrite (normalizeJid_reaches_digits input Hne Hat) in Hret.
    destruct (Jid.ensureCountryCode (Jid.spec_digits input)) as [n|e] eqn:Hn;
      [|discriminate].
    injection Hret as <-.
    apply ensureCountryCode_shape in Hn;
      [|unfold Jid.spec_digits; apply filter_chars_idempotent].
    destruct Hn as (rest & -> & _).
    rewrite normalizeJid_address by now apply includes_app_r.
    f_equal. unfold trim.
    change (("62" +:+ rest) +:+ "@c.us")
      with (String "6" (String "2" rest +:+ "@c.us")).
    cbn [trimStart is_white_space].
    rewrite trimEnd_dropEndWhile.
    now apply (dropEndWhile_fixed_app is_white_space
                 (String "6" (String "2" rest)) "@c.us").
Qed.

Lemma normalizeJid_idempotent_witness :
  Jid.normalizeJid "628123@c.us" = Return "628123@c.us".
Proof. apply (normalizeJid_idempotent "08123"). reflexivity. Defined.

(* ===================================================================== *)
(** * Further properties: error mapping                                   *)
(* ===================================================================== *)

(** X4: an error that is not a [RateLimitError] and carries one of the
    recognised codes keeps that code and gets the status of the table; a
    [RateLimitError] is answered 429 [RATE_LIMITED] whatever code it
    carries; and no error at all is answered with a status outside
    400..504. *)
Theorem mapError_taxonomy :
  (forall e c st,
     err_rate_limit e = false -> err_code e = Some c ->
     In (c, st) ErrorMapping.status_of_code ->
     ErrorMapping.code (ErrorMapping.mapError (Some e)) = c
     /\ ErrorMapping.status (ErrorMapping.mapError (Some e)) = st)
  /\ (forall e,
     err_rate_limit e = true ->
     ErrorMapping.mapError (Some e)
     = ErrorMapping.mkMapped 429 "RATE_LIMITED" "Rate limit exceeded")
  /\ (forall error,
     400 <= ErrorMapping.status (ErrorMapping.mapError error) <= 504).
Proof.
  split; [|split].
  - intros e c st Hrl Hc Hin. unfold ErrorMapping.mapError.
    rewrite Hrl. unfold ErrorMapping.code_is. rewrite Hc.
    unfold ErrorMapping.status_of_code in Hin. cbn [In] in Hin.
    repeat (destruct Hin as [[= <- <-]|Hin]; [split; reflexivity|]).
    destruct Hin.
  - intros e Hrl. unfold ErrorMapping.mapError. now rewrite Hrl.
  - intros [e|]; [|cbn; lia]. unfold ErrorMapping.mapError.
    repeat match goal with
           | |- context [if ?b then _ else _] => destruct b
           end; cbn; lia.
Qed.

Lemma mapError_taxonomy_witness :
  ErrorMapping.code
    (ErrorMapping.mapError (Some (CodedError "Media exceeds 10MB" "MEDIA_TOO_LARGE")))
  = "MEDIA_TOO_LARGE"
  /\ ErrorMapping.status
       (ErrorMapping.mapError (Some (CodedError "Media exceeds 10MB" "MEDIA_TOO_LARGE")))
     = 413
  /\ ErrorMapping.mapError (Some (mkError true (Some "INVALID_PAYLOAD") "x"))
     = ErrorMapping.mkMapped 429 "RATE_LIMITED" "Rate limit exceeded".
Proof.
  destruct mapError_taxonomy as (Hcode & Hrl & _).
  destruct (Hcode (CodedError "Media exceeds 10MB" "MEDIA_TOO_LARGE")
              "MEDIA_TOO_LARGE" 413 eq_refl eq_refl) as [H1 H2].
  - cbn. tauto.
  - split; [exact H1|]. split; [exact H2|]. now apply Hrl.
Defined.

(* ===================================================================== *)
(** * Further properties: AI proxy                                        *)
(* ===================================================================== *)

Lemma first_reply_trimmed (candidates : list AiProxy.jsval) (r : string) :
  AiProxy.first_reply candidates = Some r ->
  exists s, r = trim s /\ r <> "".
Proof.
  induction candidates as [|c rest IH]; [discriminate|].
  cbn [AiProxy.first_reply]. destruct c; try exact IH.
  destruct (String.eqb_spec (trim s) "") as [E|E]; cbn [negb]; [exact IH|].
  intros [= <-]. now exists s.
Qed.

(** [extractReply] reads no property of [null] or [undefined]: it
    returns the first qualifying candidate of some list, or [null]. *)
Lemma extractReply_returns (data : AiProxy.jsval) :
  exists candidates,
    AiProxy.extractReply data = Return (AiProxy.first_reply candidates).
Proof.
  destruct data as [ | |b|q|s|items|fields];
    try (exists []; reflexivity).
  - destruct b; [eexists; reflexivity|exists []; reflexivity].
  - unfold AiProxy.extractReply. cbn [AiProxy.is_truthy].
    destruct (Qeq_bool q 0); [exists []; reflexivity|eexists; reflexivity].
  - unfold AiProxy.extractReply. cbn [AiProxy.is_truthy].
    destruct (String.eqb s ""); [exists []; reflexivity|eexists; reflexivity].
  - unfold AiProxy.extractReply.
    cbn [AiProxy.is_truthy negb AiProxy.member mbind Outcome_bind].
    rewrite !optional_member_probe. cbn [mbind Outcome_bind].
    eexists; reflexivity.
Qed.

(** X5: a reply that [extractReply] returns is never empty and carries
    no white space at either end. *)
Theorem extractReply_reply_is_trimmed (data : AiProxy.jsval) (r : string) :
  AiProxy.extractReply data = Return (Some r) ->
  r <> "" /\ trim r = r.
Proof.
  intros Hret. destruct (extractReply_returns data) as [cs Hcs].
  rewrite Hcs in Hret. injection Hret as Hfirst.
  destruct (first_reply_trimmed cs r Hfirst) as (s & -> & Hne).
  split; [exact Hne|apply trim_idempotent].
Qed.

Lemma extractReply_reply_is_trimmed_witness :
  "hi" <> "" /\ trim "hi" = "hi".
Proof.
  apply (extractReply_reply_is_trimmed
           (AiProxy.JObj [("reply", AiProxy.JStr "   ");
                          ("output", AiProxy.JStr " hi ")])).
  reflexivity.
Defined.

(** ** Endpoint construction *)

Lemma normalizeBase_ends_with_agents (u : string) :
  endsWith "/agents" (AiEndpoint.normalizeBase u) = true
  /\ dropEndWhile AiEndpoint.is_slash (AiEndpoint.normalizeBase u)
     = AiEndpoint.normalizeBase u.
Proof.
  unfold AiEndpoint.normalizeBase. cbv zeta.
  destruct (endsWith "/agents" (dropEndWhile AiEndpoint.is_slash u)) eqn:E.
  - split; [exact E|apply dropEndWhile_idempotent].
  - split; [apply endsWith_app|].
    now apply dropEndWhile_fixed_app.
Qed.

(** X6: the base URL is canonical: [normalizeBase] always ends with
    ["/agents"], is unchanged when applied again, and ignores a trailing
    slash of the configured URL; so the agent endpoint does not depend on
    how the base URL was written. *)
Theorem buildAgentEndpoint_canonical_base (u agentId : string)
    (action : option string) :
  endsWith "/agents" (AiEndpoint.normalizeBase u) = true
  /\ AiEndpoint.normalizeBase (AiEndpoint.normalizeBase u)
     = AiEndpoint.normalizeBase u
  /\ AiEndpoint.buildAgentEndpoint (u +:+ "/") agentId action
     = AiEndpoint.buildAgentEndpoint u agentId action
  /\ AiEndpoint.buildAgentEndpoint (AiEndpoint.normalizeBase u) agentId action
     = AiEndpoint.buildAgentEndpoint u agentId action.
Proof.
  destruct (normalizeBase_ends_with_agents u) as [Hend Hfix].
  assert (Hidem : AiEndpoint.normalizeBase (AiEndpoint.normalizeBase u)
                  = AiEndpoint.normalizeBase u).
  { unfold AiEndpoint.normalizeBase at 1. cbv zeta. now rewrite Hfix, Hend. }
  assert (Hslash : AiEndpoint.normalizeBase (u +:+ "/")
                   = AiEndpoint.normalizeBase u).
  { unfold AiEndpoint.normalizeBase. cbv zeta.
    now rewrite (dropEndWhile_snoc AiEndpoint.is_slash u "/" eq_refl). }
  repeat split; [exact Hend|exact Hidem| |];
    unfold AiEndpoint.buildAgentEndpoint; cbv zeta;
    [now rewrite Hslash|now rewrite Hidem].
Qed.

Example buildAgentEndpoint_examples :
  AiEndpoint.buildAgentEndpoint "https://ai.example.com" "a1" None
  = "https://ai.example.com/agents/a1/execute"
  /\ AiEndpoint.buildAgentEndpoint "https://ai.example.com/agents//" "a1"
       (Some "execute")
     = "https://ai.example.com/agents/a1/execute".
Proof. split; reflexivity. Qed.

(** ** The call *)

(** X7: whatever error the HTTP call to the AI backend throws, the caller
    of [executeRun] sees one of two errors: [AI_TIMEOUT] (504) exactly
    when the axios code is [ECONNABORTED], [AI_DOWNSTREAM_ERROR] (502)
    otherwise, each counted once in the error counter; on a response the
    body is returned as [raw] and reply extraction does not fail. *)
Theorem executeRun_outcomes post aiBackendUrl start finish agentRecord payload :
  let endpoint := AiRun.resolveEndpoint aiBackendUrl agentRecord in
  let bearer := "Bearer " +:+ Manager.api_key agentRecord in
  let agentId := Manager.agent_id agentRecord in
  let result :=
    AiRun.executeRun post aiBackendUrl start finish agentRecord payload in
  (forall data,
     post endpoint bearer payload = Return data ->
     exists r seconds,
       result = ([AiRun.LatencyObserved agentId seconds],
                 Return (AiRun.mkRunResult r data))
       /\ AiProxy.extractReply data = Return r)
  /\ (forall err,
     post endpoint bearer payload = Throw err ->
     err_code err = Some "ECONNABORTED" ->
     result = ([AiRun.ErrorCounted agentId "AI_TIMEOUT"],
               Throw (CodedError "AI request timed out" "AI_TIMEOUT"))
     /\ ErrorMapping.mapError
          (Some (CodedError "AI request timed out" "AI_TIMEOUT"))
        = ErrorMapping.mkMapped 504 "AI_TIMEOUT" "AI backend timed out")
  /\ (forall err,
     post endpoint bearer payload = Throw err ->
     err_code err <> Some "ECONNABORTED" ->
     result = ([AiRun.ErrorCounted agentId "AI_DOWNSTREAM_ERROR"],
               Throw (CodedError "AI downstream error" "AI_DOWNSTREAM_ERROR"))
     /\ ErrorMapping.mapError
          (Some (CodedError "AI downstream error" "AI_DOWNSTREAM_ERROR"))
        = ErrorMapping.mkMapped 502 "AI_DOWNSTREAM_ERROR" "AI downstream error").
Proof.
  intros endpoint bearer agentId result. subst endpoint bearer agentId result.
  unfold AiRun.executeRun, AiRun.callAi. cbv zeta.
  split; [|split].
  - intros data ->. destruct (extractReply_returns data) as [cs Hcs].
    rewrite Hcs. cbn [mbind Outcome_bind]. eexists _, _. split; reflexivity.
  - intros err -> Hc. unfold ErrorMapping.code_is. rewrite Hc.
    split; reflexivity.
  - intros err -> Hc. unfold ErrorMapping.code_is.
    destruct (err_code err) as [c|] eqn:E; [|split; reflexivity].
    destruct (String.eqb_spec c "ECONNABORTED") as [->|_];
      [congruence|split; reflexivity].
Qed.

Lemma executeRun_outcomes_witness :
  AiRun.executeRun
    (fun _ _ _ => Throw (mkError false (Some "ECONNABORTED")
                            "timeout of 60000ms exceeded"))
    "https://ai.example.com" 0 60001 Manager.example_agent
    (Manager.mkAiPayload (Some "hi") 5 None None "628123@c.us")
  = ([AiRun.ErrorCounted "a1" "AI_TIMEOUT"],
     Throw (CodedError "AI request timed out" "AI_TIMEOUT")).
Proof.
  refine (proj1 (proj1 (proj2 (executeRun_outcomes _ _ _ _ _ _))
                  (mkError false (Some "ECONNABORTED")
                           "timeout of 60000ms exceeded")
                  eq_refl eq_refl)).
Defined.

(* ===================================================================== *)
(** * Further properties: rate limiter                                    *)
(* ===================================================================== *)

Section LimiterMore.

Context {Task Value : Type}.

Abbreviation AgentState' := (RateLimiter.AgentState Task).
Abbreviation LimiterState' := (RateLimiter.State Task Value).
Abbreviation Op' := (RateLimiter.Op Task Value).

Implicit Types (st : AgentState') (s : LimiterState') (c : RateLimiter.Config).

Local Arguments RateLimiter.processQueue : simpl never.
Local Arguments RateLimiter.work : simpl never.
Local Arguments RateLimiter.refill_agent : simpl never.

(** ** How one step changes the record of an agent *)

Lemma work_queue_shorter st :
  (length (RateLimiter.queue (RateLimiter.work st))
   <= length (RateLimiter.queue st))%nat.
Proof.
  unfold RateLimiter.work.
  destruct (RateLimiter.queue st) as [|job rest] eqn:E; cbn; [now rewrite E|].
  destruct (negb (Qle_bool 1 (RateLimiter.tokens st))); cbn;
    [rewrite E; cbn|]; lia.
Qed.

Lemma processQueue_queue_shorter st :
  (length (RateLimiter.queue (RateLimiter.processQueue st))
   <= length (RateLimiter.queue st))%nat.
Proof.
  unfold RateLimiter.processQueue.
  destruct (RateLimiter.processing st); [lia|].
  apply (work_queue_shorter (RateLimiter.set_processing true st)).
Qed.

Lemma refill_agent_queue_shorter c now st :
  (length (RateLimiter.queue (RateLimiter.refill_agent c now st))
   <= length (RateLimiter.queue st))%nat.
Proof.
  unfold RateLimiter.refill_agent.
  destruct (Qle_bool 1 (RateLimiter.refill_amount c now st)); [|lia].
  cbv zeta.
  destruct (RateLimiter.queue (RateLimiter.add_tokens c now st)) eqn:E;
    [cbn; lia|].
  apply (processQueue_queue_shorter (RateLimiter.add_tokens c now st)).
Qed.

Lemma work_pending st :
  RateLimiter.running st = None ->
  RateLimiter.pending_jobs (RateLimiter.work st) = RateLimiter.pending_jobs st.
Proof.
  intros Hr. unfold RateLimiter.work, RateLimiter.pending_jobs.
  destruct (RateLimiter.queue st) as [|job rest] eqn:E; cbn;
    [now rewrite Hr, E|].
  destruct (negb (Qle_bool 1 (RateLimiter.tokens st))); cbn;
    now rewrite ?Hr, ?E.
Qed.

Lemma processQueue_pending st :
  RateLimiter.single_worker st ->
  RateLimiter.pending_jobs (RateLimiter.processQueue st)
  = RateLimiter.pending_jobs st.
Proof.
  intros [Hidle _]. unfold RateLimiter.processQueue.
  destruct (RateLimiter.processing st) eqn:Hp; [reflexivity|].
  destruct Hidle as [Hr _]; [first [exact Hp|reflexivity]|].
  now rewrite (work_pending (RateLimiter.set_processing true st)).
Qed.

Lemma refill_agent_pending c now st :
  RateLimiter.single_worker st ->
  RateLimiter.pending_jobs (RateLimiter.refill_agent c now st)
  = RateLimiter.pending_jobs st.
Proof.
  intros Hsw. unfold RateLimiter.refill_agent.
  destruct (Qle_bool 1 (RateLimiter.refill_amount c now st)); [|reflexivity].
  cbv zeta.
  destruct (RateLimiter.queue (RateLimiter.add_tokens c now st));
    [reflexivity|].
  now rewrite (processQueue_pending (RateLimiter.add_tokens c now st)).
Qed.

(** Jobs join the pending jobs of an agent at the back, and only the job
    whose task was awaited leaves them, from the front. *)
Lemma step_pending_jobs s (o : Op') a st st' :
  RateLimiter.workers_invariant s ->
  RateLimiter.agents s !! a = Some st ->
  RateLimiter.agents (RateLimiter.step s o) !! a = Some st' ->
  RateLimiter.pending_jobs st' = RateLimiter.pending_jobs st
  \/ (exists job,
        RateLimiter.pending_jobs st' = RateLimiter.pending_jobs st ++ [job])
  \/ (exists job,
        RateLimiter.running st = Some job
        /\ RateLimiter.pending_jobs st = job :: RateLimiter.pending_jobs st').
Proof.
  intros Hinv Ha.
  pose proof (Hinv a st Ha) as Hsw.
  destruct o as [now a' t|now|a' r|a']; cbn [RateLimiter.step].
  - rewrite enqueue_unfold. cbv zeta.
    destruct (decide (a' = a)) as [->|Hne].
    + unfold RateLimiter.getAgentState. rewrite Ha. cbn [fst snd].
      match goal with |- context [if ?b then _ else _] => destruct b end;
        cbn [fst RateLimiter.agents].
      * rewrite Ha. intros [= <-]. now left.
      * rewrite lookup_insert_eq. intros [= <-]. right. left.
        eexists. now apply processQueue_appends.
    + assert (Hsame : RateLimiter.agents
                        (fst (RateLimiter.getAgentState now a' s)) !! a
                      = Some st).
      { unfold RateLimiter.getAgentState.
        destruct (RateLimiter.agents s !! a'); cbn; [exact Ha|].
        now rewrite lookup_insert_ne. }
      match goal with |- context [if ?b then _ else _] => destruct b end;
        cbn [fst RateLimiter.agents].
      * rewrite Hsame. intros [= <-]. now left.
      * rewrite lookup_insert_ne by exact Hne. rewrite Hsame.
        intros [= <-]. now left.
  - cbn. rewrite lookup_fmap, Ha. cbn. intros [= <-]. left.
    now apply refill_agent_pending.
  - unfold RateLimiter.task_settled.
    destruct (RateLimiter.agents s !! a') as [st0|] eqn:Ha';
      [|rewrite Ha; intros [= <-]; now left].
    destruct (RateLimiter.running st0) as [job|] eqn:Hr;
      [|rewrite Ha; intros [= <-]; now left].
    destruct r; try (rewrite Ha; intros [= <-]; now left);
      cbn [RateLimiter.agents];
      (destruct (decide (a' = a)) as [->|Hne];
       [rewrite lookup_insert_eq; intros [= <-];
        assert (st0 = st) by congruence; subst st0;
        right; right; exists job; split; [exact Hr|];
        unfold RateLimiter.pending_jobs; cbn; now rewrite Hr
       |rewrite lookup_insert_ne by exact Hne; rewrite Ha;
        intros [= <-]; now left]).
  - unfold RateLimiter.run_immediate.
    destruct (RateLimiter.agents s !! a') as [st0|] eqn:Ha';
      [|rewrite Ha; intros [= <-]; now left].
    destruct (RateLimiter.immediate st0) eqn:Hi;
      [|rewrite Ha; intros [= <-]; now left].
    cbn [RateLimiter.agents].
    destruct (decide (a' = a)) as [->|Hne].
    + rewrite lookup_insert_eq. intros [= <-].
      assert (st0 = st) by congruence. subst st0.
      destruct Hsw as [_ Himm]. left.
      rewrite work_pending; [|cbn; now apply Himm].
      reflexivity.
    + rewrite lookup_insert_ne by exact Hne. rewrite Ha.
      intros [= <-]. now left.
Qed.

(** X8: strict FIFO within an agent.  In every state a limiter can
    reach, one more operation changes the pending jobs of an agent (the
    awaited job, then the queue, oldest first) in one of three ways only:
    not at all, by adding one job at the back, or by removing the awaited
    job from the front.  No job overtakes another and none is dropped. *)
Theorem limiter_is_fifo c (ops : list Op') (o : Op') a st st' :
  RateLimiter.agents (RateLimiter.run (RateLimiter.create c) ops) !! a
    = Some st ->
  RateLimiter.agents
    (RateLimiter.step (RateLimiter.run (RateLimiter.create c) ops) o) !! a
    = Some st' ->
  RateLimiter.pending_jobs st' = RateLimiter.pending_jobs st
  \/ (exists job,
        RateLimiter.pending_jobs st' = RateLimiter.pending_jobs st ++ [job])
  \/ (exists job,
        RateLimiter.running st = Some job
        /\ RateLimiter.pending_jobs st = job :: RateLimiter.pending_jobs st').
Proof.
  intros Ha Ha'.
  exact (step_pending_jobs _ o a st st' (run_workers_invariant ops c) Ha Ha').
Qed.

(** ** The queue bound *)

Lemma step_queue_bounded s (o : Op') :
  (0 <= RateLimiter.queueLimit (RateLimiter.config s))%Z ->
  RateLimiter.queue_bounded s ->
  RateLimiter.queue_bounded (RateLimiter.step s o).
Proof.
  intros Hlim Hinv a st'. rewrite step_config.
  destruct o as [now a' t|now|a' r|a']; cbn [RateLimiter.step].
  - rewrite enqueue_unfold. cbv zeta.
    assert (Hs1 : forall b stb,
              RateLimiter.agents (fst (RateLimiter.getAgentState now a' s)) !! b
              = Some stb ->
              (Z.of_nat (length (RateLimiter.queue stb))
               <= RateLimiter.queueLimit (RateLimiter.config s))%Z).
    { intros b stb. unfold RateLimiter.getAgentState.
      destruct (RateLimiter.agents s !! a') eqn:E; cbn; [apply Hinv|].
      destruct (decide (a' = b)) as [->|Hne].
      - rewrite lookup_insert_eq. intros [= <-]. cbn. lia.
      - rewrite lookup_insert_ne by exact Hne. apply Hinv. }
    match goal with |- context [(?x >=? ?y)%Z] =>
      destruct (Z.geb_spec x y) as [Hge|Hlt] end;
      cbn [fst RateLimiter.agents]; [apply Hs1|].
    destruct (decide (a' = a)) as [->|Hne].
    + rewrite lookup_insert_eq. intros [= <-].
      match goal with |- context [RateLimiter.processQueue ?x] =>
        pose proof (processQueue_queue_shorter x) as Hshort end.
      cbn [RateLimiter.queue] in Hshort. rewrite length_app in Hshort.
      cbn [length] in Hshort. lia.
    + rewrite lookup_insert_ne by exact Hne. apply Hs1.
  - cbn. rewrite lookup_fmap.
    destruct (RateLimiter.agents s !! a) as [st|] eqn:Ha; cbn; [|discriminate].
    intros [= <-].
    pose proof (refill_agent_queue_shorter (RateLimiter.config s) now st).
    pose proof (Hinv a st Ha). lia.
  - unfold RateLimiter.task_settled.
    destruct (RateLimiter.agents s !! a') as [st0|] eqn:Ha'; [|apply Hinv].
    destruct (RateLimiter.running st0) as [job|]; [|apply Hinv].
    destruct r; try apply Hinv; cbn [RateLimiter.agents];
      (destruct (decide (a' = a)) as [->|Hne];
       [rewrite lookup_insert_eq; intros [= <-]; cbn; exact (Hinv a st0 Ha')
       |rewrite lookup_insert_ne by exact Hne; apply Hinv]).
  - unfold RateLimiter.run_immediate.
    destruct (RateLimiter.agents s !! a') as [st0|] eqn:Ha'; [|apply Hinv].
    destruct (RateLimiter.immediate st0); [|apply Hinv].
    cbn [RateLimiter.agents].
    destruct (decide (a' = a)) as [->|Hne].
    + rewrite lookup_insert_eq. intros [= <-].
      match goal with |- context [RateLimiter.work ?x] =>
        pose proof (work_queue_shorter x) as Hshort end.
      cbn [RateLimiter.queue] in Hshort.
      pose proof (Hinv a st0 Ha'). lia.
    + rewrite lookup_insert_ne by exact Hne. apply Hinv.
Qed.

(** X9: the queue of an agent never holds more than [queueLimit]
    entries, in any state the limiter can reach. *)
Theorem queue_never_exceeds_limit c (ops : list Op') a st :
  (0 <= RateLimiter.queueLimit c)%Z ->
  RateLimiter.agents (RateLimiter.run (RateLimiter.create c) ops) !! a
    = Some st ->
  (Z.of_nat (length (RateLimiter.queue st)) <= RateLimiter.queueLimit c)%Z.
Proof.
  intros Hlim.
  assert (H : RateLimiter.config (RateLimiter.run (RateLimiter.create c) ops) = c
              /\ RateLimiter.queue_bounded
                   (RateLimiter.run (RateLimiter.create c) ops)).
  { assert (H0 : RateLimiter.config
                   (RateLimiter.create (Task:=Task) (Value:=Value) c) = c
                 /\ RateLimiter.queue_bounded
                      (RateLimiter.create (Task:=Task) (Value:=Value) c))
      by (split; [reflexivity|intros b stb; cbn; rewrite lookup_empty;
                               discriminate]).
    revert H0. generalize (RateLimiter.create (Task:=Task) (Value:=Value) c).
    induction ops as [|o ops IH]; intros s [Hc Hb]; [now split|].
    cbn [RateLimiter.run fold_left]. apply IH. split.
    - now rewrite step_config.
    - apply step_queue_bounded; [now rewrite Hc|exact Hb]. }
  destruct H as [Hc Hb]. intros Ha. specialize (Hb a st Ha).
  now rewrite Hc in Hb.
Qed.

End LimiterMore.

Lemma limiter_is_fifo_witness :
  exists job : RateLimiter.Job nat,
    [RateLimiter.mkJob 7%nat 0; RateLimiter.mkJob 8%nat 1]
    = [RateLimiter.mkJob 7%nat 0] ++ [job].
Proof.
  destruct (@limiter_is_fifo nat unit RateLimiter.default_config
              [RateLimiter.OpEnqueue 0 "a1" 7%nat]
              (RateLimiter.OpEnqueue 1 "a1" 8%nat) "a1"
              (RateLimiter.mkAgentState (99 # 1) 0 [] true
                 (Some (RateLimiter.mkJob 7%nat 0)) false)
              (RateLimiter.mkAgentState (99 # 1) 0 [RateLimiter.mkJob 8%nat 1]
                 true (Some (RateLimiter.mkJob 7%nat 0)) false))
    as [H|[H|H]].
  - vm_compute. reflexivity.
  - vm_compute. reflexivity.
  - discriminate H.
  - exact H.
  - destruct H as (job & _ & H). discriminate H.
Defined.

Lemma queue_never_exceeds_limit_witness :
  (Z.of_nat (length (RateLimiter.queue
                       (RateLimiter.mkAgentState (Task:=nat) (99 # 1) 0
                          [RateLimiter.mkJob 8%nat 1] true
                          (Some (RateLimiter.mkJob 7%nat 0)) false)))
   <= 500)%Z.
Proof.
  apply (@queue_never_exceeds_limit nat unit RateLimiter.default_config
           [RateLimiter.OpEnqueue 0 "a1" 7%nat;
            RateLimiter.OpEnqueue 1 "a1" 8%nat] "a1").
  - cbn. lia.
  - vm_compute. reflexivity.
Defined.

Section LimiterPromises.

Context {Task Value : Type}.

Abbreviation LState := (RateLimiter.State Task Value).
Abbreviation LOp := (RateLimiter.Op Task Value).

Implicit Types (s : LState).

Local Arguments RateLimiter.processQueue : simpl never.
Local Arguments RateLimiter.work : simpl never.
Local Arguments RateLimiter.refill_agent : simpl never.

Lemma settle_lookup (p q : nat) (r : RateLimiter.Settled Value)
    (ps : gmap nat (RateLimiter.Settled Value)) :
  (RateLimiter.settle p r ps !! q = ps !! q)
  \/ (q = p /\ ps !! p = Some RateLimiter.Pending
      /\ RateLimiter.settle p r ps !! q = Some r).
Proof.
  unfold RateLimiter.settle.
  destruct (ps !! p) as [[| |]|] eqn:Hp; try now left.
  destruct (decide (p = q)) as [->|Hne].
  - right. now rewrite lookup_insert_eq.
  - left. now rewrite lookup_insert_ne.
Qed.

(** How one step changes one promise: not at all, or a new pending
    promise is created at [next_promise], or a pending promise is
    settled. *)
Lemma step_promise s (o : LOp) (q : nat) :
  RateLimiter.promises (RateLimiter.step s o) !! q = RateLimiter.promises s !! q
  \/ (q = RateLimiter.next_promise s
      /\ RateLimiter.promises (RateLimiter.step s o) !! q
         = Some RateLimiter.Pending)
  \/ (RateLimiter.promises s !! q = Some RateLimiter.Pending
      /\ exists r, r <> RateLimiter.Pending
           /\ RateLimiter.promises (RateLimiter.step s o) !! q = Some r).
Proof.
  destruct o as [now a t|now|a r|a]; cbn [RateLimiter.step].
  - rewrite enqueue_unfold. cbv zeta.
    match goal with |- context [if ?b then _ else _] => destruct b end;
      cbn [fst RateLimiter.promises].
    + left. unfold RateLimiter.getAgentState.
      destruct (RateLimiter.agents s !! a); reflexivity.
    + destruct (decide (RateLimiter.next_promise s = q)) as [<-|Hne].
      * right. left. now rewrite lookup_insert_eq.
      * left. now rewrite lookup_insert_ne.
  - now left.
  - unfold RateLimiter.task_settled.
    destruct (RateLimiter.agents s !! a) as [st|]; [|now left].
    destruct (RateLimiter.running st) as [job|]; [|now left].
    destruct r as [|v|e]; [now left| |]; cbn [RateLimiter.promises];
      match goal with |- context [RateLimiter.settle ?p ?r ?ps] =>
        destruct (settle_lookup p q r ps) as [H|(-> & Hp & H)]
      end; try (now left);
      (right; right; split; [exact Hp|]; eexists; split; [|exact H];
       discriminate).
  - unfold RateLimiter.run_immediate.
    destruct (RateLimiter.agents s !! a) as [st|]; [|now left].
    destruct (RateLimiter.immediate st); now left.
Qed.

Lemma step_next_promise s (o : LOp) :
  (RateLimiter.next_promise s <= RateLimiter.next_promise (RateLimiter.step s o))%nat.
Proof.
  destruct o as [now a t|now|a r|a]; cbn [RateLimiter.step].
  - rewrite enqueue_unfold. cbv zeta.
    match goal with |- context [if ?b then _ else _] => destruct b end;
      cbn [fst RateLimiter.next_promise]; [|lia].
    unfold RateLimiter.getAgentState.
    destruct (RateLimiter.agents s !! a); cbn; lia.
  - cbn. lia.
  - unfold RateLimiter.task_settled.
    destruct (RateLimiter.agents s !! a) as [st|]; [|lia].
    destruct (RateLimiter.running st), r; cbn; lia.
  - unfold RateLimiter.run_immediate.
    destruct (RateLimiter.agents s !! a) as [st|]; [|lia].
    destruct (RateLimiter.immediate st); cbn; lia.
Qed.

Lemma step_promises_allocated s (o : LOp) :
  RateLimiter.promises_allocated s ->
  RateLimiter.promises_allocated (RateLimiter.step s o).
Proof.
  intros Hinv q r Hq.
  pose proof (step_next_promise s o) as Hnext.
  destruct (step_promise s o q) as [H|[[-> H]|[Hp _]]].
  - rewrite H in Hq. specialize (Hinv q r Hq). lia.
  - destruct o as [now a t|now|a r'|a]; cbn [RateLimiter.step] in *.
    + rewrite enqueue_unfold in *. cbv zeta in *.
      match goal with |- context [if ?b then _ else _] => destruct b end;
        cbn [fst RateLimiter.next_promise RateLimiter.promises] in *; [|lia].
      assert (Hsame : RateLimiter.promises
                        (fst (RateLimiter.getAgentState now a s))
                      = RateLimiter.promises s)
        by (unfold RateLimiter.getAgentState;
            destruct (RateLimiter.agents s !! a); reflexivity).
      rewrite Hsame in H. specialize (Hinv _ _ H). lia.
    + specialize (Hinv _ _ H). cbn in *. lia.
    + assert (Hk : is_Some (RateLimiter.promises s
                              !! RateLimiter.next_promise s)).
      { unfold RateLimiter.task_settled in H.
        destruct (RateLimiter.agents s !! a) as [st|]; [|eauto].
        destruct (RateLimiter.running st) as [job|]; [|eauto].
        destruct r'; [eauto| |]; cbn [RateLimiter.promises] in H;
          match type of H with context [RateLimiter.settle ?p ?r ?ps] =>
            destruct (settle_lookup p (RateLimiter.next_promise s) r ps)
              as [E|(E1 & E2 & _)]
          end; try (rewrite E in H; eauto); rewrite E1; eauto. }
      destruct Hk as [r0 Hr0]. specialize (Hinv _ _ Hr0). lia.
    + unfold RateLimiter.run_immediate in H.
      assert (Hk : RateLimiter.promises s !! RateLimiter.next_promise s
                   = Some RateLimiter.Pending).
      { destruct (RateLimiter.agents s !! a) as [st|]; [|exact H].
        destruct (RateLimiter.immediate st); exact H. }
      specialize (Hinv _ _ Hk). lia.
  - specialize (Hinv q _ Hp). lia.
Qed.

Lemma run_promises_allocated c (ops : list LOp) :
  RateLimiter.promises_allocated (RateLimiter.run (RateLimiter.create c) ops).
Proof.
  assert (H0 : RateLimiter.promises_allocated
                 (RateLimiter.create (Task:=Task) (Value:=Value) c))
    by (intros q r; cbn; rewrite lookup_empty; discriminate).
  revert H0. generalize (RateLimiter.create (Task:=Task) (Value:=Value) c).
  induction ops as [|o ops IH]; intros s Hs; [exact Hs|].
  cbn [RateLimiter.run fold_left]. apply IH. now apply step_promises_allocated.
Qed.

(** X10: in every state a limiter can reach, the promise returned by an
    accepted [enqueue] is new (unknown before), pending afterwards, and
    no other promise is touched. *)
Theorem enqueue_returns_fresh_promise c (ops : list LOp) now a (t : Task) p :
  let s := RateLimiter.run (RateLimiter.create c) ops in
  snd (RateLimiter.enqueue now a t s) = Return p ->
  RateLimiter.promises s !! p = None
  /\ RateLimiter.promises (fst (RateLimiter.enqueue now a t s)) !! p
     = Some RateLimiter.Pending
  /\ (forall q, q <> p ->
        RateLimiter.promises (fst (RateLimiter.enqueue now a t s)) !! q
        = RateLimiter.promises s !! q).
Proof.
  intros s. pose proof (run_promises_allocated c ops) as Hinv. fold s in Hinv.
  rewrite enqueue_unfold. cbv zeta.
  match goal with |- context [if ?b then _ else _] => destruct b end;
    cbn [fst snd RateLimiter.promises]; [discriminate|].
  intros [= <-]. split; [|split].
  - destruct (RateLimiter.promises s !! RateLimiter.next_promise s) eqn:E;
      [|reflexivity].
    specialize (Hinv _ _ E). lia.
  - apply lookup_insert_eq.
  - intros q Hq. now rewrite lookup_insert_ne.
Qed.

(** X11: in every state a limiter can reach, a promise that has been
    resolved or rejected keeps its result through every later operation:
    the result of a job is delivered at most once. *)
Theorem limiter_promise_settled_once c (ops : list LOp) (o : LOp) p r :
  let s := RateLimiter.run (RateLimiter.create c) ops in
  RateLimiter.promises s !! p = Some r -> r <> RateLimiter.Pending ->
  RateLimiter.promises (RateLimiter.step s o) !! p = Some r.
Proof.
  intros s Hp Hr.
  pose proof (run_promises_allocated c ops p r Hp) as Hlt. fold s in Hlt.
  destruct (step_promise s o p) as [H|[[-> _]|[Hpend _]]].
  - now rewrite H.
  - lia.
  - congruence.
Qed.

(** X12: a rejected [enqueue] changes nothing: with a positive
    [queueLimit] the limiter is left exactly as it was, and the error is
    the [RateLimitError]. *)
Theorem rejected_enqueue_changes_nothing now a (t : Task) s e :
  (0 < RateLimiter.queueLimit (RateLimiter.config s))%Z ->
  snd (RateLimiter.enqueue now a t s) = Throw e ->
  fst (RateLimiter.enqueue now a t s) = s
  /\ e = RateLimiter.RateLimitError "Queue capacity reached".
Proof.
  intros Hlim. rewrite enqueue_unfold. cbv zeta.
  unfold RateLimiter.getAgentState.
  destruct (RateLimiter.agents s !! a) as [st|] eqn:Ha; cbn [fst snd].
  - match goal with |- context [if ?b then _ else _] => destruct b end;
      cbn [fst snd]; [|discriminate].
    intros [= <-]. now split.
  - cbn [RateLimiter.fresh_agent RateLimiter.queue length].
    destruct (Z.geb_spec (Z.of_nat 0) (RateLimiter.queueLimit (RateLimiter.config s)));
      [lia|discriminate].
Qed.

(** X13: operations on one agent leave every other agent's bucket and
    queue exactly as they were. *)
Theorem limiter_agents_are_isolated now a a' (t : Task)
    (r : RateLimiter.Settled Value) s :
  a <> a' ->
  RateLimiter.agents (fst (RateLimiter.enqueue now a' t s)) !! a
    = RateLimiter.agents s !! a
  /\ RateLimiter.agents (RateLimiter.task_settled a' r s) !! a
     = RateLimiter.agents s !! a
  /\ RateLimiter.agents (RateLimiter.run_immediate a' s) !! a
     = RateLimiter.agents s !! a.
Proof.
  intros Hne. assert (Hne' : a' <> a) by congruence.
  split; [|split].
  - rewrite enqueue_unfold. cbv zeta.
    assert (H1 : RateLimiter.agents (fst (RateLimiter.getAgentState now a' s)) !! a
                 = RateLimiter.agents s !! a).
    { unfold RateLimiter.getAgentState.
      destruct (RateLimiter.agents s !! a'); cbn; [reflexivity|].
      now rewrite lookup_insert_ne. }
    match goal with |- context [if ?b then _ else _] => destruct b end;
      cbn [fst RateLimiter.agents]; [exact H1|].
    now rewrite lookup_insert_ne.
  - unfold RateLimiter.task_settled.
    destruct (RateLimiter.agents s !! a') as [st|]; [|reflexivity].
    destruct (RateLimiter.running st), r; try reflexivity;
      cbn [RateLimiter.agents]; now rewrite lookup_insert_ne.
  - unfold RateLimiter.run_immediate.
    destruct (RateLimiter.agents s !! a') as [st|]; [|reflexivity].
    destruct (RateLimiter.immediate st); [|reflexivity].
    cbn [RateLimiter.agents]. now rewrite lookup_insert_ne.
Qed.

(** X14: the token gate.  On an idle agent whose bucket holds less than
    one token, [processQueue] starts nothing and the queue is kept; the
    next refill of at least one token starts the oldest job, and takes its
    token from the refilled bucket.  The amounts are those the program
    computes, each operation rounded to the nearest double. *)
Theorem empty_bucket_waits_for_refill c now
    (st : RateLimiter.AgentState Task) job rest :
  RateLimiter.processing st = false ->
  RateLimiter.queue st = job :: rest ->
  (0 <= RateLimiter.tokens st)%Q -> (RateLimiter.tokens st < 1)%Q ->
  (1 <= RateLimiter.burst c)%Q ->
  (1 <= RateLimiter.refill_amount c now st)%Q ->
  RateLimiter.processQueue st = st
  /\ RateLimiter.running (RateLimiter.refill_agent c now st) = Some job
  /\ RateLimiter.queue (RateLimiter.refill_agent c now st) = rest
  /\ RateLimiter.processing (RateLimiter.refill_agent c now st) = true
  /\ RateLimiter.tokens (RateLimiter.refill_agent c now st)
     = Double.sub
         (Qmin (RateLimiter.burst c)
               (Double.add (RateLimiter.tokens st)
                           (RateLimiter.refill_amount c now st)))
         1.
Proof.
  intros Hp Hq Hlo Hhi Hb Hr.
  assert (Hlow : Qle_bool 1 (RateLimiter.tokens st) = false).
  { destruct (Qle_bool 1 (RateLimiter.tokens st)) eqn:E; [|reflexivity].
    apply Qle_bool_iff in E. lra. }
  split.
  - unfold RateLimiter.processQueue. rewrite Hp.
    unfold RateLimiter.work. cbn. rewrite Hq, Hlow. cbn.
    destruct st; cbn in *. now subst.
  - unfold RateLimiter.refill_agent.
    apply Qle_bool_iff in Hr. rewrite Hr. cbv zeta.
    unfold RateLimiter.add_tokens. cbn [RateLimiter.queue]. rewrite Hq.
    unfold RateLimiter.processQueue. cbn [RateLimiter.processing].
    rewrite Hp. unfold RateLimiter.work, RateLimiter.set_processing.
    cbn [RateLimiter.queue RateLimiter.tokens RateLimiter.lastRefill
         RateLimiter.processing RateLimiter.running RateLimiter.immediate].
    assert (Hfill : Qle_bool 1 (Qmin (RateLimiter.burst c)
                     (Double.add (RateLimiter.tokens st)
                                 (RateLimiter.refill_amount c now st)))
                    = true).
    { apply Qle_bool_iff. apply Qle_bool_iff in Hr.
      apply Q.min_glb; [exact Hb|].
      unfold Double.add. apply round_ge_double; [lra|apply one_is_double]. }
    rewrite Hfill. cbn [negb RateLimiter.queue RateLimiter.tokens
      RateLimiter.processing RateLimiter.running].
    repeat split; reflexivity.
Qed.

End LimiterPromises.

Lemma enqueue_returns_fresh_promise_witness :
  RateLimiter.promises
    (RateLimiter.run (Task:=nat) (Value:=unit)
       (RateLimiter.create RateLimiter.default_config)
       [RateLimiter.OpEnqueue 0 "a1" 7%nat]) !! 1%nat = None.
Proof.
  refine (proj1 (@enqueue_returns_fresh_promise nat unit
                   RateLimiter.default_config
                   [RateLimiter.OpEnqueue 0 "a1" 7%nat] 1 "a1" 8%nat 1%nat _)).
  vm_compute. reflexivity.
Defined.

Lemma limiter_promise_settled_once_witness :
  RateLimiter.promises
    (RateLimiter.step
       (RateLimiter.run (Task:=nat)
          (RateLimiter.create RateLimiter.default_config)
          [RateLimiter.OpEnqueue 0 "a1" 7%nat;
           RateLimiter.OpTaskSettled "a1" (RateLimiter.Resolved tt)])
       (RateLimiter.OpEnqueue 1 "a1" 8%nat)) !! 0%nat
  = Some (RateLimiter.Resolved tt).
Proof.
  apply (@limiter_promise_settled_once nat unit RateLimiter.default_config
           [RateLimiter.OpEnqueue 0 "a1" 7%nat;
            RateLimiter.OpTaskSettled "a1" (RateLimiter.Resolved tt)]).
  - vm_compute. reflexivity.
  - discriminate.
Defined.

Lemma rejected_enqueue_changes_nothing_witness :
  fst (RateLimiter.enqueue 2 "a1" 9%nat
         (RateLimiter.run (Task:=nat) (Value:=unit)
            (RateLimiter.create (RateLimiter.mkConfig (100 # 1) (100 # 1) 1))
            [RateLimiter.OpEnqueue 0 "a1" 7%nat;
             RateLimiter.OpEnqueue 1 "a1" 8%nat]))
  = RateLimiter.run
      (RateLimiter.create (RateLimiter.mkConfig (100 # 1) (100 # 1) 1))
      [RateLimiter.OpEnqueue 0 "a1" 7%nat; RateLimiter.OpEnqueue 1 "a1" 8%nat].
Proof.
  refine (proj1 (@rejected_enqueue_changes_nothing nat unit 2 "a1" 9%nat _
                   (RateLimiter.RateLimitError "Queue capacity reached") _ _)).
  - vm_compute. reflexivity.
  - vm_compute. reflexivity.
Defined.

Lemma limiter_agents_are_isolated_witness :
  RateLimiter.agents
    (fst (RateLimiter.enqueue 1 "a2" 8%nat
            (RateLimiter.run (Task:=nat) (Value:=unit)
               (RateLimiter.create RateLimiter.default_config)
               [RateLimiter.OpEnqueue 0 "a1" 7%nat]))) !! "a1"
  = RateLimiter.agents
      (RateLimiter.run (Task:=nat) (Value:=unit)
         (RateLimiter.create RateLimiter.default_config)
         [RateLimiter.OpEnqueue 0 "a1" 7%nat]) !! "a1".
Proof.
  refine (proj1 (@limiter_agents_are_isolated nat unit 1 "a1" "a2" 8%nat
                   RateLimiter.Pending _ _)).
  discriminate.
Defined.

Lemma empty_bucket_waits_for_refill_witness :
  RateLimiter.running
    (RateLimiter.refill_agent RateLimiter.default_config 700
       (RateLimiter.mkAgentState (1 # 2) 0 [RateLimiter.mkJob 7%nat 0]
          false None false))
  = Some (RateLimiter.mkJob 7%nat 0).
Proof.
  refine (proj1 (proj2 (@empty_bucket_waits_for_refill nat
                          RateLimiter.default_config 700
                          (RateLimiter.mkAgentState (1 # 2) 0
                             [RateLimiter.mkJob 7%nat 0] false None false)
                          (RateLimiter.mkJob 7%nat 0) [] _ _ _ _ _ _)));
    first [ reflexivity
          | apply Qle_bool_iff; vm_compute; reflexivity
          | apply Qlt_alt; vm_compute; reflexivity ].
Defined.

(* ===================================================================== *)
(** * Further properties: media preparation                               *)
(* ===================================================================== *)

Lemma last_segment_app (prefix payload : string) :
  includes "," payload = false ->
  Media.last_segment (prefix +:+ String "," payload) = payload.
Proof.
  intros Hp. induction prefix as [|c r IH].
  - change ("" +:+ String "," payload) with (String "," payload).
    cbn [Media.last_segment]. now rewrite Hp.
  - change (String c r +:+ String "," payload)
      with (String c (r +:+ String "," payload)).
    cbn [Media.last_segment].
    rewrite (includes_app_r "," r (String "," payload)) by reflexivity.
    exact IH.
Qed.

(** X15: a data URL and its bare base64 payload are the same media: for
    a non-empty payload without comma, [prefix,payload] is prepared
    exactly as [payload]. *)
Theorem prepareMedia_strips_data_url_prefix
    (w : Media.World) (a : Media.Args) (prefix payload : string) :
  payload <> "" -> includes "," payload = false ->
  Media.prepareMedia w
    (Media.mkArgs (Some (prefix +:+ String "," payload)) (Media.url a)
       (Media.filename a) (Media.mimeType a) (Media.save_to_temp a))
  = Media.prepareMedia w
      (Media.mkArgs (Some payload) (Media.url a)
         (Media.filename a) (Media.mimeType a) (Media.save_to_temp a)).
Proof.
  intros Hne Hc. unfold Media.prepareMedia, Media.load_media.
  cbn [Media.data Media.filename Media.mimeType Media.save_to_temp truthy
       default].
  assert (H1 : String.eqb (prefix +:+ String "," payload) "" = false).
  { destruct prefix; reflexivity. }
  assert (H2 : String.eqb payload "" = false)
    by (now apply String.eqb_neq).
  rewrite H1, H2. cbn [negb]. unfold id.
  rewrite (includes_app_r "," prefix (String "," payload)) by reflexivity.
  now rewrite last_segment_app, Hc.
Qed.

Lemma prepareMedia_strips_data_url_prefix_witness :
  Media.prepareMedia Media.example_world
    (Media.mkArgs (Some ("data:image/png;base64" +:+ String "," "ZmFrZQ=="))
       None None None None)
  = Media.prepareMedia Media.example_world
      (Media.mkArgs (Some "ZmFrZQ==") None None None None).
Proof.
  apply (prepareMedia_strips_data_url_prefix Media.example_world
           (Media.mkArgs None None None None None)
           "data:image/png;base64" "ZmFrZQ==");
    [discriminate|reflexivity].
Defined.

(** X16: the size limit on inline data.  With [data] supplied, a decoded
    buffer of more than 10 MiB fails with [MEDIA_TOO_LARGE] before
    anything is written; a buffer of at most 10 MiB (exactly 10 MiB
    included) is accepted and, with [save_to_temp = false], returned as
    the media handle with no preview. *)
Theorem prepareMedia_data_size_limit (w : Media.World) (a : Media.Args) d :
  Media.data a = Some d -> d <> "" ->
  let buffer :=
    Media.base64_decode w (if includes "," d then Media.last_segment d else d) in
  ((10 * 1024 * 1024 < Z.of_nat (length buffer))%Z ->
     Media.prepareMedia w a
     = Throw (CodedError "Media exceeds 10MB" "MEDIA_TOO_LARGE"))
  /\ ((Z.of_nat (length buffer) <= 10 * 1024 * 1024)%Z ->
      Media.save_to_temp a = Some false ->
      Media.prepareMedia w a
      = Return (Media.mkPrepared
                  (Media.mkMessageMedia
                     (default "image/jpeg" (Media.mimeType a))
                     (Media.base64_encode w buffer)
                     (default "image.jpg" (Media.filename a)))
                  None)).
Proof.
  intros Hd Hne buffer. subst buffer.
  assert (Ht : truthy (Media.data a) = true).
  { rewrite Hd. cbn. now apply String.eqb_neq in Hne as ->. }
  unfold Media.prepareMedia, Media.load_media. rewrite Ht, Hd.
  cbn [default from_option]. unfold id, Media.MAX_MEDIA_BYTES.
  split.
  - intros Hbig.
    match goal with |- context [(?x >? ?y)%Z] =>
      destruct (Z.gtb_spec x y) as [_|Hle] end; [reflexivity|lia].
  - intros Hsmall Hsave.
    match goal with |- context [(?x >? ?y)%Z] =>
      destruct (Z.gtb_spec x y) as [Hgt|_] end; [lia|].
    rewrite Hsave. reflexivity.
Qed.

Lemma prepareMedia_data_size_limit_witness :
  Media.prepareMedia Media.example_world
    (Media.mkArgs (Some "ZmFrZQ==") None (Some "x.png") None (Some false))
  = Return (Media.mkPrepared
              (Media.mkMessageMedia "image/jpeg" "ZmFrZQ==" "x.png") None).
Proof.
  refine (proj2 (prepareMedia_data_size_limit Media.example_world
                   (Media.mkArgs (Some "ZmFrZQ==") None (Some "x.png") None
                                 (Some false))
                   "ZmFrZQ==" eq_refl _) _ eq_refl).
  - discriminate.
  - vm_compute. discriminate.
Defined.

(** X17: a remote file is inspected before it is fetched.  With only
    [url] supplied, a failing HEAD request gives [BAD_GATEWAY] and a
    [Content-Length] that is missing, not a number, zero or above 10 MiB
    gives [MEDIA_TOO_LARGE]; in both cases the outcome is the same
    whatever the GET request and the file system would answer: nothing is
    downloaded and nothing is written. *)
Theorem prepareMedia_inspects_before_fetching (w : Media.World)
    (a : Media.Args) u :
  truthy (Media.data a) = false -> Media.url a = Some u -> u <> "" ->
  (forall e g mk wr,
     Media.axios_head w u = Throw e ->
     Media.prepareMedia (Media.with_fs mk wr (Media.with_axios_get g w)) a
     = Throw (CodedError "Failed to inspect remote media" "BAD_GATEWAY"))
  /\ (forall size g mk wr,
     Media.axios_head w u = Return size ->
     (size = Media.NaN
      \/ exists q, size = Media.Num q
           /\ (q == 0 \/ inject_Z (10 * 1024 * 1024) < q)%Q) ->
     Media.prepareMedia (Media.with_fs mk wr (Media.with_axios_get g w)) a
     = Throw (CodedError "Remote media exceeds 10MB or size unknown"
                         "MEDIA_TOO_LARGE")).
Proof.
  intros Hd Hu Hne.
  assert (Ht : truthy (Media.url a) = true).
  { rewrite Hu. cbn. now apply String.eqb_neq in Hne as ->. }
  split.
  - intros e g mk wr Hhead.
    unfold Media.prepareMedia, Media.load_media. rewrite Hd, Ht, Hu.
    cbn [default from_option Media.with_fs Media.with_axios_get
         Media.axios_head].
    unfold id. now rewrite Hhead.
  - intros size g mk wr Hhead Hsize.
    unfold Media.prepareMedia, Media.load_media. rewrite Hd, Ht, Hu.
    cbn [default from_option Media.with_fs Media.with_axios_get
         Media.axios_head].
    unfold id. rewrite Hhead.
    assert (Hrej : Media.size_rejected size = true).
    { destruct Hsize as [->|(q & -> & [Hz|Hbig])]; [reflexivity| |].
      - cbn. apply Qeq_bool_iff in Hz. now rewrite Hz.
      - cbn. apply orb_true_iff. right. apply negb_true_iff.
        destruct (Qle_bool q (inject_Z Media.MAX_MEDIA_BYTES)) eqn:E;
          [|reflexivity].
        apply Qle_bool_iff in E. unfold Media.MAX_MEDIA_BYTES in E. lra. }
    now rewrite Hrej.
Qed.

Lemma prepareMedia_inspects_before_fetching_witness :
  Media.prepareMedia
    (Media.with_fs (fun _ => Throw (Error "EACCES"))
       (fun _ _ => Throw (Error "EACCES"))
       (Media.with_axios_get (fun _ => Throw (Error "ECONNRESET"))
          Media.example_world_no_length))
    Media.args_url_only
  = Throw (CodedError "Remote media exceeds 10MB or size unknown"
                      "MEDIA_TOO_LARGE").
Proof.
  refine (proj2 (prepareMedia_inspects_before_fetching
                   Media.example_world_no_length Media.args_url_only
                   "https://example.com/pic.png" eq_refl eq_refl _)
                Media.NaN _ _ _ eq_refl _).
  - discriminate.
  - now left.
Defined.

(** X18: the preview file.  With [save_to_temp = false] the file system
    is not used at all and [previewPath] is [null]; in every other case a
    successful call has written the bytes to
    [tempDir/[Date.now()]-[filename]] and returns that path. *)
Theorem prepareMedia_preview_path (w : Media.World) (a : Media.Args) :
  (Media.save_to_temp a = Some false ->
     (forall mk wr,
        Media.prepareMedia (Media.with_fs mk wr w) a = Media.prepareMedia w a)
     /\ (forall r, Media.prepareMedia w a = Return r ->
                   Media.previewPath r = None))
  /\ (Media.save_to_temp a <> Some false ->
      forall r, Media.prepareMedia w a = Return r ->
        Media.previewPath r
        = Some (Media.path_join w (Media.tempDir w)
                  (Media.date_now w +:+ "-"
                   +:+ Media.media_filename (Media.media r)))
        /\ exists buffer,
             Media.fs_writeFile w
               (Media.path_join w (Media.tempDir w)
                  (Media.date_now w +:+ "-"
                   +:+ Media.media_filename (Media.media r))) buffer
             = Return tt
             /\ Media.media_data (Media.media r) = Media.base64_encode w buffer).
Proof.
  split.
  - intros Hsave. split.
    + intros mk wr. unfold Media.prepareMedia. rewrite Hsave. reflexivity.
    + intros r. unfold Media.prepareMedia. rewrite Hsave. cbn [default].
      destruct (Media.load_media w a _ _) as [[[buffer mime] name]|e];
        [|discriminate].
      cbn. now intros [= <-].
  - intros Hsave r. unfold Media.prepareMedia.
    assert (Hs : default true (Media.save_to_temp a) = true).
    { destruct (Media.save_to_temp a) as [[|]|]; try reflexivity.
      now destruct Hsave. }
    rewrite Hs.
    destruct (Media.load_media w a _ _) as [[[buffer mime] name]|e];
      [|discriminate].
    cbn. destruct (Media.fs_mkdir w _); [|discriminate]. cbn.
    destruct (Media.fs_writeFile w _ buffer) as [[]|] eqn:Hw; [|discriminate].
    cbn. intros [= <-]. cbn. split; [reflexivity|].
    exists buffer. now split.
Qed.

Lemma prepareMedia_preview_path_witness :
  Media.previewPath
    (Media.mkPrepared
       (Media.mkMessageMedia "image/png" "ZmFrZQ==" "image.jpg")
       (Some "/tmp/wwebjs/1700000000000-image.jpg"))
  = Some "/tmp/wwebjs/1700000000000-image.jpg".
Proof.
  refine (proj1 (proj2 (prepareMedia_preview_path Media.example_world
                          Media.args_url_only) _ _ eq_refl)).
  discriminate.
Defined.

(* ===================================================================== *)
(** * Further properties: session supervisor                              *)
(* ===================================================================== *)

Lemma teardown_timers now io a preserveDb clearAuth s :
  Manager.reconnectTimers
    (fst (Manager.teardownClient now io a preserveDb clearAuth s)) !! a = None.
Proof.
  unfold Manager.teardownClient.
  destruct (Manager.reconnectTimers s !! a) eqn:Ht;
    repeat (innermost_case; cbn [fst snd]); cbn;
    first [apply lookup_delete_eq|exact Ht].
Qed.

Lemma teardown_heap now io a preserveDb clearAuth s ref x :
  Manager.session_of a s = Some (ref, x) ->
  Manager.heap (fst (Manager.teardownClient now io a preserveDb clearAuth s))
    !! ref = Some (Manager.set_shuttingDown true x).
Proof.
  intros Hs. unfold Manager.teardownClient. rewrite Hs.
  repeat (innermost_case; cbn [fst snd]); cbn; apply lookup_insert_eq.
Qed.

Lemma teardown_returns now io a preserveDb clearAuth s :
  Manager.db_error io = None ->
  snd (Manager.teardownClient now io a preserveDb clearAuth s) = Return tt.
Proof.
  intros Hio. unfold Manager.teardownClient. rewrite Hio.
  repeat (innermost_case; cbn [fst snd]); reflexivity.
Qed.

Lemma teardown_auth_removed now io a preserveDb s :
  snd (Manager.teardownClient now io a preserveDb true s) = Return tt ->
  In (Manager.AuthDirRemoved a)
     (Manager.effects (fst (Manager.teardownClient now io a preserveDb true s))).
Proof.
  unfold Manager.teardownClient.
  repeat (innermost_case; cbn [fst snd]); try discriminate; intros _;
    cbn; rewrite ?in_app_iff; cbn; tauto.
Qed.

Lemma teardown_db_preserved now io a clearAuth s :
  Manager.db (fst (Manager.teardownClient now io a true clearAuth s))
  = Manager.db s.
Proof. teardown_cases; reflexivity. Qed.

Lemma teardown_db_row now io a clearAuth s row :
  Manager.db_error io = None ->
  Manager.db s !! a = Some row ->
  exists row',
    Manager.db (fst (Manager.teardownClient now io a false clearAuth s)) !! a
    = Some row'
    /\ Manager.user_id row' = Manager.user_id row
    /\ Manager.status row' = Manager.disconnected.
Proof.
  intros Hio Hrow. unfold Manager.teardownClient. rewrite Hio.
  destruct (Manager.session_of a s) as [[ref x]|];
    destruct (Manager.reconnectTimers s !! a);
    try destruct (Manager.metricsCounted x);
    cbn; rewrite Hrow; destruct clearAuth; cbn;
    rewrite lookup_insert_eq; eexists; repeat split; reflexivity.
Qed.

(** ** One client per agent *)

Lemma ensureClient_session now io agentRecord s s1 ref x :
  Manager.ensureClient now io agentRecord s = (s1, Return (ref, x)) ->
  Manager.session_of (Manager.agent_id agentRecord) s1 = Some (ref, x).
Proof.
  unfold Manager.ensureClient.
  destruct (Manager.session_of (Manager.agent_id agentRecord) s)
    as [[ref0 x0]|] eqn:Hs.
  - intros [= <- <- <-]. apply session_of_Some in Hs as [Hs Hh].
    apply session_of_Some. cbn. split; [exact Hs|apply lookup_insert_eq].
  - destruct (Manager.fs_error io); [discriminate|].
    intros [= <- <- <-]. apply session_of_Some. cbn.
    split; apply lookup_insert_eq.
Qed.

(** X19: [ensureClient] is idempotent.  Once it has returned a session
    for an agent, a further call for the same agent creates no client and
    allocates nothing, even if the auth directory can no longer be
    created: it returns the same session object with the record and the
    refresh time updated. *)
Theorem ensureClient_creates_one_client
    now io agentRecord s s1 ref x now' io' agentRecord' :
  Manager.agent_id agentRecord' = Manager.agent_id agentRecord ->
  Manager.ensureClient now io agentRecord s = (s1, Return (ref, x)) ->
  let again := Manager.ensureClient now' io' agentRecord' s1 in
  snd again
    = Return (ref, Manager.set_lastAgentRefresh now'
                     (Manager.set_agent agentRecord' x))
  /\ Manager.effects (fst again) = Manager.effects s1
  /\ Manager.sessions (fst again) = Manager.sessions s1
  /\ Manager.next_ref (fst again) = Manager.next_ref s1.
Proof.
  intros Hid Hfirst again. subst again.
  apply ensureClient_session in Hfirst.
  unfold Manager.ensureClient. rewrite Hid, Hfirst. cbn.
  repeat split; reflexivity.
Qed.

Lemma ensureClient_creates_one_client_witness :
  Manager.effects
    (fst (Manager.ensureClient 5000 (Manager.mkIo None (Some (Error "EACCES")))
            Manager.example_agent Manager.example_started))
  = Manager.effects Manager.example_started.
Proof.
  refine (proj1 (proj2 (ensureClient_creates_one_client 1000 Manager.io_ok
                          Manager.example_agent
                          (Manager.initial Manager.example_db)
                          Manager.example_started 0%nat _ 5000 _
                          Manager.example_agent eq_refl _))).
  reflexivity.
Defined.

(** ** Events after teardown *)

(** X20: a session that has been torn down no longer reacts to the loss
    of its connection: ['auth_failure'] and ['disconnected'] from its
    client change nothing, so no restart is scheduled for it, and the
    pending restart of the agent has been cancelled. *)
Theorem torn_down_session_ignores_failures
    now io a preserveDb clearAuth s ref x now' io' reason :
  Manager.session_of a s = Some (ref, x) ->
  let s' := fst (Manager.teardownClient now io a preserveDb clearAuth s) in
  Manager.on_auth_failure now' io' ref s' = s'
  /\ Manager.on_disconnected now' io' ref reason s' = s'
  /\ Manager.reconnectTimers s' !! a = None
  /\ Manager.session_of a s' = None.
Proof.
  intros Hs s'. subst s'.
  pose proof (teardown_heap now io a preserveDb clearAuth s ref x Hs) as Hh.
  repeat split.
  - unfold Manager.on_auth_failure. now rewrite Hh.
  - unfold Manager.on_disconnected. now rewrite Hh.
  - apply teardown_timers.
  - apply teardown_session_gone.
Qed.

Lemma torn_down_session_ignores_failures_witness :
  Manager.on_disconnected 9000 Manager.io_ok 0 (Some "LOGOUT")
    (fst (Manager.teardownClient 8000 Manager.io_ok "a1" true true
            Manager.example_ready))
  = fst (Manager.teardownClient 8000 Manager.io_ok "a1" true true
           Manager.example_ready).
Proof.
  refine (proj1 (proj2 (torn_down_session_ignores_failures 8000 Manager.io_ok
                          "a1" true true Manager.example_ready 0%nat
                          Manager.example_ready_session 9000 Manager.io_ok
                          (Some "LOGOUT") _))).
  reflexivity.
Defined.

(** ** The active-session gauge *)

Lemma on_ready_gauge now io ref s x :
  Manager.heap s !! ref = Some x ->
  Manager.sessionsActive (Manager.on_ready now io ref s)
  = (Manager.sessionsActive s + (if Manager.metricsCounted x then 0 else 1))%Z
  /\ Manager.sessions (Manager.on_ready now io ref s) = Manager.sessions s
  /\ exists x',
       Manager.heap (Manager.on_ready now io ref s) !! ref = Some x'
       /\ Manager.metricsCounted x' = true
       /\ Manager.shuttingDown x' = Manager.shuttingDown x.
Proof.
  intros Hx. unfold Manager.on_ready. rewrite Hx. cbv zeta.
  change (Manager.metricsCounted
            (Manager.set_live_status Manager.connected
               (Manager.set_isReady true x)))
    with (Manager.metricsCounted x).
  destruct (Manager.metricsCounted x) eqn:Hm;
    (destruct (Manager.updateStatus now io _ _ _ _) as [s2|e] eqn:Hup;
     [apply updateStatus_frame in Hup as [d ->]|]);
    cbn; (split; [lia|split; [reflexivity|]]);
    eexists; (split; [apply lookup_insert_eq|]); split; cbn; auto.
Qed.

Lemma on_disconnected_gauge now io ref reason s x :
  Manager.heap s !! ref = Some x ->
  Manager.shuttingDown x = false ->
  Manager.sessionsActive (Manager.on_disconnected now io ref reason s)
  = (Manager.sessionsActive s - (if Manager.metricsCounted x then 1 else 0))%Z
  /\ exists x',
       Manager.heap (Manager.on_disconnected now io ref reason s) !! ref
       = Some x'
       /\ Manager.metricsCounted x' = false
       /\ Manager.shuttingDown x' = false.
Proof.
  intros Hx Hsd. unfold Manager.on_disconnected. rewrite Hx, Hsd. cbv zeta.
  change (Manager.metricsCounted
            (Manager.set_isReady false
               (Manager.set_live_status Manager.disconnected x)))
    with (Manager.metricsCounted x).
  destruct (Manager.metricsCounted x) eqn:Hm;
    (destruct (Manager.updateStatus now io _ _ _ _) as [s2|e] eqn:Hup;
     [apply updateStatus_frame in Hup as [d ->];
      unfold Manager.scheduleSessionRestart; cbv zeta;
      match goal with |- context [match ?t with _ => _ end] =>
        destruct t end|]);
    cbn; (split; [lia|]);
    eexists; (split; [apply lookup_insert_eq|]); split; cbn; auto.
Qed.

(** X21: the gauge counts a session at most once.  For a live session
    not yet counted, ['ready'] adds one; a second ['ready'] adds nothing;
    a following ['disconnected'] or a teardown of the agent gives the one
    back, and a second ['disconnected'] takes nothing more. *)
Theorem gauge_counts_session_once
    a s ref x n1 io1 n2 io2 n3 io3 reason n4 io4 reason' n5 io5 pDb cA :
  Manager.session_of a s = Some (ref, x) ->
  Manager.metricsCounted x = false ->
  Manager.shuttingDown x = false ->
  let s1 := Manager.on_ready n1 io1 ref s in
  let s2 := Manager.on_disconnected n3 io3 ref reason s1 in
  Manager.sessionsActive s1 = (Manager.sessionsActive s + 1)%Z
  /\ Manager.sessionsActive (Manager.on_ready n2 io2 ref s1)
     = Manager.sessionsActive s1
  /\ Manager.sessionsActive s2 = Manager.sessionsActive s
  /\ Manager.sessionsActive (Manager.on_disconnected n4 io4 ref reason' s2)
     = Manager.sessionsActive s
  /\ Manager.sessionsActive
       (fst (Manager.teardownClient n5 io5 a pDb cA s1))
     = Manager.sessionsActive s.
Proof.
  intros Hs Hm Hsd s1 s2.
  apply session_of_Some in Hs as [Hsess Hx].
  destruct (on_ready_gauge n1 io1 ref s x Hx)
    as (Hg1 & Hsess1 & x1 & Hx1 & Hm1 & Hsd1).
  fold s1 in Hg1, Hsess1, Hx1. rewrite Hm in Hg1. rewrite Hsd in Hsd1.
  destruct (on_ready_gauge n2 io2 ref s1 x1 Hx1) as (Hg2 & _).
  rewrite Hm1 in Hg2.
  destruct (on_disconnected_gauge n3 io3 ref reason s1 x1 Hx1 Hsd1)
    as (Hg3 & x2 & Hx2 & Hm2 & Hsd2).
  fold s2 in Hg3, Hx2. rewrite Hm1 in Hg3.
  destruct (on_disconnected_gauge n4 io4 ref reason' s2 x2 Hx2 Hsd2)
    as (Hg4 & _).
  rewrite Hm2 in Hg4.
  repeat split; try lia.
  assert (Hs1 : Manager.session_of a s1 = Some (ref, x1))
    by (apply session_of_Some; split; [now rewrite Hsess1|exact Hx1]).
  unfold Manager.teardownClient. rewrite Hs1, Hm1.
  repeat (innermost_case; cbn [fst snd]); cbn; lia.
Qed.

Lemma gauge_counts_session_once_witness :
  Manager.sessionsActive
    (Manager.on_disconnected 3000 Manager.io_ok 0 (Some "LOGOUT")
       (Manager.on_ready 2000 Manager.io_ok 0 Manager.example_started))
  = Manager.sessionsActive Manager.example_started.
Proof.
  refine (proj1 (proj2 (proj2
            (gauge_counts_session_once "a1" Manager.example_started 0%nat
               (Manager.mkSession Manager.example_agent 0 None None false
                  Manager.awaiting_qr 1000 false false Manager.example_agent)
               2000 Manager.io_ok 2000 Manager.io_ok 3000 Manager.io_ok
               (Some "LOGOUT") 4000 Manager.io_ok None 5000 Manager.io_ok
               true false _ eq_refl eq_refl)))).
  reflexivity.
Defined.

(** ** Restart timers *)

(** X22: at most one restart is pending per agent, and the first one
    wins: scheduling again while a timer is armed changes nothing.  A
    timer armed without an explicit delay waits
    [min(30000, attempt * 5000)] ms. *)
Theorem restart_timer_is_unique
    agentRecord reason clearAuth attempt delayMs
    agentRecord' reason' clearAuth' attempt' delayMs' s :
  Manager.agent_id agentRecord' = Manager.agent_id agentRecord ->
  let s1 := Manager.scheduleSessionRestart agentRecord reason clearAuth
              attempt delayMs s in
  Manager.scheduleSessionRestart agentRecord' reason' clearAuth' attempt'
    delayMs' s1 = s1
  /\ (Manager.reconnectTimers s !! Manager.agent_id agentRecord = None ->
      delayMs = None ->
      Manager.reconnectTimers s1 !! Manager.agent_id agentRecord
      = Some (Manager.mkTimer agentRecord reason clearAuth attempt
                (Z.min 30000 (attempt * 5000)))).
Proof.
  intros Hid s1. subst s1. split.
  - unfold Manager.scheduleSessionRestart at 1. cbv zeta. rewrite Hid.
    unfold Manager.scheduleSessionRestart. cbv zeta.
    destruct (Manager.reconnectTimers s !! Manager.agent_id agentRecord)
      eqn:Ht.
    + now rewrite Ht.
    + cbn. now rewrite lookup_insert_eq.
  - intros Ht ->. unfold Manager.scheduleSessionRestart. cbv zeta.
    rewrite Ht. cbn. apply lookup_insert_eq.
Qed.

Lemma restart_timer_is_unique_witness :
  Manager.scheduleSessionRestart Manager.example_agent "auth_failure" true 1
    None
    (Manager.scheduleSessionRestart Manager.example_agent "LOGOUT" true 1
       None Manager.example_ready)
  = Manager.scheduleSessionRestart Manager.example_agent "LOGOUT" true 1 None
      Manager.example_ready.
Proof.
  refine (proj1 (restart_timer_is_unique Manager.example_agent "LOGOUT" true 1
                   None Manager.example_agent "auth_failure" true 1 None
                   Manager.example_ready eq_refl)).
Defined.

(** X23: a failed restart is retried with back-off.  When the timer of an
    agent fires and the database cannot be read, nothing is torn down;
    when the auth directory cannot be created, the old session is gone
    and no new one exists.  In both cases the timer is armed again with
    the captured record, [attempt + 1] and twice the delay, at most
    60 s. *)
Theorem failed_restart_is_retried now io a s t :
  Manager.reconnectTimers s !! a = Some t ->
  Manager.agent_id (Manager.rt_record t) = a ->
  (forall row, Manager.db s !! a = Some row -> Manager.agent_id row = a) ->
  let s' := Manager.restart_timer_fired now io a s in
  let retry :=
    Manager.mkTimer (Manager.rt_record t) (Manager.rt_reason t)
      (Manager.rt_clearAuth t) (Manager.rt_attempt t + 1)
      (Z.min (Manager.rt_delay t * 2) 60000) in
  (forall e, Manager.db_error io = Some e ->
     Manager.reconnectTimers s' !! a = Some retry
     /\ Manager.sessions s' = Manager.sessions s
     /\ Manager.heap s' = Manager.heap s
     /\ Manager.effects s' = Manager.effects s)
  /\ (forall e, Manager.db_error io = None -> Manager.fs_error io = Some e ->
     Manager.reconnectTimers s' !! a = Some retry
     /\ Manager.session_of a s' = None)
  /\ (Manager.rt_delay retry <= 60000)%Z.
Proof.
  intros Ht Hid Hwf s' retry. subst s' retry.
  split; [|split].
  - intros e Hdb. unfold Manager.restart_timer_fired, Manager.getAgent.
    rewrite Ht, Hdb. unfold Manager.scheduleSessionRestart. cbv zeta.
    rewrite Hid. cbn [Manager.reconnectTimers Manager.set_reconnectTimers].
    rewrite lookup_delete_eq. cbn. rewrite lookup_insert_eq.
    repeat split; reflexivity.
  - intros e Hdb Hfs. unfold Manager.restart_timer_fired, Manager.getAgent.
    rewrite Ht, Hdb.
    set (s1 := Manager.set_reconnectTimers _ s).
    set (fresh := default (Manager.rt_record t) _).
    assert (Hfresh : Manager.agent_id fresh = a).
    { subst fresh s1. cbn. destruct (Manager.db s !! a) as [row|] eqn:Hrow;
        cbn; [now apply Hwf|exact Hid]. }
    pose proof (teardown_preserveDb_returns now io a (Manager.rt_clearAuth t) s1)
      as Hret.
    pose proof (teardown_session_gone now io a true (Manager.rt_clearAuth t) s1)
      as Hgone.
    pose proof (teardown_timers now io a true (Manager.rt_clearAuth t) s1)
      as Htimers.
    destruct (Manager.teardownClient now io a true (Manager.rt_clearAuth t) s1)
      as [s2 r] eqn:Htd.
    cbn [fst snd] in Hret, Hgone, Htimers. subst r.
    unfold Manager.ensureClient. rewrite Hfresh, Hgone, Hfs.
    unfold Manager.scheduleSessionRestart. cbv zeta. rewrite Hid, Htimers.
    split; [cbn; apply lookup_insert_eq|].
    exact Hgone.
  - cbn. lia.
Qed.

Lemma failed_restart_is_retried_witness :
  Manager.reconnectTimers
    (Manager.restart_timer_fired 8000
       (Manager.mkIo None (Some (Error "EACCES"))) "a1"
       Manager.example_disconnected) !! "a1"
  = Some (Manager.mkTimer Manager.example_agent "LOGOUT" true 2 10000).
Proof.
  refine (proj1 (proj1 (proj2
            (failed_restart_is_retried 8000
               (Manager.mkIo None (Some (Error "EACCES"))) "a1"
               Manager.example_disconnected
               (Manager.mkTimer Manager.example_agent "LOGOUT" true 1 5000)
               eq_refl eq_refl _))
            (Error "EACCES") eq_refl eq_refl)).
  intros row Hrow. vm_compute in Hrow. now injection Hrow as <-.
Defined.

(** With the database reachable, [updateStatus] returns, and changes the
    database only. *)
Lemma updateStatus_ok now io agentRecord st extra s :
  Manager.db_error io = None ->
  exists d,
    Manager.updateStatus now io agentRecord st extra s
    = Return (Manager.set_db d s).
Proof.
  intros Hio. unfold Manager.updateStatus. rewrite Hio.
  repeat innermost_case;
    first [eexists; reflexivity
          |exists (Manager.db s); now destruct s].
Qed.

(** ** QR rendezvous *)

(** X24: the QR rendezvous.  On a live session without a cached QR and
    without a waiter, [waitForQr] installs one pending waiter; a second
    caller joins the same promise and changes nothing; the next ['qr']
    event resolves that promise with the encoded image, removes the
    waiter and its time-out, and caches the image, so that a later
    [waitForQr] returns it at once. *)
Theorem qr_rendezvous a s ref x now io b64 :
  Manager.session_of a s = Some (ref, x) ->
  Manager.qr x = None ->
  Manager.readyPromises s !! a = None ->
  Manager.agent_id (Manager.handler_agent x) = a ->
  Manager.db_error io = None ->
  let p := Manager.next_ref s in
  let s1 := fst (Manager.waitForQr a s) in
  let s2 := Manager.on_qr now io ref (Some b64) s1 in
  let image := Manager.mkQr "image/png" b64 in
  snd (Manager.waitForQr a s) = Manager.WaitPromise p
  /\ Manager.promises s1 !! p = Some Manager.QrPending
  /\ Manager.waitForQr a s1 = (s1, Manager.WaitPromise p)
  /\ Manager.promises s2 !! p = Some (Manager.QrResolved (Some image))
  /\ Manager.readyPromises s2 !! a = None
  /\ Manager.qrTimers s2 !! p = None
  /\ Manager.waitForQr a s2 = (s2, Manager.WaitValue image).
Proof.
  intros Hs Hqr Hrp Hid Hio p s1 s2 image.
  pose proof Hs as Hs0. apply session_of_Some in Hs0 as [Hsess Hheap].
  assert (E1 : Manager.waitForQr a s
               = (Manager.set_readyPromises (<[a := p]> (Manager.readyPromises s))
                    (Manager.set_qrTimers (<[p := a]> (Manager.qrTimers s))
                       (Manager.set_promises
                          (<[p := Manager.QrPending]> (Manager.promises s))
                          (Manager.set_next_ref (S p) s))),
                  Manager.WaitPromise p)).
  { unfold Manager.waitForQr. now rewrite Hs, Hqr, Hrp. }
  assert (Hs1 : Manager.session_of a s1 = Some (ref, x)).
  { subst s1. rewrite E1. apply session_of_Some. now split. }
  assert (Hrp1 : Manager.readyPromises s1 !! a = Some p).
  { subst s1. rewrite E1. cbn. apply lookup_insert_eq. }
  split; [now rewrite E1|].
  split; [subst s1; rewrite E1; cbn; apply lookup_insert_eq|].
  split; [unfold Manager.waitForQr; now rewrite Hs1, Hqr, Hrp1|].
  assert (Hh1 : Manager.heap s1 !! ref = Some x)
    by (subst s1; rewrite E1; exact Hheap).
  assert (E2 : exists d,
            s2 = Manager.entry_resolve p (Some image)
                   (Manager.set_readyPromises
                      (delete a (Manager.readyPromises s1))
                      (Manager.set_db d
                         (Manager.set_heap
                            (<[ref := Manager.set_live_status Manager.awaiting_qr
                                        (Manager.set_qrUpdatedAt (Some now)
                                           (Manager.set_qr (Some image) x))]>
                               (Manager.heap s1)) s1)))).
  { subst s2. unfold Manager.on_qr. rewrite Hh1. cbv zeta.
    cbn [fmap option_fmap option_map].
    match goal with |- context [Manager.updateStatus ?n ?i ?r ?st ?e ?s0] =>
      destruct (updateStatus_ok n i r st e s0 Hio) as [d Hd]; rewrite Hd
    end.
    exists d. rewrite Hid.
    cbn [Manager.readyPromises Manager.set_db Manager.set_heap].
    now rewrite Hrp1. }
  destruct E2 as [d E2]. rewrite E2.
  assert (Hp1 : Manager.promises s1 !! p = Some Manager.QrPending)
    by (subst s1; rewrite E1; cbn; apply lookup_insert_eq).
  split.
  { unfold Manager.entry_resolve. cbn. now apply settle_pending. }
  split; [cbn; apply lookup_delete_eq|].
  split; [cbn; apply lookup_delete_eq|].
  unfold Manager.waitForQr, Manager.session_of. cbn.
  assert (Hsess1 : Manager.sessions s1 !! a = Some ref)
    by (subst s1; rewrite E1; exact Hsess).
  rewrite Hsess1. cbn. rewrite lookup_insert_eq. reflexivity.
Qed.

Lemma qr_rendezvous_witness :
  Manager.promises
    (Manager.on_qr 2000 Manager.io_ok 0 (Some "iVBORw0KGgo=")
       (fst (Manager.waitForQr "a1" Manager.example_started))) !! 1%nat
  = Some (Manager.QrResolved (Some (Manager.mkQr "image/png" "iVBORw0KGgo="))).
Proof.
  refine (proj1 (proj2 (proj2 (proj2
            (qr_rendezvous "a1" Manager.example_started 0%nat
               (Manager.mkSession Manager.example_agent 0 None None false
                  Manager.awaiting_qr 1000 false false Manager.example_agent)
               2000 Manager.io_ok "iVBORw0KGgo=" _ eq_refl _ eq_refl
               eq_refl))))); reflexivity.
Defined.

(** ** Delete and reconnect *)

(** X25: [deleteSession] is idempotent.  With the database reachable it
    answers [{ deleted: true }] when the agent has a record and
    [{ deleted: false, alreadyRemoved: true }] when it has none; either
    way the agent is left with no record, no live session, no restart
    timer and no QR waiter, its auth directory has been removed, and a
    second call answers [{ deleted: false, alreadyRemoved: true }]. *)
Theorem deleteSession_is_idempotent now io a s now' :
  Manager.db_error io = None ->
  (forall row, Manager.db s !! a = Some row -> Manager.agent_id row = a) ->
  let s1 := fst (Manager.deleteSession now io a s) in
  snd (Manager.deleteSession now io a s)
    = Return (match Manager.db s !! a with
              | Some _ => Manager.mkDeleteResult true None
              | None => Manager.mkDeleteResult false (Some true)
              end)
  /\ Manager.db s1 !! a = None
  /\ Manager.session_of a s1 = None
  /\ Manager.reconnectTimers s1 !! a = None
  /\ Manager.readyPromises s1 !! a = None
  /\ In (Manager.AuthDirRemoved a) (Manager.effects s1)
  /\ snd (Manager.deleteSession now' io a s1)
     = Return (Manager.mkDeleteResult false (Some true)).
Proof.
  intros Hio Hwf s1.
  assert (Hnone : forall n s0,
            Manager.db s0 !! a = None ->
            Manager.deleteSession n io a s0
            = (fst (Manager.teardownClient n io a true true s0),
               Return (Manager.mkDeleteResult false (Some true)))).
  { intros n s0 H0. unfold Manager.deleteSession, Manager.getAgent.
    rewrite Hio, H0.
    pose proof (teardown_preserveDb_returns n io a true s0) as Hr.
    destruct (Manager.teardownClient n io a true true s0) as [s' r].
    cbn in Hr. now subst r. }
  assert (Hall : snd (Manager.deleteSession now io a s)
                 = Return (match Manager.db s !! a with
                           | Some _ => Manager.mkDeleteResult true None
                           | None => Manager.mkDeleteResult false (Some true)
                           end)
                 /\ Manager.db s1 !! a = None
                 /\ Manager.session_of a s1 = None
                 /\ Manager.reconnectTimers s1 !! a = None
                 /\ Manager.readyPromises s1 !! a = None
                 /\ In (Manager.AuthDirRemoved a) (Manager.effects s1)).
  { subst s1. destruct (Manager.db s !! a) as [row|] eqn:Hrow.
    - pose proof (Hwf row eq_refl) as Hid.
      unfold Manager.deleteSession, Manager.getAgent. rewrite Hio, Hrow.
      pose proof (teardown_returns now io a false true s Hio) as Hr.
      pose proof (teardown_session_gone now io a false true s) as Hg.
      pose proof (teardown_timers now io a false true s) as Ht.
      pose proof (teardown_readyPromises now io a false true s) as Hp.
      pose proof (teardown_auth_removed now io a false s Hr) as Ha.
      destruct (teardown_db_row now io a true s row Hio Hrow)
        as (row' & Hrow' & Huid & _).
      destruct (Manager.teardownClient now io a false true s) as [s' r].
      cbn [fst snd] in *. subst r. rewrite Hid, Hrow', Huid, Z.eqb_refl.
      cbn. split; [reflexivity|]. split; [apply lookup_delete_eq|].
      split; [exact Hg|]. split; [exact Ht|].
      split; [rewrite Hp; apply lookup_delete_eq|exact Ha].
    - rewrite (Hnone now s Hrow). cbn [fst snd].
      split; [reflexivity|].
      split; [now rewrite teardown_db_preserved|].
      split; [apply teardown_session_gone|].
      split; [apply teardown_timers|].
      split; [rewrite teardown_readyPromises; apply lookup_delete_eq|].
      apply teardown_auth_removed, teardown_preserveDb_returns. }
  destruct Hall as (H1 & H2 & H3 & H4 & H5 & H6).
  repeat split; try assumption.
  now rewrite (Hnone now' s1 H2).
Qed.

Lemma deleteSession_is_idempotent_witness :
  snd (Manager.deleteSession 9000 Manager.io_ok "a1" Manager.example_ready)
  = Return (Manager.mkDeleteResult true None)
  /\ snd (Manager.deleteSession 9500 Manager.io_ok "a1"
            (fst (Manager.deleteSession 9000 Manager.io_ok "a1"
                    Manager.example_ready)))
     = Return (Manager.mkDeleteResult false (Some true)).
Proof.
  destruct (deleteSession_is_idempotent 9000 Manager.io_ok "a1"
              Manager.example_ready 9500 eq_refl)
    as (H1 & _ & _ & _ & _ & _ & H7).
  - intros row Hrow. vm_compute in Hrow. now injection Hrow as <-.
  - split; [exact H1|exact H7].
Defined.

(** X26: [reconnect].  For an unknown agent it fails with
    [SESSION_NOT_FOUND] and changes nothing.  For a known agent (database
    and file system working) the old client, if any, is destroyed, the
    auth directory is removed, a new client is created, and the database
    is left as it was; the answer reports the persisted status with
    [isReady = false], [hasClient = true] and no QR. *)
Theorem reconnect_restarts_client now io a s :
  Manager.db_error io = None ->
  (Manager.db s !! a = None ->
     Manager.reconnect now io a s = (s, Throw Manager.session_not_found))
  /\ (forall row,
     Manager.db s !! a = Some row -> Manager.agent_id row = a ->
     Manager.fs_error io = None ->
     let s' := fst (Manager.reconnect now io a s) in
     exists view,
       snd (Manager.reconnect now io a s) = Return view
       /\ Manager.sp_status view = Manager.status row
       /\ Manager.sp_liveState view
          = Manager.mkLiveState false true (Manager.status row) None None
       /\ Manager.db s' = Manager.db s
       /\ Manager.sessions s' !! a = Some (Manager.next_ref s)
       /\ In (Manager.AuthDirRemoved a) (Manager.effects s')
       /\ In (Manager.ClientCreated (Manager.next_ref s) a) (Manager.effects s')
       /\ (forall ref x,
             Manager.session_of a s = Some (ref, x) ->
             In (Manager.ClientDestroyed (Manager.client x))
                (Manager.effects s'))).
Proof.
  intros Hio. split.
  - intros Hrow. unfold Manager.reconnect, Manager.getAgent.
    now rewrite Hio, Hrow.
  - intros row Hrow Hid Hfs s'. subst s'.
    unfold Manager.reconnect, Manager.getAgent. rewrite Hio, Hrow.
    pose proof (teardown_preserveDb_returns now io a true s) as Hret.
    pose proof (teardown_session_gone now io a true true s) as Hgone.
    pose proof (teardown_next_ref now io a true true s) as Hnext.
    pose proof (teardown_db_preserved now io a true s) as Hdb.
    pose proof (teardown_auth_removed now io a true s Hret) as Hauth.
    pose proof (fun ref x => teardown_destroys_client now io a true true s ref x)
      as Hdestroy.
    destruct (Manager.teardownClient now io a true true s) as [s1 r].
    cbn [fst snd] in *. subst r. rewrite <- Hid in Hgone.
    destruct (ensureClient_creates now io row s1 Hfs Hgone)
      as (Hr & Hsess & Hheap & Heff).
    pose proof (ensureClient_session now io row s1) as Hsession.
    assert (Hdb2 : Manager.db (fst (Manager.ensureClient now io row s1))
                   = Manager.db s1).
    { unfold Manager.ensureClient. rewrite Hgone, Hfs. reflexivity. }
    destruct (Manager.ensureClient now io row s1) as [s2 r2].
    cbn [fst snd] in *. subst r2.
    specialize (Hsession s2 _ _ eq_refl).
    eexists. split; [reflexivity|].
    unfold Manager.buildResponse. rewrite Hsession. cbn.
    rewrite Hnext, Hid in *.
    repeat split; try reflexivity.
    + congruence.
    + exact Hsess.
    + rewrite Heff, in_app_iff. now left.
    + rewrite Heff, in_app_iff. right. now left.
    + intros ref x Hs. rewrite Heff, in_app_iff. left. now apply (Hdestroy ref).
Qed.

Lemma reconnect_restarts_client_witness :
  Manager.sessions
    (fst (Manager.reconnect 9000 Manager.io_ok "a1" Manager.example_ready))
    !! "a1" = Some 1%nat.
Proof.
  destruct (proj2 (reconnect_restarts_client 9000 Manager.io_ok "a1"
                     Manager.example_ready eq_refl)
              (Manager.mkAgent 1 "a1" "A" "k1"
                 (Some "https://ai.example.com/agents/a1/execute")
                 Manager.connected (Some 2000) None 0 2000)
              eq_refl eq_refl eq_refl)
    as (view & _ & _ & _ & _ & Hsess & _).
  exact Hsess.
Defined.

(** ** Outbound text *)

(** X27: [sendText] queues nothing unless the agent has a record and a
    ready session.  Without a record it fails with [SESSION_NOT_FOUND]
    and changes nothing.  With a record but no ready session it fails
    with [SESSION_NOT_READY], the limiter is untouched, and the agent has
    a live session afterwards: a missing client is started on the way. *)
Theorem sendText_requires_ready_session now io a payload s rl :
  Manager.db_error io = None ->
  (Manager.db s !! a = None ->
     Manager.sendText now io a payload s rl
     = (s, rl, Throw Manager.session_not_found))
  /\ (forall row,
     Manager.db s !! a = Some row -> Manager.agent_id row = a ->
     Manager.fs_error io = None ->
     (forall ref x,
        Manager.session_of a s = Some (ref, x) -> Manager.isReady x = false) ->
     exists s',
       Manager.sendText now io a payload s rl
       = (s', rl, Throw (CodedError "Session not ready" "SESSION_NOT_READY"))
       /\ is_Some (Manager.session_of a s')).
Proof.
  intros Hio. split.
  - intros Hrow. unfold Manager.sendText, Manager.getAgent.
    now rewrite Hio, Hrow.
  - intros row Hrow Hid Hfs Hnot.
    unfold Manager.sendText, Manager.getAgent. rewrite Hio, Hrow.
    pose proof (ensureClient_session now io row s) as Hsession.
    assert (Hready : forall s1 ref x,
              Manager.ensureClient now io row s = (s1, Return (ref, x)) ->
              Manager.isReady x = false).
    { unfold Manager.ensureClient. rewrite Hid.
      destruct (Manager.session_of a s) as [[ref0 x0]|] eqn:Hs.
      - intros s1 ref x [= <- <- <-]. cbn. exact (Hnot ref0 x0 eq_refl).
      - rewrite Hfs. intros s1 ref x [= <- <- <-]. reflexivity. }
    assert (Hok : exists s1 ref x,
              Manager.ensureClient now io row s = (s1, Return (ref, x))).
    { unfold Manager.ensureClient.
      destruct (Manager.session_of (Manager.agent_id row) s) as [[ref0 x0]|];
        [|rewrite Hfs]; eauto. }
    destruct Hok as (s1 & ref & x & Hens). rewrite Hens.
    rewrite (Hready s1 ref x Hens). cbn.
    exists s1. split; [reflexivity|].
    rewrite <- Hid. rewrite (Hsession s1 ref x Hens). eauto.
Qed.

Lemma sendText_requires_ready_session_witness :
  exists s',
    Manager.sendText 3000 Manager.io_ok "a1"
      (Manager.mkTextPayload "08123" "Ping" None) Manager.example_started
      (RateLimiter.create RateLimiter.default_config)
    = (s', RateLimiter.create RateLimiter.default_config,
       Throw (CodedError "Session not ready" "SESSION_NOT_READY"))
    /\ is_Some (Manager.session_of "a1" s').
Proof.
  apply (proj2 (sendText_requires_ready_session 3000 Manager.io_ok "a1"
                  (Manager.mkTextPayload "08123" "Ping" None)
                  Manager.example_started
                  (RateLimiter.create RateLimiter.default_config) eq_refl)
           Manager.example_agent); try reflexivity.
  intros ref x Hs. vm_compute in Hs. now injection Hs as <- <-.
Defined.

(** ** Inbound messages *)

Lemma drop_prefix_filter (keep : ascii -> bool) (needle s : string) :
  filter_chars keep needle = "" ->
  String.prefix needle s = true ->
  filter_chars keep (drop_chars (String.length needle) s) = filter_chars keep s.
Proof.
  revert s. induction needle as [|c n IH]; intros s Hn Hp; [reflexivity|].
  destruct s as [|d r]; [discriminate Hp|].
  cbn [String.prefix] in Hp. destruct (ascii_dec c d) as [<-|]; [|discriminate].
  cbn [filter_chars] in Hn. destruct (keep c) eqn:Hc; [discriminate Hn|].
  cbn [String.length drop_chars filter_chars]. rewrite Hc. now apply IH.
Qed.

Lemma remove_first_filter (keep : ascii -> bool) (needle s : string) :
  filter_chars keep needle = "" ->
  filter_chars keep (remove_first needle s) = filter_chars keep s.
Proof.
  intros Hn. induction s as [|c r IH].
  - cbn [remove_first]. destruct (String.prefix needle "") eqn:Hp;
      [|reflexivity].
    now apply drop_prefix_filter.
  - cbn [remove_first]. destruct (String.prefix needle (String c r)) eqn:Hp.
    + now apply drop_prefix_filter.
    + cbn [filter_chars]. now rewrite IH.
Qed.

Lemma elem_string_In (x : string) (l : list string) :
  Manager.elem_string x l = true <-> In x l.
Proof.
  unfold Manager.elem_string. rewrite existsb_exists. split.
  - intros (y & Hy & E). apply String.eqb_eq in E. now subst.
  - intros H. exists x. split; [exact H|apply String.eqb_refl].
Qed.

(** The cached record is refreshed or kept: only the session object
    changes, and it stays the session of the same agent. *)
Lemma refreshAgentRecord_keeps now io ref s x :
  Manager.heap s !! ref = Some x ->
  Manager.db_error io = None ->
  (forall row,
     Manager.db s !! Manager.agent_id (Manager.agent x) = Some row ->
     Manager.agent_id row = Manager.agent_id (Manager.agent x)) ->
  exists h x1,
    Manager.refreshAgentRecord now io ref s = (Manager.set_heap h s, Return tt)
    /\ h !! ref = Some x1
    /\ Manager.agent_id (Manager.agent x1) = Manager.agent_id (Manager.agent x).
Proof.
  intros Hx Hio Hdb. unfold Manager.refreshAgentRecord, Manager.getAgent.
  rewrite Hx, Hio.
  assert (Hsame : exists h x1,
            (s, Return tt) = (Manager.set_heap h s, @Return unit tt)
            /\ h !! ref = Some x1
            /\ Manager.agent_id (Manager.agent x1)
               = Manager.agent_id (Manager.agent x)).
  { exists (Manager.heap s), x. split; [now destruct s|]. now split. }
  destruct (_ && _); [exact Hsame|].
  destruct (Manager.db s !! _) as [fresh|] eqn:Hrow; [|exact Hsame].
  eexists _, _. split; [reflexivity|].
  split; [apply lookup_insert_eq|]. cbn. now apply Hdb.
Qed.

(** X28: which inbound messages are queued for the AI, and what the
    queued closure does.  For a message that is not from the bot itself,
    not a status and not a broadcast, on a live session with the database
    reachable: a message of a type other than ["chat"] is dropped before
    the limiter is reached; a direct chat message is counted and handed
    to [rateLimiter.enqueue] for the agent, as a closure that carries the
    body as [input] and the sender as [session_id]; a group chat message
    is handed over when the bot's JID is among the mentioned ids or the
    digits of the body contain the digits of the bot's JID, and dropped
    otherwise, so always while the bot's own JID is unknown.  A message
    handed over is queued unless the agent's queue is full: then the
    [RateLimitError] is caught and the message is lost.  The closure,
    once run, asks the AI backend only after [getChat] and
    [sendStateTyping] have succeeded, with the agent record the session
    then holds; when one of the two fails nothing depends on the AI
    backend and the failure goes to [reportInboundError]. *)
Theorem inbound_messages_queued {Task Value : Type}
    (closure : Manager.InboundJob -> Task)
    (send : Manager.SendMessage -> Task)
    now now' io ref botJid traceId m s x
    (rl : RateLimiter.State Task Value) :
  Manager.heap s !! ref = Some x ->
  Manager.db_error io = None ->
  (forall row,
     Manager.db s !! Manager.agent_id (Manager.agent x) = Some row ->
     Manager.agent_id row = Manager.agent_id (Manager.agent x)) ->
  Manager.fromMe m = false -> Manager.isStatus m = false ->
  Manager.broadcast m = false -> Manager.isBroadcast m = false ->
  let result :=
    Manager.handleInboundMessage closure now now' io ref botJid traceId m s rl in
  let s' := fst (fst result) in
  let rl' := snd (fst result) in
  let a := Manager.agent_id (Manager.agent x) in
  let payload :=
    Manager.mkAiPayload (Manager.body m) 5 (Manager.notifyName m)
      (Manager.pushname m) (Manager.from m) in
  let job := Manager.mkInboundJob ref a m payload traceId in
  let dropped :=
    snd result = Manager.InboundDropped /\ rl' = rl
    /\ Manager.effects s' = Manager.effects s in
  let handed :=
    rl' = fst (RateLimiter.enqueue now' a (closure job) rl)
    /\ snd result
       = match snd (RateLimiter.enqueue now' a (closure job) rl) with
         | Return p => Manager.InboundQueued a p
         | Throw e => Manager.InboundFailed e
         end
    /\ Manager.effects s' = Manager.effects s ++ [Manager.MessageReceived a] in
  let bot := default "" botJid in
  let mentioned :=
    bot <> "" /\ exists ids, Manager.mentionedIds m = Some ids /\ In bot ids in
  let named :=
    bot <> "" /\ filter_chars is_digit bot <> ""
    /\ includes_string (filter_chars is_digit bot)
         (filter_chars is_digit (default "" (Manager.body m))) = true in
  (Manager.msg_type m <> "chat" -> dropped)
  /\ (Manager.msg_type m = "chat" ->
      endsWith "@g.us" (Manager.from m) = false -> handed)
  /\ (Manager.msg_type m = "chat" ->
      endsWith "@g.us" (Manager.from m) = true ->
      (mentioned \/ named -> handed)
      /\ (~ (mentioned \/ named) -> dropped))
  /\ (handed ->
      forall st,
        RateLimiter.agents rl !! a = Some st ->
        ((RateLimiter.queueLimit (RateLimiter.config rl)
          <= Z.of_nat (length (RateLimiter.queue st)))%Z ->
         snd result
         = Manager.InboundFailed
             (RateLimiter.RateLimitError "Queue capacity reached")
         /\ rl' = rl)
        /\ ((Z.of_nat (length (RateLimiter.queue st))
             < RateLimiter.queueLimit (RateLimiter.config rl))%Z ->
            snd result = Manager.InboundQueued a (RateLimiter.next_promise rl)
            /\ RateLimiter.promises rl' !! RateLimiter.next_promise rl
               = Some RateLimiter.Pending))
  /\ (forall w y (rl0 : RateLimiter.State Task Value),
        let ran := InboundRun.run send w y job rl0 in
        let reported e :=
          fst (fst ran)
          = fst (InboundRun.reportInboundError send w y m e traceId rl0) in
        (forall e,
           InboundRun.getChat w = Throw e ->
           (forall post',
              InboundRun.run send (InboundRun.with_post post' w) y job rl0 = ran)
           /\ snd (fst ran) = [] /\ reported e)
        /\ (forall e,
           InboundRun.getChat w = Return tt ->
           InboundRun.sendStateTyping w = Throw e ->
           (forall post',
              InboundRun.run send (InboundRun.with_post post' w) y job rl0 = ran)
           /\ snd (fst ran) = [InboundRun.StateCleared] /\ reported e)
        /\ (InboundRun.getChat w = Return tt ->
            InboundRun.sendStateTyping w = Return tt ->
            exists rest,
              snd (fst ran)
              = InboundRun.TypingShown
                :: map InboundRun.Metric
                     (fst (AiRun.executeRun (InboundRun.post w)
                             (InboundRun.aiBackendUrl w) (InboundRun.start w)
                             (InboundRun.finish w) (Manager.agent y) payload))
                ++ rest)).
Proof.
  intros Hx Hio Hdb Hme Hst Hb1 Hb2 result s' rl' a payload job dropped handed
         bot mentioned named.
  assert (Hbot : truthy botJid = true <-> bot <> "").
  { subst bot. destruct botJid as [j|]; cbn.
    - rewrite negb_true_iff. apply String.eqb_neq.
    - split; [discriminate|now intros []]. }
  assert (Hment : Manager.mentions_bot botJid m = true <-> mentioned).
  { subst mentioned. unfold Manager.mentions_bot.
    destruct (truthy botJid) eqn:Ht.
    - destruct (Manager.mentionedIds m) as [ids|].
      + rewrite elem_string_In. split.
        * intros Hin. split; [now apply Hbot|eauto].
        * intros (_ & ids' & [= <-] & Hin). exact Hin.
      + split; [discriminate|]. now intros (_ & ids' & [=] & _).
    - split; [discriminate|]. intros (Hne & _).
      apply Hbot in Hne. discriminate. }
  assert (Hnamed : Manager.body_names_bot botJid m = true <-> named).
  { subst named. unfold Manager.body_names_bot, Manager.bot_digits.
    assert (Hbody : (if truthy (Manager.body m)
                     then filter_chars is_digit (default "" (Manager.body m))
                     else "")
                    = filter_chars is_digit (default "" (Manager.body m))).
    { destruct (Manager.body m) as [b|]; cbn; [|reflexivity].
      destruct (String.eqb_spec b "") as [->|_]; reflexivity. }
    cbv zeta. rewrite Hbody.
    destruct (truthy botJid) eqn:Ht.
    - cbn [default from_option truthy]. unfold id.
      rewrite (remove_first_filter is_digit "@c.us") by reflexivity.
      match goal with |- context [String.eqb ?d ""] =>
        destruct (String.eqb_spec d "") as [E|E] end; cbn [negb].
      + split; [discriminate|]. intros (_ & Hd & _). destruct (Hd E).
      + split.
        * intros Hin. split; [now apply Hbot|]. split; [exact E|exact Hin].
        * intros (_ & _ & Hin). exact Hin.
    - cbn. split; [discriminate|]. intros (Hne & _).
      apply Hbot in Hne. discriminate. }
  destruct (refreshAgentRecord_keeps now io ref s x Hx Hio Hdb)
    as (h & x1 & Hrefresh & Hx1 & Hid).
  assert (Hresult :
            result
            = if endsWith "@g.us" (Manager.from m)
                 && negb (Manager.mentions_bot botJid m)
                 && negb (Manager.body_names_bot botJid m)
              then (Manager.set_heap h s, rl, Manager.InboundDropped)
              else if negb (String.eqb (Manager.msg_type m) "chat")
              then (Manager.set_heap h s, rl, Manager.InboundDropped)
              else
                match RateLimiter.enqueue now' a (closure job) rl with
                | (rl1, Throw e) =>
                    (Manager.emit (Manager.MessageReceived a)
                       (Manager.set_heap h s), rl1, Manager.InboundFailed e)
                | (rl1, Return p) =>
                    (Manager.emit (Manager.MessageReceived a)
                       (Manager.set_heap h s), rl1, Manager.InboundQueued a p)
                end).
  { subst result. unfold Manager.handleInboundMessage.
    rewrite Hme, Hst, Hb1, Hb2. cbn [orb]. rewrite Hrefresh.
    cbn [Manager.heap Manager.set_heap]. rewrite Hx1. cbv zeta.
    rewrite Hid. reflexivity. }
  assert (Hdropped : forall st0,
            result = (Manager.set_heap h s, rl, st0) ->
            st0 = Manager.InboundDropped -> dropped).
  { intros st0 E ->. subst dropped s' rl'. rewrite E. cbn. auto. }
  assert (Hhanded :
            result
            = match RateLimiter.enqueue now' a (closure job) rl with
              | (rl1, Throw e) =>
                  (Manager.emit (Manager.MessageReceived a)
                     (Manager.set_heap h s), rl1, Manager.InboundFailed e)
              | (rl1, Return p) =>
                  (Manager.emit (Manager.MessageReceived a)
                     (Manager.set_heap h s), rl1, Manager.InboundQueued a p)
              end -> handed).
  { intros E. subst handed s' rl'. rewrite E.
    destruct (RateLimiter.enqueue now' a (closure job) rl) as [rl1 [p|e]];
      cbn; auto. }
  split; [|split; [|split; [|split]]].
  - intros Htype. apply String.eqb_neq in Htype.
    rewrite Htype in Hresult. cbn [negb] in Hresult.
    apply (Hdropped Manager.InboundDropped); [|reflexivity].
    rewrite Hresult. destruct (_ && _); reflexivity.
  - intros Htype Hgroup. apply Hhanded.
    rewrite Hresult, Hgroup, Htype. reflexivity.
  - intros Htype Hgroup.
    rewrite Hgroup, Htype in Hresult. cbn [andb negb String.eqb] in Hresult.
    split.
    + intros Hor. apply Hhanded. rewrite Hresult.
      rewrite <- Hment, <- Hnamed in Hor.
      destruct (Manager.mentions_bot botJid m),
               (Manager.body_names_bot botJid m); cbn;
        first [reflexivity | destruct Hor; discriminate].
    + intros Hnot. apply (Hdropped Manager.InboundDropped); [|reflexivity].
      rewrite Hresult. rewrite <- Hment, <- Hnamed in Hnot.
      destruct (Manager.mentions_bot botJid m),
               (Manager.body_names_bot botJid m); cbn;
        first [reflexivity | exfalso; apply Hnot; auto].
  - intros (Hrl & Hout & _) st Hst0.
    rewrite Hrl, Hout. rewrite enqueue_unfold. cbv zeta.
    unfold RateLimiter.getAgentState. rewrite Hst0. cbn [fst snd].
    split; intros Hlen.
    + destruct (Z.geb_spec (Z.of_nat (length (RateLimiter.queue st)))
                  (RateLimiter.queueLimit (RateLimiter.config rl))); [|lia].
      cbn. now split.
    + destruct (Z.geb_spec (Z.of_nat (length (RateLimiter.queue st)))
                  (RateLimiter.queueLimit (RateLimiter.config rl))); [lia|].
      cbn. split; [reflexivity|apply lookup_insert_eq].
  - intros w y rl0 ran reported. subst ran reported. split; [|split].
    + intros e Hc. unfold InboundRun.run.
      cbn [InboundRun.getChat InboundRun.with_post]. rewrite Hc.
      split; [intros post'; reflexivity|].
      unfold InboundRun.failed. cbn [Manager.ij_message Manager.ij_traceId job].
      destruct (InboundRun.reportInboundError _ _ _ _ _ _ _) as [rl1 [p|e']];
        now split.
    + intros e Hc Ht. unfold InboundRun.run.
      cbn [InboundRun.getChat InboundRun.sendStateTyping InboundRun.with_post].
      rewrite Hc, Ht. split; [intros post'; reflexivity|].
      unfold InboundRun.failed. cbn [Manager.ij_message Manager.ij_traceId job].
      destruct (InboundRun.reportInboundError _ _ _ _ _ _ _) as [rl1 [p|e']];
        now split.
    + intros Hc Ht. unfold InboundRun.run. rewrite Hc, Ht.
      change (Manager.ij_payload job) with payload.
      destruct (AiRun.executeRun _ _ _ _ _ _) as [ms [res|e]]; cbn [fst].
      * destruct (truthy (AiRun.reply res)).
        -- destruct (InboundRun.sendMessage w _ _ _).
           ++ cbn. eexists. rewrite <- app_assoc. reflexivity.
           ++ unfold InboundRun.failed.
              destruct (InboundRun.reportInboundError _ _ _ _ _ _ _)
                as [rl1 [p|e']]; cbn; eexists;
                rewrite <- app_assoc; reflexivity.
        -- cbn. eexists. reflexivity.
      * unfold InboundRun.failed.
        destruct (InboundRun.reportInboundError _ _ _ _ _ _ _)
          as [rl1 [p|e']]; cbn; eexists; reflexivity.
Qed.

Lemma inbound_messages_queued_witness :
  snd (Manager.handleInboundMessage
         (Task:=Manager.InboundJob + Manager.SendMessage) (Value:=unit)
         inl 3000 3001 Manager.io_ok 0 (Some "628111@c.us") "t-1"
         (Manager.example_group_message "call 62 811 1 now")
         Manager.example_ready
         (RateLimiter.create RateLimiter.default_config))
  = Manager.InboundQueued "a1" 0.
Proof.
  assert (Hdb : forall row,
            Manager.db Manager.example_ready
              !! Manager.agent_id (Manager.agent Manager.example_ready_session)
            = Some row ->
            Manager.agent_id row
            = Manager.agent_id (Manager.agent Manager.example_ready_session)).
  { intros row Hrow. vm_compute in Hrow. now injection Hrow as <-. }
  destruct (inbound_messages_queued
              (Task:=Manager.InboundJob + Manager.SendMessage) (Value:=unit)
              inl inr 3000 3001 Manager.io_ok 0 (Some "628111@c.us") "t-1"
              (Manager.example_group_message "call 62 811 1 now")
              Manager.example_ready Manager.example_ready_session
              (RateLimiter.create RateLimiter.default_config)
              eq_refl eq_refl Hdb eq_refl eq_refl eq_refl eq_refl)
    as (_ & _ & Hgroup & _).
  destruct (Hgroup eq_refl eq_refl) as [Hhanded _].
  destruct Hhanded as (_ & Hout & _);
    [right; repeat split; discriminate|].
  exact Hout.
Defined.

(* ===================================================================== *)
(** * Further properties: cleanup of the temp directory                   *)
(* ===================================================================== *)

(** X29: one sweep of the temp directory.  An entry that is not a
    regular file, or was modified within the last 24 hours, is never
    removed, whatever fails; when nothing fails, every regular file older
    than 24 hours is removed; no entry is added or altered; and sweeping
    again at the same instant removes nothing more. *)
Theorem cleanup_sweep (now : Z) (f : Cleanup.Faults)
    (dir : gmap string Cleanup.Stat) :
  (forall name st,
     dir !! name = Some st ->
     Cleanup.isFile st = false
     \/ (inject_Z now - Cleanup.mtimeMs st <= inject_Z (24 * 60 * 60 * 1000))%Q ->
     Cleanup.cleanupTempDir now f dir !! name = Some st)
  /\ (forall name st,
     Cleanup.readdir_fails f = false ->
     Cleanup.stat_fails f name = false ->
     Cleanup.unlink_fails f name = false ->
     dir !! name = Some st ->
     Cleanup.isFile st = true ->
     (inject_Z (24 * 60 * 60 * 1000) < inject_Z now - Cleanup.mtimeMs st)%Q ->
     Cleanup.cleanupTempDir now f dir !! name = None)
  /\ (forall name st,
     Cleanup.cleanupTempDir now f dir !! name = Some st ->
     dir !! name = Some st)
  /\ Cleanup.cleanupTempDir now f (Cleanup.cleanupTempDir now f dir)
     = Cleanup.cleanupTempDir now f dir.
Proof.
  unfold Cleanup.cleanupTempDir.
  split; [|split; [|split]].
  - intros name st Hin Hkeep. destruct (Cleanup.readdir_fails f); [exact Hin|].
    apply map_lookup_filter_Some. split; [exact Hin|]. cbn [fst snd].
    assert (He : Cleanup.expired now st = false).
    { unfold Cleanup.expired, Cleanup.MAX_AGE_MS.
      destruct Hkeep as [->|Hage]; [reflexivity|].
      apply andb_false_iff. right. apply negb_false_iff, Qle_bool_iff.
      exact Hage. }
    rewrite He, andb_false_r. reflexivity.
  - intros name st Hr Hs Hu Hin Hfile Hold. rewrite Hr.
    apply map_lookup_filter_None. right. intros st' Hin' Hkept.
    assert (st' = st) by congruence. subst st'. cbn [fst snd] in Hkept.
    rewrite Hs, Hu in Hkept. unfold Cleanup.expired, Cleanup.MAX_AGE_MS in Hkept.
    rewrite Hfile in Hkept. cbn [negb andb] in Hkept.
    rewrite andb_true_r, negb_involutive in Hkept.
    apply Qle_bool_iff in Hkept. lra.
  - intros name st. destruct (Cleanup.readdir_fails f); [tauto|].
    apply map_lookup_filter_Some_1_1.
  - destruct (Cleanup.readdir_fails f) eqn:E; [reflexivity|].
    apply map_filter_filter_r. tauto.
Qed.

Lemma cleanup_sweep_witness :
  Cleanup.cleanupTempDir 100000000 Cleanup.no_faults Cleanup.example_dir
    !! "2-new.png" = Some (Cleanup.mkStat true 90000000)
  /\ Cleanup.cleanupTempDir 100000000 Cleanup.no_faults Cleanup.example_dir
       !! "1-old.png" = None.
Proof.
  destruct (cleanup_sweep 100000000 Cleanup.no_faults Cleanup.example_dir)
    as (Hkeep & Hdrop & _).
  split.
  - apply Hkeep; [reflexivity|]. right.
    apply Qle_bool_iff. vm_compute. reflexivity.
  - apply (Hdrop "1-old.png" (Cleanup.mkStat true 0)); try reflexivity.
Defined.

(* ===================================================================== *)
(** * Further properties: create or resume                                *)
(* ===================================================================== *)

(** X30: [createOrResumeSession].  The latest active key of the user is
    preferred to the key of the caller; with neither, the call fails with
    [INVALID_PAYLOAD] and changes nothing.  For a new agent a row is
    inserted for the caller's user with status [awaiting_qr] and the
    default endpoint, and a client is started.  For an agent that already
    has a row and a live session, the owner, creation time, status and an
    endpoint already set are kept, no second client is created, and the
    answer shows the live session as it is. *)
Theorem createOrResume_outcomes now io aiBackendUrl latest args s :
  Manager.db_error io = None ->
  let id := Manager.ua_agentId args in
  let key := if truthy latest then latest else Manager.ua_apiKey args in
  let result :=
    Manager.createOrResumeSession now io aiBackendUrl latest args s in
  (truthy key = false ->
     result = (s, Throw (CodedError "Missing active API key" "INVALID_PAYLOAD")))
  /\ (truthy key = true ->
      Manager.db s !! id = None -> Manager.sessions s !! id = None ->
      Manager.fs_error io = None ->
      exists view row,
        snd result = Return view
        /\ Manager.db (fst result) !! id = Some row
        /\ Manager.user_id row = Manager.ua_userId args
        /\ Manager.status row = Manager.awaiting_qr
        /\ Manager.api_key row = default "" key
        /\ Manager.endpoint_url_run row
           = Some (AiEndpoint.buildAgentEndpoint aiBackendUrl id (Some "execute"))
        /\ Manager.sp_liveState view
           = Manager.mkLiveState false true Manager.awaiting_qr None None
        /\ In (Manager.ClientCreated (Manager.next_ref s) id)
              (Manager.effects (fst result)))
  /\ (truthy key = true ->
      forall existing ref x,
        Manager.db s !! id = Some existing ->
        Manager.agent_id existing = id ->
        Manager.session_of id s = Some (ref, x) ->
        exists view row,
          snd result = Return view
          /\ Manager.db (fst result) !! id = Some row
          /\ Manager.user_id row = Manager.user_id existing
          /\ Manager.created_at row = Manager.created_at existing
          /\ Manager.status row = Manager.status existing
          /\ Manager.api_key row = default "" key
          /\ (forall e, Manager.endpoint_url_run existing = Some e ->
                        Manager.endpoint_url_run row = Some e)
          /\ Manager.effects (fst result) = Manager.effects s
          /\ Manager.ls_isReady (Manager.sp_liveState view) = Manager.isReady x).
Proof.
  intros Hio id key result. subst id key result.
  unfold Manager.createOrResumeSession, Manager.upsertAgentRecord.
  rewrite Hio. cbv zeta.
  split; [|split].
  - intros Hk. now rewrite Hk.
  - intros Hk Hrow Hsess Hfs. rewrite Hk, Hrow. cbn [negb].
    set (row := Manager.mkAgent _ _ _ _ _ _ _ _ _ _).
    set (s1 := Manager.set_db _ s).
    assert (Hnone : Manager.session_of (Manager.agent_id row) s1 = None)
      by (apply session_of_None; exact Hsess).
    destruct (ensureClient_creates now io row s1 Hfs Hnone)
      as (Hr & Hs2 & Hh2 & Heff).
    pose proof (ensureClient_session now io row s1) as Hsession.
    assert (Hdb2 : Manager.db (fst (Manager.ensureClient now io row s1))
                   = Manager.db s1).
    { unfold Manager.ensureClient. rewrite Hnone, Hfs. reflexivity. }
    destruct (Manager.ensureClient now io row s1) as [s2 r2].
    cbn [fst snd] in *. subst r2.
    specialize (Hsession s2 _ _ eq_refl).
    exists (Manager.buildResponse row s2), row. cbn [fst snd].
    split; [reflexivity|].
    split; [rewrite Hdb2; subst s1; cbn; apply lookup_insert_eq|].
    repeat (split; [reflexivity|]).
    split.
    + unfold Manager.buildResponse. rewrite Hsession. reflexivity.
    + rewrite Heff, in_app_iff. right. now left.
  - intros Hk existing ref x Hrow Hid Hs. rewrite Hk, Hrow. cbn [negb].
    set (row := Manager.mkAgent _ _ _ _ _ _ _ _ _ _).
    set (s1 := Manager.set_db _ s).
    assert (Hs1 : Manager.session_of (Manager.agent_id row) s1 = Some (ref, x))
      by (subst row s1; cbn [Manager.agent_id]; rewrite Hid; exact Hs).
    unfold Manager.ensureClient. rewrite Hs1.
    exists (Manager.buildResponse row
              (Manager.set_heap
                 (<[ref := Manager.set_lastAgentRefresh now
                             (Manager.set_agent row x)]> (Manager.heap s1)) s1)),
           row.
    cbn [fst snd].
    split; [reflexivity|].
    split; [subst s1; cbn; apply lookup_insert_eq|].
    repeat (split; [reflexivity|]).
    split; [intros e He; subst row; cbn; now rewrite He|].
    split; [reflexivity|].
    unfold Manager.buildResponse.
    assert (Hs2 : Manager.session_of (Manager.agent_id row)
                    (Manager.set_heap
                       (<[ref := Manager.set_lastAgentRefresh now
                                   (Manager.set_agent row x)]>
                          (Manager.heap s1)) s1)
                  = Some (ref, Manager.set_lastAgentRefresh now
                                 (Manager.set_agent row x))).
    { apply session_of_Some in Hs1 as [Hsess _]. apply session_of_Some.
      split; [exact Hsess|cbn; apply lookup_insert_eq]. }
    rewrite Hs2. reflexivity.
Qed.

Lemma createOrResume_outcomes_witness :
  exists view row,
    snd (Manager.createOrResumeSession 500 Manager.io_ok
           "https://ai.example.com" None
           (Manager.mkUpsertArgs 1 "a1" "A" (Some "k1"))
           (Manager.initial ∅))
    = Return view
    /\ Manager.endpoint_url_run row
       = Some "https://ai.example.com/agents/a1/execute"
    /\ Manager.sp_liveState view
       = Manager.mkLiveState false true Manager.awaiting_qr None None.
Proof.
  destruct (proj1 (proj2
              (createOrResume_outcomes 500 Manager.io_ok
                 "https://ai.example.com" None
                 (Manager.mkUpsertArgs 1 "a1" "A" (Some "k1"))
                 (Manager.initial ∅) eq_refl)))
    as (view & row & Hv & _ & _ & _ & _ & He & Hl & _);
    [reflexivity | apply lookup_empty | apply lookup_empty | reflexivity |].
  exists view, row. split; [exact Hv|]. split; [exact He|exact Hl].
Defined.
